(** * econtools.util.frametools: a shallow embedding and its properties

    The module [frametools.py] offers four functions over pandas tables:
    [stata_merge] (a join that flags where every output row comes from),
    [group_id] (a dense integer id per distinct key combination),
    [winsorize] (row trimming by per-column quantile cut-offs) and
    [df_to_list] (rows of a table as a list).

    Tables are modelled row by row: an ordered list of column names and an
    ordered list of labelled rows whose cells are aligned with the column
    names.  Numbers are exact rationals ([Qc]); pandas' missing value is a
    constructor of its own, so that the two notions of equality pandas uses
    can both be written down: key matching in [merge] and [drop_duplicates]
    (missing equals missing) and element-wise comparison (missing compares
    false with everything).

    pandas itself is not part of the sources.  What the functions use of it
    is written down as pandas documents it:
    - [pd.merge(left, right, how=..., on=...)]: the four join modes; the
      keys are [on], or the shared columns when [on] is not given; a key
      must label one column on each side; rows match on equal keys (a
      missing key matches a missing key); the other columns that both sides
      have get the suffixes [_x] and [_y]; inner and left joins keep the
      order of the left rows, a right join the order of the right rows, an
      outer join sorts by key; the result has the labels 0, 1, ...;
    - [a.add(b, fill_value=0)]: a cell missing on one side counts 0, a cell
      missing on both sides stays missing;
    - [df.groupby(c).size()]: the sorted distinct values that are not
      missing, with their counts;
    - [df.drop_duplicates()]: the first row of every distinct combination;
    - [s.quantile((lo, hi))]: both probabilities are checked first; then
      linear interpolation over the sorted values that are not missing;
      missing when there are none;
    - [np.array([True] * n)], [np.minimum] and [df[mask]]: the mask of
      [winsorize] is an array of booleans, but for a table with no rows an
      empty array of floats, which selects columns and not rows.

    Where the model stops:
    - a table has no column name twice ([wf_frame]).  On a table with a
      repeated name pandas' [df[c]] is a table and not a column; the
      functions below take the first column of that name.  The theorems
      about the contents of a table assume [wf_frame] or distinct names.
      [pd_merge] refuses a join whose output would repeat a name;
    - cells have no type other than what they hold: pandas' refusal to join
      a numeric key column to a key column of strings is not modelled.  The
      theorems about the table [stata_merge] returns are stated for calls
      that return, or against what [pd_merge] does on the same tables;
    - arithmetic is exact and there is no infinity, where pandas computes
      in float64.  Comparisons of float64 numbers are exact, so this only
      matters for the value of a cut-off.  The theorems about [winsorize]
      do not depend on that value, but for the one about the full range
      [(0, 1)], which is stated for float64 numbers on which the
      interpolation is exact. *)

From Stdlib Require Import Ascii QArith Qcanon Qround.
From stdpp Require Import base decidable option numbers strings list sorting.

#[local] Set Warnings "-clear-no-such-hyp".

(** ** Cell values *)

Inductive value : Type :=
  | VNum (q : Qc)
  | VStr (s : string)
  | VNaN.

Global Instance value_eq_dec : EqDecision value.
Proof. solve_decision. Defined.

Global Instance value_inhabited : Inhabited value := populate VNaN.

Definition num_of_nat (n : nat) : value := VNum (Qc_of_Z (Z.of_nat n)).
Definition num_of_Z (z : Z) : value := VNum (Qc_of_Z z).

(** ** Exceptions and the result of a call *)

Inductive exn : Type :=
  | KeyError
  | ValueError
  | TypeError
  | IndexError
  | AssertionError
  | MergeError
  | OutOfFuel.

Inductive result (A : Type) : Type :=
  | Ok (a : A)
  | Raise (e : exn).
Arguments Ok {A} a.
Arguments Raise {A} e.

Definition rbind {A B} (m : result A) (k : A → result B) : result B :=
  match m with
  | Ok a => k a
  | Raise e => Raise e
  end.

Global Instance exn_eq_dec : EqDecision exn.
Proof. solve_decision. Defined.
Global Instance result_eq_dec `{EqDecision A} : EqDecision (result A).
Proof. solve_decision. Defined.

Global Instance result_ret : MRet result := @Ok.
Global Instance result_bind : MBind result := λ A B k m, rbind m k.
Global Instance result_fmap : FMap result := λ A B f m, rbind m (λ a, Ok (f a)).

Definition py_assert (b : bool) : result unit :=
  if b then Ok tt else Raise AssertionError.

(** [mapM f l] runs [f] on the items of [l] from left to right and stops at
    the first exception. *)
Fixpoint mapM {A B} (f : A → result B) (l : list A) : result (list B) :=
  match l with
  | [] => Ok []
  | x :: l' => y ← f x; ys ← mapM f l'; Ok (y :: ys)
  end.

(** ** Tables *)

Abbreviation row := (list value).

Record DataFrame : Type := mkFrame {
  columns : list string;
  rows : list (value * row)
}.

Global Instance DataFrame_eq_dec : EqDecision DataFrame.
Proof. solve_decision. Defined.

Definition index (df : DataFrame) : list value := fst <$> rows df.
Definition data (df : DataFrame) : list row := snd <$> rows df.

(** [df.shape] *)
Definition shape (df : DataFrame) : nat * nat :=
  (length (rows df), length (columns df)).

(** Every row has one cell per column and no column name is used twice. *)
Definition wf_frame (df : DataFrame) : Prop :=
  NoDup (columns df) ∧ Forall (λ r, length r.2 = length (columns df)) (rows df).

Global Instance wf_frame_dec df : Decision (wf_frame df).
Proof. unfold wf_frame. apply _. Defined.

(** Position of the first column called [c]. *)
Fixpoint col_pos (c : string) (cols : list string) : option nat :=
  match cols with
  | [] => None
  | c' :: cols' => if decide (c = c') then Some 0 else S <$> col_pos c cols'
  end.

(** The cell of row [r] under column [c]; missing when there is none. *)
Definition cell (cols : list string) (r : row) (c : string) : value :=
  match col_pos c cols with
  | Some i => default VNaN (r !! i)
  | None => VNaN
  end.

(** [range(n)] as labels: pandas' default index. *)
Definition range_index (n : nat) : list value := num_of_nat <$> seq 0 n.

(** [df[c]] *)
Definition get_col (c : string) (df : DataFrame) : result (list value) :=
  match col_pos c (columns df) with
  | Some i => Ok ((λ r, default VNaN (r.2 !! i)) <$> rows df)
  | None => Raise KeyError
  end.

(** [df[c] = vs] for a column [vs] aligned with the rows of [df]: an existing
    column is overwritten in place, a new one is appended. *)
Definition set_col (c : string) (vs : list value) (df : DataFrame) : DataFrame :=
  match col_pos c (columns df) with
  | Some i =>
      mkFrame (columns df)
        (zip_with (λ r v, (r.1, <[i := v]> r.2)) (rows df) vs)
  | None =>
      mkFrame (columns df ++ [c])
        (zip_with (λ r v, (r.1, r.2 ++ [v])) (rows df) vs)
  end.

(** [df[c] = v] for a scalar [v], broadcast to every row. *)
Definition set_col_const (c : string) (v : value) (df : DataFrame) : DataFrame :=
  set_col c (replicate (length (rows df)) v) df.

(** [del df[c]] *)
Definition del_col (c : string) (df : DataFrame) : result DataFrame :=
  match col_pos c (columns df) with
  | Some i =>
      Ok (mkFrame (delete i (columns df)) ((λ r, (r.1, delete i r.2)) <$> rows df))
  | None => Raise KeyError
  end.

(** [df[cols]] for a list of column names, on a table without a repeated
    column name: one column per name asked for, in the order asked. *)
Definition select_cols (cols : list string) (df : DataFrame) : result DataFrame :=
  if decide (Forall (λ c, c ∈ columns df) cols) then
    Ok (mkFrame cols ((λ r, (r.1, cell (columns df) r.2 <$> cols)) <$> rows df))
  else Raise KeyError.

(** [df.reset_index(drop=True)] *)
Definition reset_index_drop (df : DataFrame) : DataFrame :=
  mkFrame (columns df) (zip (range_index (length (rows df))) (data df)).

(** [df.index = labels]; pandas refuses a list of the wrong length. *)
Definition set_index (labels : list value) (df : DataFrame) : result DataFrame :=
  if decide (length labels = length (rows df)) then
    Ok (mkFrame (columns df) (zip labels (data df)))
  else Raise ValueError.

(** [df[mask]] for a boolean mask aligned with the rows. *)
Fixpoint mask_filter {A} (mask : list bool) (l : list A) : list A :=
  match mask, l with
  | b :: mask', x :: l' => if b then x :: mask_filter mask' l' else mask_filter mask' l'
  | _, _ => []
  end.

Definition select_rows (mask : list bool) (df : DataFrame) : DataFrame :=
  mkFrame (columns df) (mask_filter mask (rows df)).

(** ** Fresh marker names (lines 32-37 of the source)

    [while name in columns: name += sfx].  The loop is run with fuel; one
    more round than there are columns is always enough
    ([fresh_marker_total] below). *)

Fixpoint while_taken (fuel : nat) (name sfx : string) (cols : list string)
  : option string :=
  match fuel with
  | 0 => None
  | S fuel' =>
      if decide (name ∈ cols) then while_taken fuel' (name +:+ sfx) sfx cols
      else Some name
  end.

Definition fresh_marker (base sfx : string) (cols : list string) : option string :=
  while_taken (S (length cols)) base sfx cols.

Definition left_marker (cols : list string) : option string :=
  fresh_marker "tmpa" "a" cols.
Definition right_marker (cols : list string) : option string :=
  fresh_marker "tmpb" "b" cols.

Definition from_fuel {A} (o : option A) : result A :=
  match o with
  | Some a => Ok a
  | None => Raise OutOfFuel
  end.

(** ** Orders used for sorting

    pandas sorts group keys ([groupby]) and the keys of an outer join.
    Numbers are ordered as numbers, strings lexicographically, and missing
    keys come last; between a number and a string (which pandas cannot
    order) the number comes first here. *)

Definition value_leb (a b : value) : bool :=
  match a, b with
  | VNum x, VNum y => Qle_bool x y
  | VNum _, _ => true
  | VStr _, VNum _ => false
  | VStr s, VStr t => String.leb s t
  | VStr _, VNaN => true
  | VNaN, VNaN => true
  | VNaN, _ => false
  end.

Fixpoint key_leb (k1 k2 : list value) : bool :=
  match k1, k2 with
  | [], _ => true
  | _ :: _, [] => false
  | a :: k1', b :: k2' => if decide (a = b) then key_leb k1' k2' else value_leb a b
  end.

Section sorting.
Context {A : Type} (leb : A → A → bool).

Fixpoint insert_sorted (x : A) (l : list A) : list A :=
  match l with
  | [] => [x]
  | y :: l' => if leb x y then x :: y :: l' else y :: insert_sorted x l'
  end.

(** A stable insertion sort. *)
Fixpoint sort_by (l : list A) : list A :=
  match l with
  | [] => []
  | x :: l' => insert_sorted x (sort_by l')
  end.
End sorting.

(** ** pandas.merge(left, right, how=..., on=...) *)

Inductive how_t : Type := how_inner | how_left | how_right | how_outer.

Record merge_kwargs : Type := mkKwargs {
  kw_on : option (list string);
  kw_how : how_t
}.

(** A row of the join before it is laid out: which input rows it is made of. *)
Inductive joined : Type :=
  | Both (l r : row)
  | LeftOnly (l : row)
  | RightOnly (r : row).

(** A join key must label one column of a side: pandas raises [KeyError]
    for a name that is no column and [ValueError] for a name that several
    columns have. *)
Definition key_label (cols : list string) (k : string) : result unit :=
  match filter (λ c, c = k) cols with
  | [] => Raise KeyError
  | [_] => Ok tt
  | _ => Raise ValueError
  end.

(** The join keys: [on] when given, each key looked up in the right side and
    then in the left side; else the columns the two sides share, none of
    which may be repeated on a side. *)
Definition merge_keys (on : option (list string)) (lcols rcols : list string)
  : result (list string) :=
  match on with
  | None =>
      match filter (λ c, c ∈ rcols) lcols with
      | [] => Raise MergeError
      | common =>
          if decide (NoDup common ∧ NoDup (filter (λ c, c ∈ lcols) rcols))
          then Ok common else Raise MergeError
      end
  | Some [] => Raise IndexError
  | Some K =>
      mapM (λ k, key_label rcols k;; key_label lcols k) K;; Ok K
  end.

Section merge.
Variables (lcols rcols K : list string).

Definition key_of_left (l : row) : list value := cell lcols l <$> K.
Definition key_of_right (r : row) : list value := cell rcols r <$> K.

(** Key matching: a missing key matches a missing key. *)
Definition key_match (l r : row) : bool :=
  bool_decide (key_of_left l = key_of_right r).

Definition right_nonkey : list string := filter (λ c, c ∉ K) rcols.

(** Columns of both sides that are not keys get the suffixes [_x], [_y]. *)
Definition out_left_name (c : string) : string :=
  if decide (¬ c ∈ K ∧ c ∈ rcols) then (c +:+ "_x") else c.
Definition out_right_name (c : string) : string :=
  if decide (c ∈ lcols) then (c +:+ "_y") else c.

Definition merged_columns : list string :=
  (out_left_name <$> lcols) ++ (out_right_name <$> right_nonkey).

(** The cells of an output row: the left columns, then the right columns
    that are not keys.  A row of the right side alone fills the key
    columns from the right. *)
Definition build_row (j : joined) : row :=
  match j with
  | Both l r => (cell lcols l <$> lcols) ++ (cell rcols r <$> right_nonkey)
  | LeftOnly l => (cell lcols l <$> lcols) ++ ((λ _, VNaN) <$> right_nonkey)
  | RightOnly r =>
      ((λ c, if decide (c ∈ K) then cell rcols r c else VNaN) <$> lcols)
        ++ (cell rcols r <$> right_nonkey)
  end.

Definition joined_key (j : joined) : list value :=
  match j with
  | Both l _ => key_of_left l
  | LeftOnly l => key_of_left l
  | RightOnly r => key_of_right r
  end.

Variables (ls rs : list row).

Definition inner_join : list joined :=
  ls ≫= λ l, Both l <$> filter (λ r, key_match l r) rs.

Definition left_join : list joined :=
  ls ≫= λ l,
    match filter (λ r, key_match l r) rs with
    | [] => [LeftOnly l]
    | ms => Both l <$> ms
    end.

Definition right_join : list joined :=
  rs ≫= λ r,
    match filter (λ l, key_match l r) ls with
    | [] => [RightOnly r]
    | ms => (λ l, Both l r) <$> ms
    end.

Definition right_unmatched : list joined :=
  RightOnly <$> filter (λ r, forallb (λ l, negb (key_match l r)) ls) rs.

(** The outer join sorts its rows by key. *)
Definition outer_join : list joined :=
  sort_by (λ j1 j2, key_leb (joined_key j1) (joined_key j2))
          (left_join ++ right_unmatched).

Definition join_rows (how : how_t) : list joined :=
  match how with
  | how_inner => inner_join
  | how_left => left_join
  | how_right => right_join
  | how_outer => outer_join
  end.
End merge.

(** On tables without a repeated column name the output can repeat a name
    only through the suffixes (a column [c_x] or [c_y] next to a renamed
    [c]), which pandas refuses with a [MergeError].  A join whose output
    would repeat a name is refused here in every case: the model has no
    table with a repeated column name. *)
Definition pd_merge (left right : DataFrame) (kw : merge_kwargs) : result DataFrame :=
  let lcols := columns left in
  let rcols := columns right in
  K ← merge_keys (kw_on kw) lcols rcols;
  let cols := merged_columns lcols rcols K in
  if decide (NoDup cols) then
    let out := build_row lcols rcols K
                 <$> join_rows lcols rcols K (data left) (data right) (kw_how kw) in
    Ok (mkFrame cols (zip (range_index (length out)) out))
  else Raise MergeError.

(** ** Element-wise operations on columns *)

(** [a.add(b, fill_value=0)] on one pair of cells. *)
Definition add_fill0 (a b : value) : result value :=
  match a, b with
  | VNum x, VNum y => Ok (VNum (x + y))
  | VNum x, VNaN => Ok (VNum (x + 0))
  | VNaN, VNum y => Ok (VNum (0 + y))
  | VNaN, VNaN => Ok VNaN
  | VStr s, VStr t => Ok (VStr (s +:+ t))
  | _, _ => Raise TypeError
  end.

Definition series_add (a b : list value) : result (list value) :=
  mapM (λ p, add_fill0 p.1 p.2) (zip a b).

(** [v == w] on cells: a missing value equals nothing. *)
Definition elem_eqb (v w : value) : bool :=
  match v, w with
  | VNaN, _ | _, VNaN => false
  | _, _ => bool_decide (v = w)
  end.

(** [v >= w] and [v <= w] against a number; false on a missing value. *)
Definition elem_leb (v w : value) : bool :=
  match v, w with
  | VNum x, VNum y => Qle_bool x y
  | _, _ => false
  end.

(** ** What [stata_merge] prints *)

Inductive printed : Type :=
  | PText (s : string)
  | PDist (d : list (value * Qc)).

(** [df.groupby(c).size()]: the distinct values that are not missing, in
    sorted order, each with its number of rows. *)
Fixpoint distinct_values (seen vs : list value) : list value :=
  match vs with
  | [] => []
  | v :: vs' =>
      if decide (v = VNaN ∨ v ∈ seen) then distinct_values seen vs'
      else v :: distinct_values (v :: seen) vs'
  end.

Definition count_of (v : value) (vs : list value) : nat :=
  length (filter (λ w, w = v) vs).

Definition groupby_size (vs : list value) : list (value * nat) :=
  (λ v, (v, count_of v vs)) <$> sort_by value_leb (distinct_values [] vs).

Definition fraction (k n : nat) : Qc :=
  Q2Qc (Z.of_nat k # Pos.of_nat n).

(** [new.groupby(gen).size() / new.shape[0]] *)
Definition distribution (gen : string) (new : DataFrame) : result (list (value * Qc)) :=
  flags ← get_col gen new;
  Ok ((λ g, (g.1, fraction g.2 (shape new).1)) <$> groupby_size flags).

(** ** Calls that print: output so far, then a value or an exception *)

Definition Py (A : Type) : Type := list printed * result A.

Global Instance Py_ret : MRet Py := λ A a, ([], Ok a).
Global Instance Py_bind : MBind Py := λ A B k m,
  match m with
  | (out, Ok a) => let r := k a in (out ++ r.1, r.2)
  | (out, Raise e) => (out, Raise e)
  end.

Definition lift {A} (r : result A) : Py A := ([], r).
Definition print (p : printed) : Py unit := ([p], Ok tt).

(** ** stata_merge *)

(** Lines 31-47: the join with its status column, the markers removed. *)
Definition merge_flag (left right : DataFrame) (gen : string) (kw : merge_kwargs)
  : result DataFrame :=
  left_tmp ← from_fuel (left_marker (columns left));
  right_tmp ← from_fuel (right_marker (columns right));
  let copy_left := set_col_const left_tmp (num_of_Z 1) left in
  let copy_right := set_col_const right_tmp (num_of_Z 2) right in
  new ← pd_merge copy_left copy_right kw;
  a ← get_col left_tmp new;
  b ← get_col right_tmp new;
  flags ← series_add a b;
  let new := set_col gen flags new in
  new ← del_col left_tmp new;
  del_col right_tmp new.

(** [if assertval:] a status of [None] or [0] asks for no check. *)
Definition truthy (assertval : option Z) : option Z :=
  match assertval with
  | Some z => if decide (z = 0%Z) then None else Some z
  | None => None
  end.

(** Lines 49-62. *)
Definition check_flag (new : DataFrame) (assertval : option Z) (gen : string)
  : Py DataFrame :=
  match truthy assertval with
  | Some a =>
      flags ← lift (get_col gen new);
      if forallb (λ v, elem_eqb v (num_of_Z a)) flags then
        lift (del_col gen new)
      else
        print (PText "Merge assertion is false!");;
        d ← lift (distribution gen new);
        print (PDist d);;
        lift (Raise AssertionError)
  | None =>
      d ← lift (distribution gen new);
      print (PDist d);;
      mret new
  end.

Definition stata_merge (left right : DataFrame) (assertval : option Z)
    (gen : string) (kw : merge_kwargs) : Py DataFrame :=
  new ← lift (merge_flag left right gen kw);
  check_flag new assertval gen.

(** ** group_id *)

(** [df.drop_duplicates()]: the first row of every distinct combination, in
    the order of the table.  pandas returns a table with no row or no column
    as it is. *)
Fixpoint drop_seen (seen : list row) (rs : list (value * row)) : list (value * row) :=
  match rs with
  | [] => []
  | r :: rs' =>
      if decide (r.2 ∈ seen) then drop_seen seen rs'
      else r :: drop_seen (r.2 :: seen) rs'
  end.

Definition drop_duplicates (df : DataFrame) : DataFrame :=
  if decide (columns df = [] ∨ rows df = []) then df
  else mkFrame (columns df) (drop_seen [] (rows df)).

(** [df.index.name = name; df.reset_index()]: the index becomes the first
    column, called [name]; pandas refuses a name that is a column already. *)
Definition reset_index_named (name : string) (df : DataFrame) : result DataFrame :=
  if decide (name ∈ columns df) then Raise ValueError
  else
    Ok (mkFrame (name :: columns df)
          (zip (range_index (length (rows df))) ((λ r, r.1 :: r.2) <$> rows df))).

(** Lines 79-81: one row per distinct combination, numbered from 0. *)
Definition unique_table (df : DataFrame) (cols : list string) (name : string)
  : result DataFrame :=
  sel ← select_cols cols df;
  let unique_df := reset_index_drop (drop_duplicates sel) in
  reset_index_named name unique_df.

Definition group_id (df : DataFrame) (cols : option (list string))
    (name : string) (merge : bool) : Py DataFrame :=
  let cols :=
    match cols with
    | None | Some [] => columns df
    | Some cs => cs
    end in
  if decide (name ∈ columns df) then lift (Raise ValueError)
  else
    unique_df ← lift (unique_table df cols name);
    if merge then
      unique_df ← stata_merge df unique_df (Some 3%Z) "_m"
                    (mkKwargs (Some cols) how_left);
      let '(new_i, new_j) := shape unique_df in
      let '(old_i, old_j) := shape df in
      lift (py_assert (bool_decide (new_i = old_i ∧ new_j = old_j + 1)));;
      lift (set_index (index df) unique_df)
    else mret unique_df.

(** ** winsorize *)

(** Modelled from the spec: [econtools.util.gentools.force_iterable] is not
    among the sources; the spec has "one or more column names to trim on",
    so a single name stands for the list that holds it. *)
Inductive by_arg : Type :=
  | ByOne (c : string)
  | ByMany (cs : list string).

Definition force_iterable (by_ : by_arg) : list string :=
  match by_ with
  | ByOne c => [c]
  | ByMany cs => cs
  end.

(** The quantile argument: one pair for all columns, or one pair per column. *)
Inductive p_arg : Type :=
  | PShared (p : Qc * Qc)
  | PPerCol (ps : list (Qc * Qc)).

(** The numbers of a column, missing values left out; a string makes
    pandas' [quantile] raise. *)
Fixpoint numbers_of (vs : list value) : result (list Qc) :=
  match vs with
  | [] => Ok []
  | VNum q :: vs' => qs ← numbers_of vs'; Ok (q :: qs)
  | VNaN :: vs' => numbers_of vs'
  | VStr _ :: _ => Raise TypeError
  end.

Definition Qc_leb (x y : Qc) : bool := Qle_bool x y.

(** The empirical quantile of sorted numbers [xs] at probability [q], by
    linear interpolation between the two nearest ranks. *)
Definition quantile_sorted (xs : list Qc) (q : Qc) : value :=
  match xs with
  | [] => VNaN
  | x0 :: _ =>
      let n := length xs in
      let pos := (q * Qc_of_Z (Z.of_nat (n - 1)))%Qc in
      let lo := Z.to_nat (Qfloor pos) in
      let hi := Nat.min (lo + 1) (n - 1) in
      let frac := (pos - Qc_of_Z (Z.of_nat lo))%Qc in
      let a := default x0 (xs !! lo) in
      let b := default x0 (xs !! hi) in
      VNum (a + (b - a) * frac)%Qc
  end.

(** [series.quantile((lo, hi))]: pandas checks every probability before it
    looks at the data. *)
Definition quantile (vs : list value) (p : Qc * Qc) : result (value * value) :=
  if decide ((0 ≤ p.1 ∧ p.1 ≤ 1) ∧ (0 ≤ p.2 ∧ p.2 ≤ 1))%Qc then
    xs ← numbers_of vs;
    let sorted := sort_by Qc_leb xs in
    Ok (quantile_sorted sorted p.1, quantile_sorted sorted p.2)
  else Raise ValueError.

(** Line 111: the two cut-offs of a column. *)
Definition cutoffs (df : DataFrame) (col : string) (p : Qc * Qc)
  : result (value * value) :=
  vs ← get_col col df;
  quantile vs p.

(** [cuts[0] <= v <= cuts[1]], false on a missing value. *)
Definition within (cuts : value * value) (v : value) : bool :=
  elem_leb cuts.1 v && elem_leb v cuts.2.

(** Lines 111-112 for one column: the cut-offs, then the rows within them. *)
Definition survive_this (df : DataFrame) (col : string) (p : Qc * Qc)
  : result (list bool) :=
  cuts ← cutoffs df col p;
  vs ← get_col col df;
  Ok (fmap (M:=list) (within cuts) vs).

(** The mask of line 108 is a numpy array.  [np.array([True] * n)] is an
    array of booleans when [n > 0]; from the empty list numpy has no item to
    take the type from and makes an empty array of floats. *)
Inductive ndarray : Type :=
  | BoolArray (bs : list bool)
  | EmptyFloatArray.

Definition np_array_True (n : nat) : ndarray :=
  match n with
  | 0 => EmptyFloatArray
  | S _ => BoolArray (replicate n true)
  end.

(** [np.minimum(a, b)] for a boolean column [b] of the length of [a]: on
    booleans the minimum is "and"; floats and booleans give floats. *)
Definition np_minimum (a : ndarray) (b : list bool) : ndarray :=
  match a with
  | BoolArray bs => BoolArray (zip_with andb bs b)
  | EmptyFloatArray => EmptyFloatArray
  end.

(** [df[mask]]: a boolean mask selects rows; an array that is not boolean
    is a list of column labels, here of none, and the rows keep their
    labels. *)
Definition getitem_array (mask : ndarray) (df : DataFrame) : DataFrame :=
  match mask with
  | BoolArray bs => select_rows bs df
  | EmptyFloatArray => mkFrame [] ((λ r, (r.1, [])) <$> rows df)
  end.

(** The loop of lines 110-113 over the columns and their pairs. *)
Fixpoint survive_loop (df : DataFrame) (by_ : list string) (p : list (Qc * Qc))
    (survive_winsor : ndarray) : result ndarray :=
  match by_ with
  | [] => Ok survive_winsor
  | col :: by' =>
      match p with
      | [] => Raise IndexError
      | pc :: p' =>
          this ← survive_this df col pc;
          survive_loop df by' p' (np_minimum survive_winsor this)
      end
  end.

(** Lines 103-106: one pair per column. *)
Definition quantile_pairs (p : p_arg) (by_ : list string) : result (list (Qc * Qc)) :=
  match p with
  | PShared pq => Ok (replicate (length by_) pq)
  | PPerCol [] => Raise IndexError
  | PPerCol ps => py_assert (bool_decide (length ps = length by_));; Ok ps
  end.

Definition winsorize (df : DataFrame) (by_ : by_arg) (p : p_arg) : result DataFrame :=
  let by_ := force_iterable by_ in
  p ← quantile_pairs p by_;
  let survive_winsor := np_array_True (length (rows df)) in
  survive_winsor ← survive_loop df by_ p survive_winsor;
  Ok (getitem_array survive_winsor df).

(** ** df_to_list *)

Record Series : Type := mkSeries {
  s_name : value;
  s_index : list string;
  s_values : list value
}.

(** What a caller can pass. *)
#[local] Unset Elimination Schemes.
Inductive pyobj : Type :=
  | PyList (items : list pyobj)
  | PyTuple (items : list pyobj)
  | PyFrame (df : DataFrame)
  | PySeries (s : Series)
  | PyScalar (v : value)
  | PyNone.
#[local] Set Elimination Schemes.

(** [[b for a, b in df.iterrows()]] *)
Definition iterrows (df : DataFrame) : list Series :=
  (λ r, mkSeries r.1 (columns df) r.2) <$> rows df.

Definition df_to_list (df : pyobj) : result pyobj :=
  match df with
  | PyList _ => Ok df
  | PyFrame t => Ok (PyList (PySeries <$> iterrows t))
  | _ => Raise ValueError
  end.

(** ** Tables as mutable objects

    In Python a table is an object that [df[c] = v] and [del df[c]] change
    in place, and the caller keeps a reference to the tables it passes.  The
    heap is the list of all table objects; a reference is a position in it.
    The functions that work on copies of their arguments ([stata_merge],
    [winsorize] and [group_id]) are written once more over references,
    statement by statement. *)

Module Heap.

Abbreviation ref := nat.
Abbreviation heap := (list DataFrame).

Definition St (A : Type) : Type := heap → heap * Py A.

Global Instance St_ret : MRet St := λ A a h, (h, mret a).
Global Instance St_bind : MBind St := λ A B k m h,
  match m h with
  | (h1, (out, Ok a)) =>
      let r := k a h1 in (r.1, (out ++ r.2.1, r.2.2))
  | (h1, (out, Raise e)) => (h1, (out, Raise e))
  end.

Definition lift_py {A} (m : Py A) : St A := λ h, (h, m).
Definition lift_result {A} (r : result A) : St A := lift_py (lift r).

(** A new object. *)
Definition alloc (df : DataFrame) : St ref := λ h, (h ++ [df], mret (length h)).
(** The table a reference points to. *)
Definition load (l : ref) : St DataFrame :=
  λ h, (h, mret (default (mkFrame [] []) (h !! l))).
(** Overwrite the object in place. *)
Definition store (l : ref) (df : DataFrame) : St unit :=
  λ h, (<[l := df]> h, mret tt).

(** [df.copy()] *)
Definition copy (l : ref) : St ref := df ← load l; alloc df.
(** [df[c] = v] for a scalar *)
Definition setitem_const (l : ref) (c : string) (v : value) : St unit :=
  df ← load l; store l (set_col_const c v df).
(** [df[c] = vs] *)
Definition setitem (l : ref) (c : string) (vs : list value) : St unit :=
  df ← load l; store l (set_col c vs df).
(** [df[c]] *)
Definition getitem (l : ref) (c : string) : St (list value) :=
  df ← load l; lift_result (get_col c df).
(** [del df[c]] *)
Definition delitem (l : ref) (c : string) : St unit :=
  df ← load l; df' ← lift_result (del_col c df); store l df'.
(** [pd.merge(a, b, **kw)] returns a new object. *)
Definition merge (a b : ref) (kw : merge_kwargs) : St ref :=
  da ← load a; db ← load b; out ← lift_result (pd_merge da db kw); alloc out.

Definition stata_merge (left right : ref) (assertval : option Z)
    (gen : string) (kw : merge_kwargs) : St ref :=
  dl ← load left;
  dr ← load right;
  left_tmp ← lift_result (from_fuel (left_marker (columns dl)));
  right_tmp ← lift_result (from_fuel (right_marker (columns dr)));
  copy_left ← copy left;
  copy_right ← copy right;
  setitem_const copy_left left_tmp (num_of_Z 1);;
  setitem_const copy_right right_tmp (num_of_Z 2);;
  new ← merge copy_left copy_right kw;
  a ← getitem new left_tmp;
  b ← getitem new right_tmp;
  flags ← lift_result (series_add a b);
  setitem new gen flags;;
  delitem new left_tmp;;
  delitem new right_tmp;;
  match truthy assertval with
  | Some v =>
      flags ← getitem new gen;
      if forallb (λ f, elem_eqb f (num_of_Z v)) flags then
        delitem new gen;; mret new
      else
        lift_py (print (PText "Merge assertion is false!"));;
        dn ← load new;
        d ← lift_result (distribution gen dn);
        lift_py (print (PDist d));;
        lift_result (Raise AssertionError)
  | None =>
      dn ← load new;
      d ← lift_result (distribution gen dn);
      lift_py (print (PDist d));;
      mret new
  end.

Definition winsorize (df : ref) (by_ : by_arg) (p : p_arg) : St ref :=
  df ← copy df;
  let by_ := force_iterable by_ in
  p ← lift_result (quantile_pairs p by_);
  d ← load df;
  let survive_winsor := np_array_True (length (rows d)) in
  survive_winsor ← lift_result (survive_loop d by_ p survive_winsor);
  alloc (getitem_array survive_winsor d).

(** [group_id] over references.  [df[cols]], [drop_duplicates] and the two
    [reset_index] calls each return a new object; [unique_df.index = df.index]
    writes to the table the join returned. *)
Definition group_id (df : ref) (cols : option (list string)) (name : string)
    (merge_back : bool) : St ref :=
  d ← load df;
  let cols :=
    match cols with
    | None | Some [] => columns d
    | Some cs => cs
    end in
  if decide (name ∈ columns d) then lift_result (Raise ValueError)
  else
    sel ← lift_result (select_cols cols d);
    selected ← alloc sel;
    s ← load selected;
    deduped ← alloc (drop_duplicates s);
    s ← load deduped;
    unique_df ← alloc (reset_index_drop s);
    s ← load unique_df;
    named ← lift_result (reset_index_named name s);
    unique_df ← alloc named;
    if merge_back then
      unique_df ← stata_merge df unique_df (Some 3%Z) "_m"
                    (mkKwargs (Some cols) how_left);
      u ← load unique_df;
      d ← load df;
      let '(new_i, new_j) := shape u in
      let '(old_i, old_j) := shape d in
      lift_result (py_assert (bool_decide (new_i = old_i ∧ new_j = old_j + 1)));;
      u ← lift_result (set_index (index d) u);
      store unique_df u;;
      mret unique_df
    else mret unique_df.

(** [m] changes no object among the first [n] of the heap, and its value
    satisfies [Q]. *)
Definition keeps {A} (n : nat) (m : St A) (Q : A → Prop) : Prop :=
  ∀ h, n ≤ length h →
    take n (m h).1 = take n h ∧ n ≤ length (m h).1 ∧
    ∀ a, (m h).2.2 = Ok a → Q a.

End Heap.

(** ** Definitions used to state the properties *)

(** The name the marker loop holds after [k] rounds. *)
Definition nth_candidate (name sfx : string) (k : nat) : string :=
  Nat.iter k (λ s, s +:+ sfx) name.

(** A row is kept when, for every trimmed column, its cell lies within the
    cut-offs of that column. *)
Definition kept (cols by_ : list string) (cuts : list (value * value))
    (r : value * row) : bool :=
  forallb (λ cc : string * (value * value), within cc.2 (cell cols r.2 cc.1))
          (zip by_ cuts).

(** The cells of a column are numbers, none missing. *)
Definition all_numbers (vs : list value) : Prop :=
  Forall (λ v, ∃ q, v = VNum q) vs.

(** A number that float64 holds exactly and that is far from overflow:
    [m * 2^e] with a mantissa [m] of at most 53 bits and an exponent [e]
    from -1074 to 970, so that the difference of two such numbers is still
    finite in float64. *)
Definition float64_exact (x : Qc) : Prop :=
  ∃ m e : Z,
    (Z.abs m < 2 ^ 53)%Z ∧ (-1074 ≤ e ≤ 970)%Z ∧ x = Q2Qc (inject_Z m * 2 ^ e).

(** The cells of a column are such numbers, none missing. *)
Definition all_float64 (vs : list value) : Prop :=
  Forall (λ v, ∃ x, v = VNum x ∧ float64_exact x) vs.

(** The distinct items of a list in the order in which they first appear. *)
Fixpoint first_seen `{EqDecision A} (l : list A) : list A :=
  match l with
  | [] => []
  | x :: l' => x :: filter (λ y, y ≠ x) (first_seen l')
  end.

(** The key columns the call uses: all columns when none are given. *)
Definition key_columns (df : DataFrame) (cols : option (list string)) : list string :=
  match cols with
  | None | Some [] => columns df
  | Some cs => cs
  end.

(** The combination of values every row has under the columns [K]. *)
Definition combinations (df : DataFrame) (K : list string) : list row :=
  (λ r : value * row, cell (columns df) r.2 <$> K) <$> rows df.

(** The rows of the table of combinations [ks]: the label and the id of row
    [i] are both [i]. *)
Definition numbered (ks : list row) : list (value * row) :=
  (λ r : value * row, (r.1, r.1 :: r.2)) <$> zip (range_index (length ks)) ks.

(** The last character of a string. *)
Fixpoint last_char (s : string) : option Ascii.ascii :=
  match s with
  | EmptyString => None
  | String a EmptyString => Some a
  | String _ s' => last_char s'
  end.

(** The status of a row of the join: 1 for a row of the left table alone,
    2 for a row of the right table alone, 3 for a matched row. *)
Definition status (j : joined) : Z :=
  match j with
  | LeftOnly _ => 1
  | RightOnly _ => 2
  | Both _ _ => 3
  end.

(** The input rows a row of the join is made of. *)
Definition left_part (j : joined) : option row :=
  match j with
  | Both l _ | LeftOnly l => Some l
  | RightOnly _ => None
  end.
Definition right_part (j : joined) : option row :=
  match j with
  | Both _ r | RightOnly r => Some r
  | LeftOnly _ => None
  end.

(** Every row has one cell per column. *)
Definition rows_wf (df : DataFrame) : Prop :=
  Forall (λ r : value * row, length r.2 = length (columns df)) (rows df).

(** The cell of a row of the join under a column of the left table, and
    under a column of the right table that is not a key. *)
Definition left_cell (lcols rcols K : list string) (j : joined) (c : string) : value :=
  match j with
  | Both l _ | LeftOnly l => cell lcols l c
  | RightOnly r => if decide (c ∈ K) then cell rcols r c else VNaN
  end.
Definition right_cell (rcols : list string) (j : joined) (c : string) : value :=
  match j with
  | Both _ r | RightOnly r => cell rcols r c
  | LeftOnly _ => VNaN
  end.

(** The marker cells of a row of the join: 1 when a row of the left table
    is part of it, 2 when a row of the right table is, missing otherwise. *)
Definition left_mark (j : joined) : value :=
  match left_part j with Some _ => num_of_Z 1 | None => VNaN end.
Definition right_mark (j : joined) : value :=
  match right_part j with Some _ => num_of_Z 2 | None => VNaN end.

(** Position of the first occurrence of [x] in [l]. *)
Fixpoint first_index `{EqDecision A} (x : A) (l : list A) : option nat :=
  match l with
  | [] => None
  | y :: l' => if decide (x = y) then Some 0 else S <$> first_index x l'
  end.

(** The id [group_id] gives to a row: the rank of its combination among the
    distinct combinations, in the order of first appearance. *)
Definition id_of (df : DataFrame) (K : list string) (r : row) : value :=
  match first_index (cell (columns df) r <$> K) (first_seen (combinations df K)) with
  | Some i => num_of_nat i
  | None => VNaN
  end.

(** The statuses the rows of a join can have, by join mode. *)
Definition possible_status (how : how_t) : list Z :=
  match how with
  | how_inner => [3]
  | how_left => [1; 3]
  | how_right => [2; 3]
  | how_outer => [1; 2; 3]
  end%Z.

(** The sum of a list of fractions. *)
Definition Qc_sum (qs : list Qc) : Qc := foldr Qcplus (Q2Qc 0) qs.

(** [d] is the distribution of the status column [flags]: one entry per
    value that occurs in it (a missing value is no group), no value twice,
    each with the number of rows that have it divided by the number of
    rows; every fraction is positive, and when no status is missing the
    fractions add up to 1. *)
Definition reports (flags : list value) (d : list (value * Qc)) : Prop :=
  NoDup d.*1
  ∧ (∀ v, v ∈ d.*1 ↔ v ∈ flags ∧ v ≠ VNaN)
  ∧ (∀ v q, (v, q) ∈ d →
       q = fraction (count_of v flags) (length flags) ∧ (Q2Qc 0 < q)%Qc)
  ∧ (flags ≠ [] → VNaN ∉ flags → Qc_sum d.*2 = Q2Qc 1).

(** A column can be trimmed at a pair of probabilities: it is a column of
    the table, none of its cells is a string, and both probabilities lie
    in [0, 1]. *)
Definition trimmable (df : DataFrame) (cp : string * (Qc * Qc)) : Prop :=
  ∃ vs, get_col cp.1 df = Ok vs
    ∧ Forall (λ v, ∀ s, v ≠ VStr s) vs
    ∧ (0 ≤ cp.2.1 ∧ cp.2.1 ≤ 1)%Qc ∧ (0 ≤ cp.2.2 ∧ cp.2.2 ≤ 1)%Qc.

(** The pairs of probabilities a quantile argument holds. *)
Definition pairs_of (p : p_arg) : list (Qc * Qc) :=
  match p with
  | PShared pq => [pq]
  | PPerCol ps => ps
  end.

(** A row of the join of the two tables, seen as a row of the join of the
    tables with their marker columns. *)
Definition marked (j : joined) : joined :=
  match j with
  | Both l r => Both (l ++ [num_of_Z 1]) (r ++ [num_of_Z 2])
  | LeftOnly l => LeftOnly (l ++ [num_of_Z 1])
  | RightOnly r => RightOnly (r ++ [num_of_Z 2])
  end.

(** The tables of the examples. *)
Module Examples.
Definition n (z : Z) : value := num_of_Z z.

Definition L : DataFrame :=
  mkFrame ["id"; "x"] [(n 0, [n 1; n 10]); (n 1, [n 2; n 20])].
Definition R : DataFrame :=
  mkFrame ["id"; "y"] [(n 0, [n 2; n 200]); (n 1, [n 3; n 300])].
(** A right table that happens to have a column called [tmpa]. *)
Definition R_tmpa : DataFrame :=
  mkFrame ["id"; "tmpa"] [(n 0, [n 2; n 200]); (n 1, [n 3; n 300])].
Definition on_id (how : how_t) : merge_kwargs := mkKwargs (Some ["id"]) how.

(** A table with a repeated key and two missing keys. *)
Definition T : DataFrame :=
  mkFrame ["k"; "x"]
    [(n 10, [VStr "b"; n 10]); (n 11, [VStr "a"; n 20]); (n 12, [VStr "b"; n 30]);
     (n 13, [VNaN; n 30]); (n 14, [VNaN; n 31])].

(** A table with an outlier in [x] and a missing value in [y]. *)
Definition W : DataFrame :=
  mkFrame ["x"; "y"]
    [(n 0, [n 1; n 10]); (n 1, [n 2; VNaN]); (n 2, [n 3; n 30]);
     (n 3, [n 100; n 20]); (n 4, [n 5; n 20])].
Definition full_range : p_arg := PShared (Q2Qc 0, Q2Qc 1).

(** A table that already has a column called [_m], as [stata_merge] leaves
    one behind when no status is expected. *)
Definition T_m : DataFrame :=
  mkFrame ["k"; "_m"]
    [(n 0, [VStr "b"; n 3]); (n 1, [VStr "a"; n 3])].

(** A table with a column called [tmpb]. *)
Definition T_tmpb : DataFrame :=
  mkFrame ["k"; "tmpb"]
    [(n 0, [VStr "b"; n 10]); (n 1, [VStr "a"; n 20])].
End Examples.

(** * Properties *)

(** ** Columns and cells *)

Lemma col_pos_Some c cols i :
  col_pos c cols = Some i → cols !! i = Some c.
Proof.
  revert i; induction cols as [|c' cols IH]; intros i; simpl; [done|].
  case_decide as Hc; [intros [= <-]; by subst|].
  destruct (col_pos c cols) as [j|]; simpl; [|done].
  intros [= <-]. by apply IH.
Qed.

Lemma col_pos_None c cols : col_pos c cols = None ↔ c ∉ cols.
Proof.
  induction cols as [|c' cols IH]; simpl.
  - split; [intros _; apply not_elem_of_nil | done].
  - rewrite not_elem_of_cons. case_decide as Hc.
    + split; [done | intros [? _]; done].
    + destruct (col_pos c cols) as [j|]; simpl.
      * split; [done|]. intros [_ Hn]. by apply IH in Hn.
      * split; [|done]. intros _. split; [done|]. by apply IH.
Qed.

Lemma col_pos_is_Some c cols : c ∈ cols → is_Some (col_pos c cols).
Proof.
  intros Hin. destruct (col_pos c cols) eqn:E; [by eexists|].
  by apply col_pos_None in E.
Qed.

Lemma col_pos_elem_of c cols i : col_pos c cols = Some i → c ∈ cols.
Proof. intros H%col_pos_Some. by eapply list_elem_of_lookup_2. Qed.

Lemma col_pos_lt c cols i : col_pos c cols = Some i → i < length cols.
Proof. intros H%col_pos_Some. by eapply lookup_lt_Some. Qed.

Lemma col_pos_app_l c A B :
  c ∈ A → col_pos c (A ++ B) = col_pos c A.
Proof.
  induction A as [|a A IH]; simpl; [by intros ?%elem_of_nil|].
  intros [->|Hin]%elem_of_cons; case_decide; try done.
  by rewrite IH.
Qed.

Lemma col_pos_app_r c A B :
  c ∉ A → col_pos c (A ++ B) = (λ i, length A + i) <$> col_pos c B.
Proof.
  induction A as [|a A IH]; simpl.
  - intros _. by destruct (col_pos c B).
  - intros [Hne Hn]%not_elem_of_cons. case_decide; [done|].
    rewrite IH by done. by destruct (col_pos c B).
Qed.

Lemma col_pos_last c A : c ∉ A → col_pos c (A ++ [c]) = Some (length A).
Proof.
  intros Hn. rewrite col_pos_app_r by done. simpl.
  case_decide; [|done]. simpl. f_equal. lia.
Qed.

Lemma col_pos_NoDup c cols i :
  NoDup cols → cols !! i = Some c → col_pos c cols = Some i.
Proof.
  intros Hnd Hi.
  destruct (col_pos_is_Some c cols) as [j Hj];
    [by eapply list_elem_of_lookup_2|].
  rewrite Hj. f_equal.
  eapply NoDup_lookup; eauto using col_pos_Some.
Qed.

(** ** The marker loop terminates with a name that is free *)

Lemma string_length_app (s t : string) :
  String.length (s +:+ t) = String.length s + String.length t.
Proof. induction s as [|a s IH]; simpl; [done | by rewrite IH]. Qed.

Lemma nth_candidate_S name sfx k :
  nth_candidate (name +:+ sfx) sfx k = nth_candidate name sfx (S k).
Proof.
  unfold nth_candidate. induction k as [|k IH]; simpl; [done|].
  by rewrite IH.
Qed.

Lemma nth_candidate_length name sfx k :
  String.length (nth_candidate name sfx k)
  = String.length name + k * String.length sfx.
Proof.
  unfold nth_candidate. induction k as [|k IH]; simpl; [lia|].
  rewrite string_length_app, IH. lia.
Qed.

Lemma nth_candidate_inj name sfx :
  sfx ≠ "" → Inj (=) (=) (nth_candidate name sfx).
Proof.
  intros Hs j k Heq.
  apply (f_equal String.length) in Heq.
  rewrite !nth_candidate_length in Heq.
  destruct sfx as [|a sfx]; [done|]. simpl in Heq. nia.
Qed.

Lemma while_taken_spec fuel name sfx cols :
  match while_taken fuel name sfx cols with
  | Some r =>
      (r ∉ cols) ∧ ∃ k, k < fuel ∧ r = nth_candidate name sfx k ∧
        ∀ j, j < k → nth_candidate name sfx j ∈ cols
  | None => ∀ j, j < fuel → nth_candidate name sfx j ∈ cols
  end.
Proof.
  revert name; induction fuel as [|fuel IH]; intros name; simpl.
  - intros j Hj. lia.
  - case_decide as Hin.
    + specialize (IH (name +:+ sfx)).
      destruct (while_taken fuel (name +:+ sfx) sfx cols) as [r|].
      * destruct IH as (Hr & k & Hk & -> & Hall). split; [done|].
        exists (S k). split; [lia|]. split; [by rewrite nth_candidate_S|].
        intros [|j] Hj; [done|]. rewrite <-nth_candidate_S. apply Hall. lia.
      * intros [|j] Hj; [done|]. rewrite <-nth_candidate_S. apply IH. lia.
    + split; [done|]. exists 0. split; [lia|]. split; [done|]. intros j Hj. lia.
Qed.

Lemma fresh_marker_total base sfx cols :
  sfx ≠ "" → ∃ name, fresh_marker base sfx cols = Some name ∧ name ∉ cols.
Proof.
  intros Hs. unfold fresh_marker.
  pose proof (while_taken_spec (S (length cols)) base sfx cols) as H.
  destruct (while_taken _ _ _ _) as [r|]; [exists r; by destruct H|].
  exfalso.
  assert (length (nth_candidate base sfx <$> seq 0 (S (length cols)))
          ≤ length cols) as Hlen.
  { apply submseteq_length, NoDup_submseteq.
    - apply NoDup_fmap_2; [by apply nth_candidate_inj | apply NoDup_seq].
    - intros x (j & -> & Hj%elem_of_seq)%list_elem_of_fmap. apply H. lia. }
  rewrite length_fmap, length_seq in Hlen. lia.
Qed.

(** C4: the marker of the left table is only checked against the columns of
    the left table.  With a right table that has a column [tmpa] the left
    marker is [tmpa] all the same; the join then renames both columns
    ([tmpa_x], [tmpa_y]) and reading the marker back fails with a
    [KeyError]. *)
Theorem stata_merge_marker_collision :
  left_marker (columns Examples.L) = Some "tmpa"
  ∧ "tmpa" ∈ columns Examples.R_tmpa
  ∧ stata_merge Examples.L Examples.R_tmpa None "_m" (Examples.on_id how_inner)
    = ([], Raise KeyError).
Proof. split; [done|]. split; [compute_done | by vm_compute]. Qed.

(** ** df_to_list *)

(** C8 as stated fails: the exception for an unsupported input is a
    [ValueError], the source has no [TypeError]. *)
Lemma df_to_list_scalar_raises_ValueError :
  df_to_list (PyScalar (num_of_Z 1)) = Raise ValueError
  ∧ df_to_list (PyScalar (num_of_Z 1)) ≠ Raise TypeError.
Proof. split; [reflexivity | discriminate]. Qed.

(** C8, amended: a list comes back as it is, a table becomes the list of its
    rows in order (each row a series over the columns, named by its label),
    and every other input raises [ValueError]. *)
Theorem df_to_list_spec (x : pyobj) :
  match x with
  | PyList items => df_to_list x = Ok (PyList items)
  | PyFrame t =>
      ∃ ss, df_to_list x = Ok (PyList (PySeries <$> ss))
        ∧ length ss = length (rows t)
        ∧ ∀ i r, rows t !! i = Some r →
            ss !! i = Some (mkSeries r.1 (columns t) r.2)
  | _ => df_to_list x = Raise ValueError
  end.
Proof.
  destruct x as [items|items|t|s|v|]; try reflexivity.
  exists (iterrows t). split; [done|]. unfold iterrows.
  split; [by rewrite length_fmap|].
  intros i r Hi. by rewrite list_lookup_fmap, Hi.
Qed.

(** ** Calls that print *)

Lemma py_bind_lift_Ok {A B} (a : A) (k : A → Py B) : (lift (Ok a) ≫= k) = k a.
Proof. unfold lift, mbind, Py_bind. simpl. by destruct (k a). Qed.

(** ** Columns after [set_col] and [del_col] *)

Lemma set_col_columns_NoDup c vs df :
  NoDup (columns df) → NoDup (columns (set_col c vs df)).
Proof.
  intros Hnd. unfold set_col.
  destruct (col_pos c (columns df)) as [i|] eqn:E; simpl; [done|].
  apply NoDup_app. split; [done|]. split; [|apply NoDup_singleton].
  intros x Hx ->%list_elem_of_singleton. by apply col_pos_None in E.
Qed.

Lemma del_col_columns_NoDup c df df' :
  del_col c df = Ok df' → NoDup (columns df) →
  NoDup (columns df') ∧ c ∉ columns df'.
Proof.
  unfold del_col. destruct (col_pos c (columns df)) as [i|] eqn:E; [|done].
  intros [= <-] Hnd. simpl.
  pose proof (col_pos_Some _ _ _ E) as Hi.
  rewrite <-(take_drop_middle _ _ _ Hi) in Hnd.
  rewrite delete_take_drop.
  apply NoDup_app in Hnd as (Hnd1 & Hdisj & [Hnc Hnd2]%NoDup_cons).
  split.
  - apply NoDup_app. split; [done|]. split; [|done].
    intros x Hx1 Hx2. apply (Hdisj x Hx1). by right.
  - rewrite elem_of_app. intros [Hc|Hc]; [|done].
    apply (Hdisj c Hc). by left.
Qed.

Lemma pd_merge_columns_NoDup left right kw new :
  pd_merge left right kw = Ok new → NoDup (columns new).
Proof.
  unfold pd_merge. destruct (merge_keys _ _ _) as [K|]; simpl; [|done].
  case_decide; [|done]. by intros [= <-].
Qed.

Lemma rbind_Ok {A B} (m : result A) (k : A → result B) b :
  (m ≫= k) = Ok b → ∃ a, m = Ok a ∧ k a = Ok b.
Proof. destruct m as [a|e]; [|done]. intros H. by exists a. Qed.

Lemma merge_flag_columns_NoDup left right gen kw new :
  merge_flag left right gen kw = Ok new → NoDup (columns new).
Proof.
  unfold merge_flag.
  intros (lt & _ & (rt & _ & (m & Hm & (a & _ & (b & _ & (fl & _
    & (d1 & Hd1 & Hd2)%rbind_Ok)%rbind_Ok)%rbind_Ok)%rbind_Ok)%rbind_Ok)%rbind_Ok)%rbind_Ok.
  apply pd_merge_columns_NoDup in Hm.
  eapply del_col_columns_NoDup in Hd1 as [Hd1 _];
    [|by apply set_col_columns_NoDup].
  by eapply del_col_columns_NoDup in Hd2 as [Hd2 _].
Qed.

(** ** The check of the expected status (lines 49-62) *)

Lemma elem_eqb_num v (z : Z) : elem_eqb v (num_of_Z z) = true ↔ v = num_of_Z z.
Proof.
  unfold elem_eqb, num_of_Z. destruct v; simpl;
    rewrite ?bool_decide_eq_true; naive_solver.
Qed.

Lemma get_col_length c df vs : get_col c df = Ok vs → length vs = length (rows df).
Proof.
  unfold get_col. destruct (col_pos _ _); [|done].
  intros [= <-]. by rewrite length_fmap.
Qed.

(** ** Sorting *)

Section sort_lemmas.
Context {A : Type} (leb : A → A → bool).

Lemma insert_sorted_Permutation x l : insert_sorted leb x l ≡ₚ x :: l.
Proof.
  induction l as [|y l IH]; simpl; [done|].
  destruct (leb x y); [done|]. rewrite IH. apply Permutation_swap.
Qed.

Lemma sort_by_Permutation l : sort_by leb l ≡ₚ l.
Proof.
  induction l as [|x l IH]; simpl; [done|].
  by rewrite insert_sorted_Permutation, IH.
Qed.

Lemma sort_by_Forall (P : A → Prop) l : Forall P l → Forall P (sort_by leb l).
Proof. intros H. by rewrite sort_by_Permutation. Qed.

Context (R : relation A) (Hleb : ∀ x y, leb x y = true ↔ R x y).
Context `{!Transitive R} (Htotal : ∀ x y, R x y ∨ R y x).

Lemma insert_sorted_StronglySorted x l :
  StronglySorted R l → StronglySorted R (insert_sorted leb x l).
Proof.
  induction 1 as [|y l Hl IH Hy]; simpl.
  - repeat constructor.
  - destruct (leb x y) eqn:E.
    + apply Hleb in E. constructor; [by constructor|].
      constructor; [done|]. eapply Forall_impl; [exact Hy|].
      intros z Hz. by transitivity y.
    + constructor; [done|].
      rewrite insert_sorted_Permutation. constructor; [|done].
      destruct (Htotal x y) as [Hxy|Hyx]; [|done].
      apply Hleb in Hxy. congruence.
Qed.

Lemma sort_by_StronglySorted l : StronglySorted R (sort_by leb l).
Proof.
  induction l as [|x l IH]; simpl; [constructor|].
  by apply insert_sorted_StronglySorted.
Qed.
End sort_lemmas.

Lemma StronglySorted_last_ge {A} (R : relation A) `{!Reflexive R} l n z :
  StronglySorted R l → length l = S n → l !! n = Some z →
  Forall (λ y, R y z) l.
Proof.
  intros Hl. revert n.
  induction Hl as [|x l Hl IH Hx]; intros n; simpl; [done|].
  intros [= Hlen]. destruct n as [|n]; simpl.
  - intros [= ->]. destruct l; [|done]. by repeat constructor.
  - intros Hz. constructor; [|by eapply IH].
    rewrite Forall_forall in Hx. apply Hx.
    by eapply list_elem_of_lookup_2.
Qed.

Lemma Qc_leb_le x y : Qc_leb x y = true ↔ (x ≤ y)%Qc.
Proof. unfold Qc_leb. apply Qle_bool_iff. Qed.

Lemma Qcle_total x y : (x ≤ y)%Qc ∨ (y ≤ x)%Qc.
Proof. destruct (Qclt_le_dec x y); [left; by apply Qclt_le_weak | by right]. Qed.

Global Instance Qcle_trans' : Transitive Qcle := Qcle_trans.
Global Instance Qcle_refl' : Reflexive Qcle := Qcle_refl.

(** ** Quantiles at the two ends *)

Lemma numbers_of_all_numbers vs :
  all_numbers vs → ∃ qs, numbers_of vs = Ok qs ∧ vs = VNum <$> qs.
Proof.
  induction 1 as [|v vs [q ->] _ (qs & Hqs & ->)]; [by exists []|].
  exists (q :: qs). simpl. by rewrite Hqs.
Qed.

Lemma Qc_of_Z_0 : Qc_of_Z 0 = Q2Qc 0.
Proof. by apply Qc_is_canon. Qed.

Lemma quantile_sorted_0 x xs : quantile_sorted (x :: xs) (Q2Qc 0) = VNum x.
Proof.
  unfold quantile_sorted. rewrite Qcmult_0_l.
  change (Qfloor (Q2Qc 0)) with 0%Z. change (Z.to_nat 0) with 0.
  change (Z.of_nat 0) with 0%Z. rewrite Qc_of_Z_0.
  generalize (default x ((x :: xs) !! Nat.min (0 + 1) (length (x :: xs) - 1))).
  intros b. simpl. f_equal. ring.
Qed.

Lemma Qfloor_Qc_of_Z z : Qfloor (Qc_of_Z z) = z.
Proof. unfold Qc_of_Z. simpl. apply Qfloor_Z. Qed.

Lemma quantile_sorted_1 x xs z :
  (x :: xs) !! length xs = Some z →
  quantile_sorted (x :: xs) (Q2Qc 1) = VNum z.
Proof.
  intros Hz. unfold quantile_sorted.
  rewrite Qcmult_1_l, Qfloor_Qc_of_Z, Nat2Z.id.
  replace (length (x :: xs) - 1) with (length xs) by (simpl; lia).
  replace (Nat.min _ _) with (length xs) by lia.
  rewrite Hz. simpl default. f_equal. ring.
Qed.

(** ** winsorize *)

Lemma get_col_cells c df vs :
  get_col c df = Ok vs →
  vs = (λ r : value * row, cell (columns df) r.2 c) <$> rows df.
Proof.
  unfold get_col, cell. destruct (col_pos c (columns df)); [|done].
  by intros [= <-].
Qed.

Lemma mapM_length {A B} (f : A → result B) l l' :
  mapM f l = Ok l' → length l' = length l.
Proof.
  revert l'; induction l as [|x l IH]; intros l'; simpl; [by intros [= <-]|].
  destruct (f x); [|done]. simpl.
  destruct (mapM f l) eqn:E; [|done]. simpl.
  intros [= <-]. simpl. f_equal. by apply IH.
Qed.

Lemma zip_with_andb_true (acc : list bool) {A} (l : list A) :
  length acc = length l →
  zip_with andb acc ((λ _, true) <$> l) = acc.
Proof.
  revert l; induction acc as [|b acc IH]; intros [|x l]; simpl; try done.
  intros [= Hlen]. by rewrite andb_true_r, IH.
Qed.

Lemma zip_with_andb_assoc {A} (f g : A → bool) (acc : list bool) (l : list A) :
  zip_with andb (zip_with andb acc (f <$> l)) (g <$> l)
  = zip_with andb acc ((λ x, f x && g x) <$> l).
Proof.
  revert acc; induction l as [|x l IH]; intros [|b acc]; simpl; try done.
  by rewrite IH, andb_assoc.
Qed.

Lemma survive_loop_eq df by_ ps acc :
  length by_ = length ps → length acc = length (rows df) →
  survive_loop df by_ ps (BoolArray acc)
  = (cuts ← mapM (λ cp, cutoffs df cp.1 cp.2) (zip by_ ps);
     Ok (BoolArray (zip_with andb acc (kept (columns df) by_ cuts <$> rows df)))).
Proof.
  revert ps acc; induction by_ as [|col by_ IH]; intros [|pc ps] acc; try done.
  - intros _ Hacc. simpl. unfold kept. simpl.
    by rewrite zip_with_andb_true.
  - intros [= Hlen] Hacc. simpl. unfold survive_this.
    destruct (cutoffs df col pc) as [c|e] eqn:Hc; [|done]. simpl.
    assert (∃ vs, get_col col df = Ok vs) as [vs Hvs].
    { unfold cutoffs in Hc. destruct (get_col col df); [by eexists | done]. }
    rewrite Hvs. simpl. rewrite IH; [|done|].
    + destruct (mapM _ (zip by_ ps)) as [cuts|e]; [|done]. simpl. do 2 f_equal.
      rewrite (get_col_cells _ _ _ Hvs), <-list_fmap_compose.
      by rewrite zip_with_andb_assoc.
    + rewrite length_zip_with, length_fmap, (get_col_length _ _ _ Hvs). lia.
Qed.

(** The empty array of floats stays what it is through the loop. *)
Lemma survive_loop_empty df by_ ps :
  length by_ = length ps →
  survive_loop df by_ ps EmptyFloatArray
  = (mapM (λ cp, cutoffs df cp.1 cp.2) (zip by_ ps);; Ok EmptyFloatArray).
Proof.
  revert ps; induction by_ as [|col by_ IH]; intros [|pc ps]; try done.
  intros [= Hlen]. simpl. unfold survive_this.
  destruct (cutoffs df col pc) as [c|e] eqn:Hc; [|done]. simpl.
  assert (∃ vs, get_col col df = Ok vs) as [vs Hvs].
  { unfold cutoffs in Hc. destruct (get_col col df); [by eexists | done]. }
  rewrite Hvs. simpl. rewrite IH by done.
  by destruct (mapM _ (zip by_ ps)).
Qed.

Lemma mask_filter_fmap {A} (f : A → bool) (l : list A) :
  mask_filter (zip_with andb (replicate (length l) true) (f <$> l)) l
  = filter (λ x, f x = true) l.
Proof.
  induction l as [|x l IH]; csimpl; [done|].
  rewrite filter_cons, IH. destruct (f x); by case_decide.
Qed.

Lemma quantile_pairs_length p by_ ps :
  quantile_pairs p by_ = Ok ps → length by_ = length ps.
Proof.
  destruct p as [pq|[|q qs]]; simpl; [|done|].
  - intros [= <-]. by rewrite length_replicate.
  - case_bool_decide as Hl; simpl; [|done]. by intros [= <-].
Qed.

(** What [winsorize] computes, as one equation: the pairs per column, the
    cut-offs per column, then the rows within all of them; of a table with
    no rows, no column is left. *)
Lemma winsorize_eq df by_ p :
  winsorize df by_ p
  = (ps ← quantile_pairs p (force_iterable by_);
     cuts ← mapM (λ cp, cutoffs df cp.1 cp.2) (zip (force_iterable by_) ps);
     Ok (mkFrame (if decide (rows df = []) then [] else columns df)
           (filter (λ r, kept (columns df) (force_iterable by_) cuts r = true)
                   (rows df)))).
Proof.
  unfold winsorize.
  destruct (quantile_pairs p (force_iterable by_)) as [ps|e] eqn:Hps; [|done].
  simpl. destruct (rows df) as [|r rs] eqn:Hrows.
  - simpl np_array_True. rewrite survive_loop_empty by (by eapply quantile_pairs_length).
    destruct (mapM _ _) as [cuts|e]; [|done]. simpl.
    unfold getitem_array. by rewrite Hrows.
  - change (np_array_True (length (r :: rs)))
      with (BoolArray (replicate (length (r :: rs)) true)).
    rewrite <-Hrows. rewrite survive_loop_eq;
      [|by eapply quantile_pairs_length | by rewrite length_replicate].
    destruct (mapM _ _) as [cuts|e]; [|done]. simpl.
    unfold select_rows. rewrite mask_filter_fmap.
    rewrite decide_False; [done|]. by rewrite Hrows.
Qed.

(** The table a call returns: its columns and its rows. *)
Lemma winsorize_Ok df by_ p out :
  winsorize df by_ p = Ok out →
  ∃ ps cuts,
    quantile_pairs p (force_iterable by_) = Ok ps
    ∧ mapM (λ cp, cutoffs df cp.1 cp.2) (zip (force_iterable by_) ps) = Ok cuts
    ∧ columns out = (if decide (rows df = []) then [] else columns df)
    ∧ rows out
      = filter (λ r, kept (columns df) (force_iterable by_) cuts r = true) (rows df).
Proof.
  rewrite winsorize_eq.
  destruct (quantile_pairs _ _) as [ps|] eqn:Hps; [|done]. simpl.
  destruct (mapM _ _) as [cuts|] eqn:Hcuts; [|done]. simpl.
  intros [= <-]. by exists ps, cuts.
Qed.

Lemma kept_iff cols by_ cuts r :
  kept cols by_ cuts r = true ↔
  ∀ i col c, by_ !! i = Some col → cuts !! i = Some c →
    within c (cell cols r.2 col) = true.
Proof.
  unfold kept. rewrite forallb_forall. split.
  - intros H i col c Hi Hc. apply (H (col, c)), list_elem_of_In.
    apply list_elem_of_lookup. exists i. rewrite lookup_zip_with, Hi. simpl.
    by rewrite Hc.
  - intros H [col c] Hin%list_elem_of_In.
    apply list_elem_of_lookup in Hin as [i Hi].
    apply lookup_zip_with_Some in Hi as (col' & c' & [= <- <-] & Hcol & Hc).
    by eapply H.
Qed.

(** C6 fails on a table with no rows.  The mask of line 108 is then an
    empty array of floats, not of booleans, [np.minimum] on line 113 leaves
    it one, and [df[mask]] on line 115 takes it for a list of column labels,
    of none: the table that is returned has lost its columns, whatever the
    columns to trim on and the probabilities.  On a table with rows the
    columns are kept.  In both cases the rows that are returned are rows of
    the table, in their order. *)
Theorem winsorize_no_rows_loses_columns :
  winsorize (mkFrame ["x"; "y"] []) (ByMany ["x"])
            (PShared (Q2Qc (1 # 100), Q2Qc (99 # 100)))
  = Ok (mkFrame [] [])
  ∧ ∀ df by_ p out,
      winsorize df by_ p = Ok out →
      columns out = (if decide (rows df = []) then [] else columns df)
      ∧ rows out `sublist_of` rows df.
Proof.
  split; [by vm_compute|].
  intros df by_ p out (ps & cuts & _ & _ & Hcols & Hrows)%winsorize_Ok.
  split; [done|]. rewrite Hrows. apply sublist_filter.
Qed.

(** C10: a row with a missing value in a trimmed column never survives,
    whatever the probabilities: no row of the output has a missing value in
    a trimmed column, and the output is made of rows of the input. *)
Theorem winsorize_drops_missing df by_ p out col :
  winsorize df by_ p = Ok out →
  col ∈ force_iterable by_ →
  rows out `sublist_of` rows df
  ∧ ∀ r, r ∈ rows df → cell (columns df) r.2 col = VNaN → r ∉ rows out.
Proof.
  intros (ps & cuts & Hps & Hcuts & _ & ->)%winsorize_Ok Hcol.
  split; [apply sublist_filter|].
  intros r Hr Hnan [Hk _]%list_elem_of_filter.
  apply list_elem_of_lookup in Hcol as [i Hi].
  destruct (cuts !! i) as [c|] eqn:Hc.
  - pose proof (proj1 (kept_iff _ _ _ _) Hk i col c Hi Hc) as Hw.
    rewrite Hnan in Hw. unfold within in Hw. simpl in Hw.
    destruct (c.1); simpl in Hw; done.
  - apply lookup_ge_None in Hc. apply lookup_lt_Some in Hi.
    apply mapM_length in Hcuts. rewrite length_zip_with in Hcuts.
    apply quantile_pairs_length in Hps. lia.
Qed.

Lemma filter_all {A} (P : A → Prop) `{!∀ x, Decision (P x)} (l : list A) :
  Forall P l → filter P l = l.
Proof.
  induction 1 as [|x l Hx _ IH]; [done|].
  by rewrite filter_cons_True, IH.
Qed.

Lemma quantile_full_range vs qs :
  numbers_of vs = Ok qs → qs ≠ [] →
  ∃ lo hi,
    quantile vs (Q2Qc 0, Q2Qc 1) = Ok (VNum lo, VNum hi)
    ∧ Forall (λ q, lo ≤ q ∧ q ≤ hi)%Qc qs.
Proof.
  intros Hqs Hne. unfold quantile. rewrite decide_True by done.
  rewrite Hqs. simpl.
  pose proof (sort_by_Permutation Qc_leb qs) as Hperm.
  pose proof (sort_by_StronglySorted Qc_leb Qcle Qc_leb_le Qcle_total qs) as Hs.
  destruct (sort_by Qc_leb qs) as [|x xs] eqn:E.
  { apply Permutation_nil_l in Hperm. by subst. }
  destruct ((x :: xs) !! length xs) as [z|] eqn:Hz.
  2:{ apply lookup_ge_None in Hz. simpl in Hz. lia. }
  exists x, z. rewrite quantile_sorted_0, (quantile_sorted_1 _ _ _ Hz).
  split; [done|].
  rewrite <-Hperm. apply Forall_and. split.
  - inversion Hs as [|?? _ Hx]; subst. constructor; [done|].
    eapply Forall_impl; [exact Hx|]. done.
  - by apply (StronglySorted_last_ge Qcle (x :: xs) (length xs)).
Qed.

(** C7 as stated fails: at the full range [(0, 1)] a row with a missing
    value in the trimmed column is dropped.  Trimming the example table on
    [y] leaves four of its five rows. *)
Lemma winsorize_full_range_drops_row :
  ∃ out, winsorize Examples.W (ByMany ["y"]) Examples.full_range = Ok out
    ∧ length (rows Examples.W) = 5 ∧ length (rows out) = 4.
Proof. eexists. split; [vm_compute; reflexivity | done]. Qed.

(** C7, amended: on a table with at least one row whose column [c] holds
    float64 numbers only (none missing, none infinite, none of a magnitude
    of 2^1023 or more), [winsorize] on [c] alone at the full range [(0, 1)]
    returns the table as it is.  The cut-offs are then the smallest and the
    largest cell, in the exact arithmetic of the model and in float64
    alike: the interpolation [a + (b - a) * 0] neither rounds nor
    overflows on such numbers. *)
Theorem winsorize_full_range_id df c vs :
  rows df ≠ [] →
  get_col c df = Ok vs →
  all_float64 vs →
  winsorize df (ByMany [c]) (PShared (Q2Qc 0, Q2Qc 1)) = Ok df.
Proof.
  intros Hrows Hvs Hfl.
  assert (all_numbers vs) as Hnum.
  { eapply Forall_impl; [exact Hfl|]. intros v (x & -> & _). by exists x. }
  rewrite winsorize_eq. simpl.
  unfold cutoffs. rewrite Hvs. simpl.
  destruct (numbers_of_all_numbers vs Hnum) as (qs & Hqs & Hvq).
  destruct qs as [|q0 qs'].
  { subst vs. apply get_col_length in Hvs. simpl in Hvs.
    by destruct (rows df). }
  destruct (quantile_full_range vs (q0 :: qs') Hqs) as (lo & hi & -> & Hall);
    [done|].
  simpl. rewrite decide_False by done.
  destruct df as [cols rs]. simpl. f_equal. f_equal.
  apply filter_all. apply Forall_forall. intros r Hr.
  unfold kept. simpl. rewrite andb_true_r.
  apply get_col_cells in Hvs. simpl in Hvs.
  assert (cell cols r.2 c ∈ vs) as Hin.
  { rewrite Hvs. apply list_elem_of_fmap. by exists r. }
  rewrite Hvq in Hin. apply list_elem_of_fmap in Hin as (q & -> & Hq).
  rewrite Forall_forall in Hall. destruct (Hall q Hq) as [H1 H2].
  unfold within. simpl. apply andb_true_iff.
  split; by apply Qle_bool_iff.
Qed.

(** Evaluating a call that succeeds. *)
Ltac value_of t :=
  let r := eval vm_compute in t in
  lazymatch r with
  | Ok ?v => v
  | (_, Ok ?v) => v
  end.

Lemma winsorize_drops_missing_witness :
  ∃ out,
    winsorize Examples.W (ByMany ["y"]) Examples.full_range = Ok out
    ∧ "y" ∈ force_iterable (ByMany ["y"])
    ∧ rows out `sublist_of` rows Examples.W
    ∧ ∀ r, r ∈ rows Examples.W →
        cell (columns Examples.W) r.2 "y" = VNaN → r ∉ rows out.
Proof.
  let out := value_of (winsorize Examples.W (ByMany ["y"]) Examples.full_range) in
  exists out;
  assert (winsorize Examples.W (ByMany ["y"]) Examples.full_range = Ok out) as H1
    by (vm_compute; reflexivity).
  assert ("y" ∈ force_iterable (ByMany ["y"])) as H2 by (simpl; apply list_elem_of_here).
  split; [exact H1|]. split; [exact H2|].
  exact (winsorize_drops_missing Examples.W _ _ _ "y" H1 H2).
Defined.

Lemma winsorize_full_range_id_witness :
  ∃ vs,
    rows Examples.W ≠ []
    ∧ get_col "x" Examples.W = Ok vs
    ∧ all_float64 vs
    ∧ winsorize Examples.W (ByMany ["x"]) (PShared (Q2Qc 0, Q2Qc 1)) = Ok Examples.W.
Proof.
  let vs := value_of (get_col "x" Examples.W) in
  exists vs;
  assert (get_col "x" Examples.W = Ok vs) as H1 by (vm_compute; reflexivity);
  assert (all_float64 vs) as H2.
  { repeat (constructor; [eexists; split; [reflexivity|]|]);
      [..|constructor].
    all: match goal with
         | |- float64_exact ?x =>
             let z := eval vm_compute in (Qnum (this x)) in
             exists z, 0%Z; split; [by vm_compute|]; split; [lia|];
             by apply Qc_is_canon
         end. }
  assert (rows Examples.W ≠ []) as H0 by done.
  split; [exact H0|]. split; [exact H1|]. split; [exact H2|].
  exact (winsorize_full_range_id Examples.W "x" _ H0 H1 H2).
Defined.

(** ** group_id: the table of distinct combinations *)

Section first_seen.
Context `{EqDecision A}.
Implicit Types l : list A.

Lemma first_seen_elem_of l x : x ∈ first_seen l ↔ x ∈ l.
Proof.
  induction l as [|y l IH]; simpl; [done|].
  rewrite !elem_of_cons, list_elem_of_filter, IH.
  destruct (decide (x = y)); naive_solver.
Qed.

Lemma first_seen_NoDup l : NoDup (first_seen l).
Proof.
  induction l as [|y l IH]; simpl; [constructor|].
  constructor; [|by apply NoDup_filter].
  rewrite list_elem_of_filter. naive_solver.
Qed.

(** As many items as there are distinct ones. *)
Lemma first_seen_length l : length (first_seen l) = length (remove_dups l).
Proof.
  apply Permutation_length, NoDup_Permutation.
  - apply first_seen_NoDup.
  - apply NoDup_remove_dups.
  - intros x. by rewrite first_seen_elem_of, elem_of_remove_dups.
Qed.

End first_seen.

Lemma drop_seen_keys seen rs :
  (drop_seen seen rs).*2 = filter (λ k, k ∉ seen) (first_seen (rs.*2)).
Proof.
  revert seen; induction rs as [|r rs IH]; intros seen; csimpl; [done|].
  case_decide as Hin.
  - rewrite IH, filter_cons_False by (by intros ?).
    rewrite list_filter_filter. apply list_filter_iff.
    intros k. split; [|naive_solver]. intros Hk. split; [done|].
    intros ->. done.
  - csimpl. rewrite IH, filter_cons_True by done. f_equal.
    rewrite list_filter_filter. apply list_filter_iff.
    intros k. rewrite not_elem_of_cons. naive_solver.
Qed.

Lemma select_cols_Ok K df :
  Forall (λ c, c ∈ columns df) K →
  select_cols K df
  = Ok (mkFrame K ((λ r : value * row, (r.1, cell (columns df) r.2 <$> K)) <$> rows df)).
Proof. intros H. unfold select_cols. by rewrite decide_True. Qed.

Lemma range_index_lookup n i : i < n → range_index n !! i = Some (num_of_nat i).
Proof.
  intros Hi. unfold range_index.
  by rewrite list_lookup_fmap, lookup_seq_lt.
Qed.

Lemma numbered_lookup ks i k :
  ks !! i = Some k → numbered ks !! i = Some (num_of_nat i, num_of_nat i :: k).
Proof.
  intros Hk. unfold numbered.
  rewrite list_lookup_fmap, lookup_zip_with, Hk.
  rewrite range_index_lookup by (by eapply lookup_lt_Some). done.
Qed.

Lemma numbered_length ks : length (numbered ks) = length ks.
Proof.
  unfold numbered, range_index.
  rewrite length_fmap, length_zip_with, length_fmap, length_seq. lia.
Qed.

Lemma numbered_ids ks : (λ r : value * row, default VNaN (r.2 !! 0)) <$> numbered ks
  = range_index (length ks).
Proof.
  unfold numbered. rewrite <-list_fmap_compose.
  rewrite <-(fst_zip (range_index (length ks)) ks) at 2
    by (unfold range_index; by rewrite length_fmap, length_seq).
  by apply list_fmap_ext.
Qed.

Lemma zip_fst_fmap {A B C} (f : A * B → C) (l : list (A * B)) :
  zip (l.*1) (f <$> l) = (λ r, (r.1, f r)) <$> l.
Proof. induction l as [|r l IH]; csimpl; [done | by rewrite IH]. Qed.

Lemma unique_table_Ok df K name :
  K ≠ [] → Forall (λ c, c ∈ columns df) K → name ∉ columns df →
  unique_table df K name
  = Ok (mkFrame (name :: K) (numbered (first_seen (combinations df K)))).
Proof.
  intros HK Hsub Hname. unfold unique_table. rewrite select_cols_Ok by done.
  simpl. unfold reset_index_named, reset_index_drop. simpl.
  assert (name ∉ K) as HnK.
  { intros Hin. rewrite Forall_forall in Hsub. by apply Hname, Hsub. }
  assert (rows (drop_duplicates
            (mkFrame K ((λ r : value * row, (r.1, cell (columns df) r.2 <$> K))
                          <$> rows df)))
          = drop_seen [] ((λ r : value * row, (r.1, cell (columns df) r.2 <$> K))
                            <$> rows df)) as Hrows.
  { unfold drop_duplicates. case_decide as Hd; [|done]. simpl in *.
    destruct Hd as [?|Hd]; [done|]. by rewrite Hd. }
  assert (columns (drop_duplicates
            (mkFrame K ((λ r : value * row, (r.1, cell (columns df) r.2 <$> K))
                          <$> rows df))) = K) as Hcols.
  { unfold drop_duplicates. by case_decide. }
  rewrite Hcols, decide_False by done. f_equal. f_equal.
  unfold data. rewrite Hrows.
  set (rs := drop_seen _ _).
  assert (rs.*2 = first_seen (combinations df K)) as Hks.
  { unfold rs. rewrite drop_seen_keys, <-list_fmap_compose.
    apply filter_all, Forall_forall. intros k _. apply not_elem_of_nil. }
  rewrite <-Hks. unfold numbered. rewrite (length_fmap snd rs).
  set (l := zip (range_index (length rs)) rs.*2).
  assert (l.*1 = range_index (length rs)) as Hfst.
  { apply fst_zip. unfold range_index. by rewrite !length_fmap, length_seq. }
  assert (length l = length rs) as ->.
  { rewrite <-(length_fmap fst l), Hfst. unfold range_index.
    by rewrite length_fmap, length_seq. }
  rewrite <-Hfst. apply zip_fst_fmap.
Qed.

(** C3: without merging, [group_id] returns the table of the distinct
    combinations of the key columns: one row per distinct combination, the
    id column holding 0, 1, ..., count-1, and row [i] (id [i]) holding the
    [i]-th combination in the order of first appearance in the table.  The
    id name must not be a column (the call raises otherwise), the key
    columns are columns of the table, and there is at least one. *)
Theorem group_id_mapping_spec df cols name :
  name ∉ columns df →
  key_columns df cols ≠ [] →
  Forall (λ c, c ∈ columns df) (key_columns df cols) →
  let K := key_columns df cols in
  let combos := first_seen (combinations df K) in
  ∃ out,
    group_id df cols name false = ([], Ok out)
    ∧ columns out = name :: K
    ∧ length (rows out) = length (remove_dups (combinations df K))
    ∧ get_col name out = Ok (range_index (length (rows out)))
    ∧ (∀ i k, combos !! i = Some k →
         rows out !! i = Some (num_of_nat i, num_of_nat i :: k))
    ∧ NoDup combos
    ∧ ∀ k, k ∈ combos ↔ k ∈ combinations df K.
Proof.
  intros Hname HK Hsub K combos.
  exists (mkFrame (name :: K) (numbered combos)).
  split.
  { unfold group_id. rewrite decide_False by done.
    change (match cols with None | Some [] => columns df | Some cs => cs end)
      with K.
    by rewrite unique_table_Ok. }
  split; [done|]. simpl. unfold combos.
  split; [by rewrite numbered_length, first_seen_length|].
  split.
  { unfold get_col. simpl. rewrite decide_True by done.
    by rewrite numbered_ids, numbered_length. }
  split; [intros i k; apply numbered_lookup|].
  split; [apply first_seen_NoDup | intros k; apply first_seen_elem_of].
Qed.

Lemma group_id_mapping_witness :
  let df := Examples.T in
  let cols := Some ["k"] in
  ("group_id" ∉ columns df)
  ∧ key_columns df cols ≠ []
  ∧ Forall (λ c, c ∈ columns df) (key_columns df cols)
  ∧ ∃ out,
      group_id df cols "group_id" false = ([], Ok out)
      ∧ columns out = "group_id" :: key_columns df cols
      ∧ length (rows out) = length (remove_dups (combinations df (key_columns df cols)))
      ∧ get_col "group_id" out = Ok (range_index (length (rows out)))
      ∧ (∀ i k, first_seen (combinations df (key_columns df cols)) !! i = Some k →
           rows out !! i = Some (num_of_nat i, num_of_nat i :: k))
      ∧ NoDup (first_seen (combinations df (key_columns df cols)))
      ∧ ∀ k, k ∈ first_seen (combinations df (key_columns df cols))
             ↔ k ∈ combinations df (key_columns df cols).
Proof.
  intros df cols.
  assert ("group_id" ∉ columns df) as H1 by compute_done.
  assert (key_columns df cols ≠ []) as H2 by done.
  assert (Forall (λ c, c ∈ columns df) (key_columns df cols)) as H3 by compute_done.
  split; [exact H1|]. split; [exact H2|]. split; [exact H3|].
  exact (group_id_mapping_spec df cols "group_id" H1 H2 H3).
Defined.

(** ** Marker names never look like suffixed names *)

Lemma last_char_app s t : t ≠ "" → last_char (s +:+ t) = last_char t.
Proof.
  intros Ht. induction s as [|a s IH]; [done|].
  simpl. rewrite IH. destruct (s +:+ t) eqn:E; [|done].
  destruct s, t; done.
Qed.

Lemma last_char_nth_candidate base a k :
  last_char base = Some a →
  last_char (nth_candidate base (String a "") k) = Some a.
Proof.
  intros Hb. destruct k as [|k]; [done|].
  unfold nth_candidate. simpl. by rewrite last_char_app.
Qed.

Lemma fresh_marker_candidate base sfx cols name :
  fresh_marker base sfx cols = Some name →
  (name ∉ cols) ∧ ∃ k, name = nth_candidate base sfx k.
Proof.
  unfold fresh_marker. intros H.
  pose proof (while_taken_spec (S (length cols)) base sfx cols) as Hs.
  rewrite H in Hs. destruct Hs as (Hn & k & _ & -> & _). eauto.
Qed.

Lemma left_marker_last cols lt :
  left_marker cols = Some lt → last_char lt = Some "a"%char.
Proof.
  intros (_ & k & ->)%fresh_marker_candidate.
  by apply (last_char_nth_candidate "tmpa" "a"%char).
Qed.

Lemma right_marker_last cols rt :
  right_marker cols = Some rt → last_char rt = Some "b"%char.
Proof.
  intros (_ & k & ->)%fresh_marker_candidate.
  by apply (last_char_nth_candidate "tmpb" "b"%char).
Qed.

Lemma left_marker_spec cols lt :
  left_marker cols = Some lt →
  (lt ∉ cols) ∧ ∀ s, s +:+ "_x" ≠ lt ∧ s +:+ "_y" ≠ lt.
Proof.
  intros (Hn & k & ->)%fresh_marker_candidate. split; [done|].
  intros s. split; intros Heq; apply (f_equal last_char) in Heq;
    rewrite last_char_app, (last_char_nth_candidate "tmpa" "a"%char) in Heq; done.
Qed.

Lemma right_marker_spec cols rt :
  right_marker cols = Some rt →
  (rt ∉ cols) ∧ ∀ s, s +:+ "_x" ≠ rt ∧ s +:+ "_y" ≠ rt.
Proof.
  intros (Hn & k & ->)%fresh_marker_candidate. split; [done|].
  intros s. split; intros Heq; apply (f_equal last_char) in Heq;
    rewrite last_char_app, (last_char_nth_candidate "tmpb" "b"%char) in Heq; done.
Qed.

(** ** Adding a column under a name that is free *)

Lemma zip_with_replicate_r {A B C} (f : A → B → C) (l : list A) (b : B) :
  zip_with f l (replicate (length l) b) = (λ a, f a b) <$> l.
Proof. induction l as [|a l IH]; csimpl; [done | by rewrite IH]. Qed.

Lemma set_col_const_fresh c v df :
  c ∉ columns df →
  set_col_const c v df
  = mkFrame (columns df ++ [c]) ((λ r : value * row, (r.1, r.2 ++ [v])) <$> rows df).
Proof.
  intros Hc%col_pos_None. unfold set_col_const, set_col. rewrite Hc.
  by rewrite zip_with_replicate_r.
Qed.

Lemma cell_app_old cols (r : row) c x k :
  length r = length cols → k ∈ cols →
  cell (cols ++ [c]) (r ++ [x]) k = cell cols r k.
Proof.
  intros Hlen Hk. unfold cell. rewrite col_pos_app_l by done.
  destruct (col_pos k cols) as [i|] eqn:E; [|done].
  rewrite lookup_app_l; [done|]. apply col_pos_lt in E. lia.
Qed.

Lemma cell_app_new cols (r : row) c x :
  length r = length cols → c ∉ cols →
  cell (cols ++ [c]) (r ++ [x]) c = x.
Proof.
  intros Hlen Hc. unfold cell. rewrite col_pos_last by done.
  rewrite lookup_app_r by lia. rewrite Hlen, Nat.sub_diag. done.
Qed.

(** ** The rows of a join *)

Section join_lemmas.
Variables (lcols rcols K : list string) (ls rs : list row).

Let sound (j : joined) : Prop :=
  match j with
  | Both l r => l ∈ ls ∧ r ∈ rs ∧ key_of_left lcols K l = key_of_right rcols K r
  | LeftOnly l => l ∈ ls ∧ ∀ r, r ∈ rs → key_of_left lcols K l ≠ key_of_right rcols K r
  | RightOnly r => r ∈ rs ∧ ∀ l, l ∈ ls → key_of_left lcols K l ≠ key_of_right rcols K r
  end.

Lemma key_match_true l r :
  key_match lcols rcols K l r ↔ key_of_left lcols K l = key_of_right rcols K r.
Proof. unfold key_match. apply bool_decide_spec. Qed.

Lemma inner_join_sound : Forall sound (inner_join lcols rcols K ls rs).
Proof.
  unfold inner_join. apply Forall_forall. intros j.
  rewrite list_elem_of_bind. intros (l & Hj & Hl).
  apply list_elem_of_fmap in Hj as (r & -> & Hr).
  apply list_elem_of_filter in Hr as [Hm Hr]. unfold sound.
  split; [done|]. split; [done|]. by apply key_match_true.
Qed.

Lemma left_join_sound : Forall sound (left_join lcols rcols K ls rs).
Proof.
  unfold left_join. apply Forall_forall. intros j.
  rewrite list_elem_of_bind. intros (l & Hj & Hl).
  destruct (filter _ rs) as [|m ms] eqn:E.
  - apply list_elem_of_singleton in Hj as ->. unfold sound. split; [done|].
    intros r Hr Hk. apply key_match_true in Hk.
    eapply (filter_nil_not_elem_of _ _ r); eauto.
  - apply list_elem_of_fmap in Hj as (r & -> & Hr). rewrite <-E in Hr.
    apply list_elem_of_filter in Hr as [Hm Hr]. unfold sound.
    split; [done|]. split; [done|]. by apply key_match_true.
Qed.

Lemma right_join_sound : Forall sound (right_join lcols rcols K ls rs).
Proof.
  unfold right_join. apply Forall_forall. intros j.
  rewrite list_elem_of_bind. intros (r & Hj & Hr).
  destruct (filter _ ls) as [|m ms] eqn:E.
  - apply list_elem_of_singleton in Hj as ->. unfold sound. split; [done|].
    intros l Hl Hk. apply key_match_true in Hk.
    eapply (filter_nil_not_elem_of _ _ l); eauto.
  - apply list_elem_of_fmap in Hj as (l & -> & Hl). rewrite <-E in Hl.
    apply list_elem_of_filter in Hl as [Hm Hl]. unfold sound.
    split; [done|]. split; [done|]. by apply key_match_true.
Qed.

Lemma right_unmatched_sound : Forall sound (right_unmatched lcols rcols K ls rs).
Proof.
  unfold right_unmatched. apply Forall_forall. intros j.
  intros (r & -> & Hr)%list_elem_of_fmap.
  apply list_elem_of_filter in Hr as [Hm Hr]. unfold sound. split; [done|].
  intros l Hl Hk%key_match_true%Is_true_true.
  apply Is_true_true in Hm. rewrite forallb_forall in Hm.
  specialize (Hm l). rewrite Hk in Hm. discriminate Hm. by apply list_elem_of_In.
Qed.

Lemma join_rows_sound how : Forall sound (join_rows lcols rcols K ls rs how).
Proof.
  destruct how; simpl.
  - apply inner_join_sound.
  - apply left_join_sound.
  - apply right_join_sound.
  - unfold outer_join. apply sort_by_Forall, Forall_app.
    split; [apply left_join_sound | apply right_unmatched_sound].
Qed.

(** A row of the join is made of rows of the two sides; a row of one side
    alone has a key that the other side does not have. *)
Lemma join_rows_spec how j :
  j ∈ join_rows lcols rcols K ls rs how →
  match j with
  | Both l r => l ∈ ls ∧ r ∈ rs ∧ key_of_left lcols K l = key_of_right rcols K r
  | LeftOnly l => l ∈ ls ∧ ∀ r, r ∈ rs → key_of_left lcols K l ≠ key_of_right rcols K r
  | RightOnly r => r ∈ rs ∧ ∀ l, l ∈ ls → key_of_left lcols K l ≠ key_of_right rcols K r
  end.
Proof.
  intros Hj. pose proof (join_rows_sound how) as H.
  rewrite Forall_forall in H. by apply H in Hj.
Qed.
End join_lemmas.

(** ** Reading a column back after [set_col] and [del_col] *)

Lemma get_set_col_eq c vs df :
  rows_wf df → length vs = length (rows df) →
  get_col c (set_col c vs df) = Ok vs.
Proof.
  unfold rows_wf, get_col, set_col. intros Hwf Hlen.
  destruct (col_pos c (columns df)) as [i|] eqn:E; simpl.
  - rewrite E. f_equal. pose proof (col_pos_lt _ _ _ E) as Hi.
    revert vs Hlen. induction Hwf as [|r rs Hr _ IH]; intros [|v vs]; try done.
    intros [= Hlen]. csimpl. rewrite IH by done. f_equal.
    rewrite list_lookup_insert_eq by lia. done.
  - apply col_pos_None in E. rewrite col_pos_last by done. f_equal.
    revert vs Hlen. induction Hwf as [|r rs Hr _ IH]; intros [|v vs]; try done.
    intros [= Hlen]. csimpl. rewrite IH by done. f_equal.
    rewrite lookup_app_r by lia. by rewrite Hr, Nat.sub_diag.
Qed.

Lemma col_pos_ne c d cols i p :
  col_pos d cols = Some p → col_pos c cols = Some i → c ≠ d → i ≠ p.
Proof. intros Hd%col_pos_Some Hc%col_pos_Some Hne ->. congruence. Qed.

Lemma col_pos_delete c cols p d :
  col_pos d cols = Some p → c ≠ d →
  col_pos c (delete p cols)
  = (λ i, if decide (i < p) then i else i - 1) <$> col_pos c cols.
Proof.
  revert p; induction cols as [|x cols IH]; intros p; simpl; [done|].
  case_decide as Hd.
  - intros [= <-] Hne. subst x. simpl. case_decide; [done|].
    destruct (col_pos c cols) as [i|]; simpl; [|done].
    f_equal. lia.
  - destruct (col_pos d cols) as [q|] eqn:E; simpl; [|done].
    intros [= <-] Hne. simpl. case_decide as Hc; simpl.
    + done.
    + rewrite (IH q) by done.
      destruct (col_pos c cols) as [i|] eqn:Ec; simpl; [|done].
      pose proof (col_pos_ne _ _ _ _ _ E Ec Hne).
      f_equal. repeat case_decide; lia.
Qed.

Lemma get_del_col_ne c d df df' :
  del_col d df = Ok df' → c ≠ d → get_col c df' = get_col c df.
Proof.
  unfold del_col, get_col.
  destruct (col_pos d (columns df)) as [p|] eqn:Hd; [|done].
  intros [= <-] Hne. simpl. rewrite (col_pos_delete _ _ _ d) by done.
  destruct (col_pos c (columns df)) as [i|] eqn:Hc; simpl; [|done].
  f_equal. rewrite <-list_fmap_compose. apply list_fmap_ext.
  intros _ r _. simpl. case_decide as Hlt.
  - by rewrite list_lookup_delete_lt.
  - pose proof (col_pos_ne _ _ _ _ _ Hd Hc Hne).
    rewrite list_lookup_delete_ge by lia. f_equal. f_equal. lia.
Qed.

Lemma del_col_columns_subseteq c d df df' :
  del_col d df = Ok df' → c ∈ columns df' → c ∈ columns df.
Proof.
  unfold del_col. destruct (col_pos d (columns df)) as [p|]; [|done].
  intros [= <-]. simpl. apply list_elem_of_delete_inv.
Qed.

Lemma get_col_Ok_elem_of c df vs : get_col c df = Ok vs → c ∈ columns df.
Proof.
  unfold get_col. destruct (col_pos c (columns df)) eqn:E; [|done].
  intros _. by eapply col_pos_elem_of.
Qed.

(** ** The rationals 1, 2 and 3 *)

Lemma Qc_of_Z_add (x y : Z) : (Qc_of_Z x + Qc_of_Z y)%Qc = Qc_of_Z (x + y).
Proof.
  apply Qc_is_canon. unfold Qc_of_Z. simpl.
  rewrite Qred_correct. by rewrite inject_Z_plus.
Qed.

Lemma add_fill0_num_num x y :
  add_fill0 (num_of_Z x) (num_of_Z y) = Ok (num_of_Z (x + y)).
Proof. unfold add_fill0, num_of_Z. by rewrite Qc_of_Z_add. Qed.

Lemma add_fill0_num_nan x : add_fill0 (num_of_Z x) VNaN = Ok (num_of_Z x).
Proof. unfold add_fill0, num_of_Z. by rewrite Qcplus_0_r. Qed.

Lemma add_fill0_nan_num y : add_fill0 VNaN (num_of_Z y) = Ok (num_of_Z y).
Proof. unfold add_fill0, num_of_Z. by rewrite Qcplus_0_l. Qed.

Lemma series_add_fmap {A} (f g h : A → value) (l : list A) :
  (∀ x, x ∈ l → add_fill0 (f x) (g x) = Ok (h x)) →
  series_add (f <$> l) (g <$> l) = Ok (h <$> l).
Proof.
  unfold series_add. induction l as [|x l IH]; intros H; csimpl; [done|].
  rewrite H by left. simpl. rewrite IH; [done|].
  intros y Hy. apply H. by right.
Qed.

(** ** The table [pd_merge] returns *)

Lemma mapped_pos {A} (n1 n2 : A → string) (X Y : list A) c i :
  col_pos c ((n1 <$> X) ++ (n2 <$> Y)) = Some i →
  (∃ x, X !! i = Some x ∧ n1 x = c)
  ∨ (∃ y, length X ≤ i ∧ Y !! (i - length X) = Some y ∧ n2 y = c).
Proof.
  intros H%col_pos_Some. apply lookup_app_Some in H as [H|[Hle H]].
  - apply list_lookup_fmap_Some in H as (x & -> & Hx). left. eauto.
  - rewrite length_fmap in Hle, H.
    apply list_lookup_fmap_Some in H as (y & -> & Hy). right. eauto.
Qed.

Section merged.
Variables (lcols rcols K : list string).

Lemma build_row_eq j :
  build_row lcols rcols K j
  = (left_cell lcols rcols K j <$> lcols)
    ++ (right_cell rcols j <$> right_nonkey rcols K).
Proof. by destruct j. Qed.

Lemma build_row_length j :
  length (build_row lcols rcols K j) = length (merged_columns lcols rcols K).
Proof.
  rewrite build_row_eq. unfold merged_columns.
  by rewrite !length_app, !length_fmap.
Qed.

Lemma build_row_lookup_left j i c :
  lcols !! i = Some c →
  build_row lcols rcols K j !! i = Some (left_cell lcols rcols K j c).
Proof.
  intros Hi. rewrite build_row_eq, lookup_app_l.
  - by apply list_lookup_fmap_Some_2.
  - rewrite length_fmap. by eapply lookup_lt_Some.
Qed.

Lemma build_row_lookup_right j i c :
  length lcols ≤ i → right_nonkey rcols K !! (i - length lcols) = Some c →
  build_row lcols rcols K j !! i = Some (right_cell rcols j c).
Proof.
  intros Hle Hi. rewrite build_row_eq, lookup_app_r; rewrite length_fmap; [|done].
  by apply list_lookup_fmap_Some_2.
Qed.

Lemma out_left_name_cases c :
  out_left_name rcols K c = c ∧ ¬ (¬ c ∈ K ∧ c ∈ rcols)
  ∨ out_left_name rcols K c = c +:+ "_x".
Proof. unfold out_left_name. case_decide; auto. Qed.

Lemma out_right_name_cases c :
  out_right_name lcols c = c ∧ ¬ c ∈ lcols
  ∨ out_right_name lcols c = c +:+ "_y".
Proof. unfold out_right_name. case_decide; auto. Qed.

(** A name that no suffix produces and that is a column of the left side
    but no key names, in the output, the column it names on the left. *)
Lemma merged_left_column c i j :
  (∀ s, s +:+ "_x" ≠ c ∧ s +:+ "_y" ≠ c) → c ∈ lcols →
  col_pos c (merged_columns lcols rcols K) = Some i →
  build_row lcols rcols K j !! i = Some (left_cell lcols rcols K j c).
Proof.
  intros Hsfx Hc Hi. unfold merged_columns in Hi.
  apply mapped_pos in Hi as [(x & Hx & Hn)|(y & Hle & Hy & Hn)].
  - destruct (out_left_name_cases x) as [[E _]|E]; rewrite E in Hn.
    + subst x. by apply build_row_lookup_left.
    + by apply Hsfx in Hn.
  - destruct (out_right_name_cases y) as [[E Hy']|E]; rewrite E in Hn.
    + by subst y.
    + by apply Hsfx in Hn.
Qed.

(** The same for a column of the right side that is no key. *)
Lemma merged_right_column c i j :
  (∀ s, s +:+ "_x" ≠ c ∧ s +:+ "_y" ≠ c) → c ∈ rcols → c ∉ K →
  col_pos c (merged_columns lcols rcols K) = Some i →
  build_row lcols rcols K j !! i = Some (right_cell rcols j c).
Proof.
  intros Hsfx Hc HK Hi. unfold merged_columns in Hi.
  apply mapped_pos in Hi as [(x & Hx & Hn)|(y & Hle & Hy & Hn)].
  - destruct (out_left_name_cases x) as [[E Hx']|E]; rewrite E in Hn.
    + subst x. by destruct Hx'.
    + by apply Hsfx in Hn.
  - destruct (out_right_name_cases y) as [[E _]|E]; rewrite E in Hn.
    + subst y. by apply build_row_lookup_right.
    + by apply Hsfx in Hn.
Qed.
End merged.

Lemma key_label_Ok cols k u : key_label cols k = Ok u → k ∈ cols.
Proof.
  unfold key_label. destruct (filter _ cols) as [|c l] eqn:E; [done|]. intros _.
  assert (c ∈ filter (λ c, c = k) cols) as Hc by (rewrite E; apply list_elem_of_here).
  by apply list_elem_of_filter in Hc as [-> ?].
Qed.

Lemma filter_eq_absent (cols : list string) k :
  k ∉ cols → filter (λ c, c = k) cols = [].
Proof.
  induction cols as [|c cols IH]; [done|].
  intros [Hne Hk]%not_elem_of_cons. rewrite filter_cons.
  rewrite decide_False by done. by apply IH.
Qed.

Lemma filter_eq_NoDup (cols : list string) k :
  NoDup cols → k ∈ cols → filter (λ c, c = k) cols = [k].
Proof.
  induction 1 as [|c cols Hc Hnd IH]; [by intros ?%elem_of_nil|].
  intros Hk. rewrite filter_cons. case_decide as E.
  - subst c. f_equal. by apply filter_eq_absent.
  - apply elem_of_cons in Hk as [->|Hk]; [done | by apply IH].
Qed.

Lemma key_label_NoDup cols k : NoDup cols → k ∈ cols → key_label cols k = Ok tt.
Proof. intros Hnd Hk. unfold key_label. by rewrite filter_eq_NoDup. Qed.

Lemma key_label_Raise cols k e :
  key_label cols k = Raise e →
  (e = KeyError ∧ k ∉ cols) ∨ (e = ValueError ∧ k ∈ cols ∧ ¬ NoDup cols).
Proof.
  unfold key_label. destruct (filter _ cols) as [|c [|c' l]] eqn:E; [|done|].
  - intros [= <-]. left. split; [done|]. intros Hk.
    assert (k ∈ filter (λ c, c = k) cols) as Hin by (by apply list_elem_of_filter).
    rewrite E in Hin. by apply elem_of_nil in Hin.
  - intros [= <-]. right. split; [done|].
    assert (c ∈ filter (λ c, c = k) cols) as Hc by (rewrite E; apply list_elem_of_here).
    apply list_elem_of_filter in Hc as [-> Hk]. split; [done|].
    intros Hnd. by rewrite (filter_eq_NoDup _ _ Hnd Hk) in E.
Qed.

Lemma merge_keys_Some K lcols rcols K' :
  merge_keys (Some K) lcols rcols = Ok K' →
  K' = K ∧ K ≠ [] ∧ Forall (λ k, k ∈ lcols ∧ k ∈ rcols) K.
Proof.
  destruct K as [|k0 K0]; [done|]. set (K := k0 :: K0). intros H.
  change ((mapM (λ k, key_label rcols k;; key_label lcols k) K;; Ok K) = Ok K') in H.
  destruct (mapM _ K) as [us|] eqn:E; [|done]. injection H as <-.
  split; [done|]. split; [done|].
  assert (∃ us, mapM (λ k, key_label rcols k;; key_label lcols k) K = Ok us) as Hex
    by (by eexists).
  clear E. revert Hex. generalize K. clear.
  induction K as [|k K IH]; [constructor|]. simpl. intros [us H].
  destruct (key_label rcols k) as [u|] eqn:Hr; [|done]. simpl in H.
  destruct (key_label lcols k) as [u'|] eqn:Hl; [|done]. simpl in H.
  destruct (mapM _ K) as [us'|]; [|done]. constructor.
  - split; by eapply key_label_Ok.
  - apply IH. by eexists.
Qed.

Lemma key_label_once cols k u :
  key_label cols k = Ok u → length (filter (λ c, c = k) cols) = 1.
Proof. unfold key_label. by destruct (filter _ cols) as [|c [|c' l]]. Qed.

(** Keys that are accepted label one column on each side. *)
Lemma merge_keys_Some_once K lcols rcols K' :
  merge_keys (Some K) lcols rcols = Ok K' →
  Forall (λ k, length (filter (λ c, c = k) lcols) = 1
               ∧ length (filter (λ c, c = k) rcols) = 1) K.
Proof.
  destruct K as [|k0 K0]; [done|]. set (K := k0 :: K0). intros H.
  change ((mapM (λ k, key_label rcols k;; key_label lcols k) K;; Ok K) = Ok K') in H.
  destruct (mapM _ K) as [us|] eqn:E; [|done]. clear H.
  assert (∃ us, mapM (λ k, key_label rcols k;; key_label lcols k) K = Ok us) as Hex
    by (by eexists).
  clear E. revert Hex. generalize K. clear.
  induction K as [|k K IH]; [constructor|]. simpl. intros [us H].
  destruct (key_label rcols k) as [u|] eqn:Hr; [|done]. simpl in H.
  destruct (key_label lcols k) as [u'|] eqn:Hl; [|done]. simpl in H.
  destruct (mapM _ K) as [us'|]; [|done]. constructor.
  - split; by eapply key_label_once.
  - apply IH. by eexists.
Qed.

Lemma NoDup_filter_eq (K : list string) :
  (∀ k, k ∈ K → length (filter (λ c, c = k) K) ≤ 1) → NoDup K.
Proof.
  induction K as [|k K IH]; [constructor|]. intros H. apply NoDup_cons. split.
  - intros Hk. specialize (H k (list_elem_of_here _ _)).
    rewrite filter_cons_True in H by done. simpl in H.
    assert (k ∈ filter (λ c, c = k) K) as Hin by (by apply list_elem_of_filter).
    destruct (filter _ K); [by apply elem_of_nil in Hin | simpl in H; lia].
  - apply IH. intros k' Hk'. specialize (H k' (list_elem_of_further _ _ _ Hk')).
    rewrite filter_cons in H. case_decide; simpl in H; lia.
Qed.

(** On sides without a repeated column name, keys that are columns of both
    sides are accepted. *)
Lemma merge_keys_Ok K lcols rcols :
  K ≠ [] → NoDup lcols → NoDup rcols →
  Forall (λ k, k ∈ lcols ∧ k ∈ rcols) K →
  merge_keys (Some K) lcols rcols = Ok K.
Proof.
  intros HKne Hl Hr HK. destruct K as [|k0 K0]; [done|]. set (K := k0 :: K0) in *.
  change ((mapM (λ k, key_label rcols k;; key_label lcols k) K;; Ok K) = Ok K).
  assert (∃ us, mapM (λ k, key_label rcols k;; key_label lcols k) K = Ok us) as [us ->];
    [|done].
  clear HKne. induction HK as [|k K' [Hkl Hkr] _ [us IH]]; [by eexists|].
  simpl. rewrite (key_label_NoDup _ _ Hr Hkr), (key_label_NoDup _ _ Hl Hkl). simpl.
  rewrite IH. by eexists.
Qed.

(** An exception of the key check: no key, a key that is no column of a
    side, or a key that several columns of a side are called. *)
Lemma merge_keys_Raise K lcols rcols e :
  merge_keys (Some K) lcols rcols = Raise e →
  (e = IndexError ∧ K = [])
  ∨ (e = KeyError ∧ ¬ Forall (λ k, k ∈ lcols ∧ k ∈ rcols) K)
  ∨ (e = ValueError ∧ ¬ (NoDup lcols ∧ NoDup rcols)).
Proof.
  destruct K as [|k0 K0]; [intros [= <-]; by left|]. set (K := k0 :: K0). intros H.
  right.
  change ((mapM (λ k, key_label rcols k;; key_label lcols k) K;; Ok K) = Raise e) in H.
  destruct (mapM _ K) as [us|e'] eqn:E; [done|]. injection H as ->.
  clear -E. revert E. generalize K. clear K.
  induction K as [|k K IH]; [done|]. simpl.
  destruct (key_label rcols k) as [u|e1] eqn:Hr; simpl.
  - destruct (key_label lcols k) as [u'|e2] eqn:Hl; simpl.
    + destruct (mapM _ K) as [us'|e3] eqn:E; simpl; [done|]. intros [= ->].
      destruct (IH eq_refl) as [[-> HK]|[-> Hnd]]; [left|by right].
      split; [done|]. by intros [_ ?]%Forall_cons.
    + intros [= ->]. apply key_label_Raise in Hl as [[-> Hk]|(-> & _ & Hnd)].
      * left. split; [done|]. by intros [[? _] _]%Forall_cons.
      * right. split; [done|]. by intros [? _].
  - intros [= ->]. apply key_label_Raise in Hr as [[-> Hk]|(-> & _ & Hnd)].
    + left. split; [done|]. by intros [[_ ?] _]%Forall_cons.
    + right. split; [done|]. by intros [_ ?].
Qed.

Lemma pd_merge_inv left right kw K merged :
  kw_on kw = Some K →
  pd_merge left right kw = Ok merged →
  let js := join_rows (columns left) (columns right) K (data left) (data right)
              (kw_how kw) in
  K ≠ []
  ∧ Forall (λ k, k ∈ columns left ∧ k ∈ columns right) K
  ∧ NoDup (merged_columns (columns left) (columns right) K)
  ∧ merged = mkFrame (merged_columns (columns left) (columns right) K)
               (zip (range_index (length js))
                    (build_row (columns left) (columns right) K <$> js)).
Proof.
  intros Hon. unfold pd_merge. rewrite Hon.
  destruct (merge_keys _ _ _) as [K'|] eqn:HK; [|done].
  apply merge_keys_Some in HK as (-> & HK & Hsub). simpl.
  case_decide as Hnd; [|done]. intros [= <-].
  by rewrite length_fmap.
Qed.

Lemma zip_range_fmap {A B} (f : A → B) (l : list A) :
  (λ r : value * A, f r.2) <$> zip (range_index (length l)) l = f <$> l.
Proof.
  transitivity (f <$> (zip (range_index (length l)) l).*2).
  - by rewrite <-list_fmap_compose.
  - rewrite snd_zip; [done|]. unfold range_index.
    by rewrite length_fmap, length_seq.
Qed.

Lemma zip_range_length {A} (l : list A) :
  length (zip (range_index (length l)) l) = length l.
Proof.
  rewrite length_zip_with. unfold range_index.
  rewrite length_fmap, length_seq. lia.
Qed.

(** ** stata_merge: the status column *)

Lemma from_fuel_Ok {A} (o : option A) a : from_fuel o = Ok a → o = Some a.
Proof. destruct o; [by intros [= ->] | done]. Qed.

Lemma data_marked c v df :
  data (mkFrame (columns df ++ [c]) ((λ r : value * row, (r.1, r.2 ++ [v])) <$> rows df))
  = (λ r : row, r ++ [v]) <$> data df.
Proof. unfold data. simpl. by rewrite <-!list_fmap_compose. Qed.

Lemma status_add j :
  add_fill0 (left_mark j) (right_mark j) = Ok (num_of_Z (status j)).
Proof.
  destruct j; unfold left_mark, right_mark; simpl.
  - apply (add_fill0_num_num 1 2).
  - apply add_fill0_num_nan.
  - apply add_fill0_nan_num.
Qed.

Section marked_join.
Variables (left right : DataFrame) (lt rt : string) (K : list string) (how : how_t).
Hypothesis Hwfl : wf_frame left.
Hypothesis Hwfr : wf_frame right.
Hypothesis Hlt : lt ∉ columns left.
Hypothesis Hrt : rt ∉ columns right.
Hypothesis HK : Forall (λ k, k ∈ columns left ∧ k ∈ columns right) K.

Let lcols := columns left ++ [lt].
Let rcols := columns right ++ [rt].
Let ls := (λ r : row, r ++ [num_of_Z 1]) <$> data left.
Let rs := (λ r : row, r ++ [num_of_Z 2]) <$> data right.
Let js := join_rows lcols rcols K ls rs how.

Lemma marker_not_key : (lt ∉ K) ∧ (rt ∉ K).
Proof.
  rewrite Forall_forall in HK. split; intros Hin; apply HK in Hin as [??]; done.
Qed.

Lemma left_row_length l : l ∈ data left → length l = length (columns left).
Proof.
  destruct Hwfl as [_ Hlen]. rewrite Forall_forall in Hlen.
  intros (r & -> & Hr)%list_elem_of_fmap. by apply Hlen.
Qed.

Lemma right_row_length r : r ∈ data right → length r = length (columns right).
Proof.
  destruct Hwfr as [_ Hlen]. rewrite Forall_forall in Hlen.
  intros (r' & -> & Hr)%list_elem_of_fmap. by apply Hlen.
Qed.

Lemma left_cell_marker j : j ∈ js → left_cell lcols rcols K j lt = left_mark j.
Proof.
  intros Hj%join_rows_spec. unfold left_mark.
  destruct j as [l r|l|r]; simpl.
  - destruct Hj as ((l0 & -> & Hl0)%list_elem_of_fmap & _).
    apply cell_app_new; [by apply left_row_length | done].
  - destruct Hj as ((l0 & -> & Hl0)%list_elem_of_fmap & _).
    apply cell_app_new; [by apply left_row_length | done].
  - rewrite decide_False; [done|]. apply marker_not_key.
Qed.

Lemma right_cell_marker j : j ∈ js → right_cell rcols j rt = right_mark j.
Proof.
  intros Hj%join_rows_spec. unfold right_mark.
  destruct j as [l r|l|r]; simpl; [| done |].
  - destruct Hj as (_ & (r0 & -> & Hr0)%list_elem_of_fmap & _).
    apply cell_app_new; [by apply right_row_length | done].
  - destruct Hj as ((r0 & -> & Hr0)%list_elem_of_fmap & _).
    apply cell_app_new; [by apply right_row_length | done].
Qed.

(** The key of a marked row is the key of the row. *)
Lemma left_key_marked l :
  l ∈ data left →
  key_of_left lcols K (l ++ [num_of_Z 1]) = key_of_left (columns left) K l.
Proof.
  intros Hl. unfold key_of_left. apply list_fmap_ext. intros i k Hk.
  apply cell_app_old; [by apply left_row_length|].
  apply list_elem_of_lookup_2 in Hk. rewrite Forall_forall in HK.
  by apply HK in Hk as [??].
Qed.

Lemma right_key_marked r :
  r ∈ data right →
  key_of_right rcols K (r ++ [num_of_Z 2]) = key_of_right (columns right) K r.
Proof.
  intros Hr. unfold key_of_right. apply list_fmap_ext. intros i k Hk.
  apply cell_app_old; [by apply right_row_length|].
  apply list_elem_of_lookup_2 in Hk. rewrite Forall_forall in HK.
  by apply HK in Hk as [??].
Qed.

(** A row of the join whose key is a key of both tables is a matched row. *)
Lemma key_in_both_matched j :
  j ∈ js →
  joined_key lcols rcols K j ∈ key_of_left (columns left) K <$> data left →
  joined_key lcols rcols K j ∈ key_of_right (columns right) K <$> data right →
  status j = 3%Z.
Proof.
  intros Hj%join_rows_spec HL HR. destruct j as [l r|l|r]; simpl in *; [done| |].
  - exfalso. destruct Hj as [Hl Hno].
    apply list_elem_of_fmap in HR as (r0 & Hk & Hr0).
    apply (Hno (r0 ++ [num_of_Z 2])).
    + apply list_elem_of_fmap. by exists r0.
    + by rewrite right_key_marked.
  - exfalso. destruct Hj as [Hr Hno].
    apply list_elem_of_fmap in HL as (l0 & Hk & Hl0).
    apply (Hno (l0 ++ [num_of_Z 1])).
    + apply list_elem_of_fmap. by exists l0.
    + by rewrite left_key_marked.
Qed.

Variables (lt_sfx : ∀ s, s +:+ "_x" ≠ lt ∧ s +:+ "_y" ≠ lt).
Variables (rt_sfx : ∀ s, s +:+ "_x" ≠ rt ∧ s +:+ "_y" ≠ rt).

Let merged : DataFrame :=
  mkFrame (merged_columns lcols rcols K)
    (zip (range_index (length js)) (build_row lcols rcols K <$> js)).

Lemma merged_rows_wf : rows_wf merged.
Proof.
  unfold rows_wf, merged. simpl. apply Forall_forall.
  intros [lbl r] Hr. apply elem_of_zip_r in Hr.
  apply list_elem_of_fmap in Hr as (j & -> & _). apply build_row_length.
Qed.

Lemma merged_length : length (rows merged) = length js.
Proof.
  unfold merged. simpl. rewrite <-(length_fmap (build_row lcols rcols K) js).
  apply zip_range_length.
Qed.

Lemma merged_get_col c vs :
  get_col c merged = Ok vs →
  ∃ i, col_pos c (merged_columns lcols rcols K) = Some i
    ∧ vs = (λ j, default VNaN (build_row lcols rcols K j !! i)) <$> js.
Proof.
  unfold get_col, merged. simpl.
  destruct (col_pos c _) as [i|]; [|done]. intros [= <-]. exists i.
  split; [done|].
  rewrite <-(length_fmap (build_row lcols rcols K) js).
  rewrite (zip_range_fmap (λ r : row, default VNaN (r !! i))).
  by rewrite <-list_fmap_compose.
Qed.

Lemma merged_left_marker a :
  get_col lt merged = Ok a → a = left_mark <$> js.
Proof.
  intros (i & Hi & ->)%merged_get_col. apply list_fmap_ext.
  intros n j Hj%list_elem_of_lookup_2.
  rewrite (merged_left_column _ _ _ lt i j lt_sfx); [| |done].
  - simpl. by apply left_cell_marker.
  - apply elem_of_app. right. apply list_elem_of_here.
Qed.

Lemma merged_right_marker b :
  get_col rt merged = Ok b → b = right_mark <$> js.
Proof.
  intros (i & Hi & ->)%merged_get_col. apply list_fmap_ext.
  intros n j Hj%list_elem_of_lookup_2.
  rewrite (merged_right_column _ _ _ rt i j rt_sfx); [| | |done].
  - simpl. by apply right_cell_marker.
  - apply elem_of_app. right. apply list_elem_of_here.
  - apply marker_not_key.
Qed.
End marked_join.

(** What lines 31-47 compute, read off a call that succeeded. *)
Lemma merge_flag_inv left right gen kw K new :
  wf_frame left → wf_frame right →
  kw_on kw = Some K →
  Forall (λ k, k ∈ columns left ∧ k ∈ columns right) K →
  merge_flag left right gen kw = Ok new →
  ∃ lt rt,
    left_marker (columns left) = Some lt
    ∧ right_marker (columns right) = Some rt
    ∧ let copy_left := set_col_const lt (num_of_Z 1) left in
      let copy_right := set_col_const rt (num_of_Z 2) right in
      let js := join_rows (columns copy_left) (columns copy_right) K
                  (data copy_left) (data copy_right) (kw_how kw) in
      let flags := (λ j, num_of_Z (status j)) <$> js in
      ∃ merged d1,
        pd_merge copy_left copy_right kw = Ok merged
        ∧ rows_wf merged ∧ NoDup (columns merged)
        ∧ length (rows merged) = length js
        ∧ get_col lt merged = Ok (left_mark <$> js)
        ∧ get_col rt merged = Ok (right_mark <$> js)
        ∧ series_add (left_mark <$> js) (right_mark <$> js) = Ok flags
        ∧ del_col lt (set_col gen flags merged) = Ok d1
        ∧ del_col rt d1 = Ok new
        ∧ ∀ j, j ∈ js →
            joined_key (columns copy_left) (columns copy_right) K j
              ∈ combinations left K →
            joined_key (columns copy_left) (columns copy_right) K j
              ∈ combinations right K →
            status j = 3%Z.
Proof.
  intros Hwfl Hwfr Hon HK H. unfold merge_flag in H.
  apply rbind_Ok in H as (lt & Hlt%from_fuel_Ok & H).
  apply rbind_Ok in H as (rt & Hrt%from_fuel_Ok & H).
  destruct (left_marker_spec _ _ Hlt) as [Hlt_fresh Hlt_sfx].
  destruct (right_marker_spec _ _ Hrt) as [Hrt_fresh Hrt_sfx].
  exists lt, rt. split; [done|]. split; [done|].
  rewrite !set_col_const_fresh in H |- * by done.
  cbv zeta. simpl columns. rewrite !data_marked.
  apply rbind_Ok in H as (merged & Hm & H).
  pose proof (pd_merge_inv _ _ _ _ _ Hon Hm) as (HKne & _ & Hnd & Hmerged).
  simpl columns in Hnd, Hmerged. rewrite !data_marked in Hmerged.
  apply rbind_Ok in H as (a & Ha & H).
  apply rbind_Ok in H as (b & Hb & H).
  apply rbind_Ok in H as (flags & Hflags & H).
  apply rbind_Ok in H as (d1 & Hd1 & Hd2).
  rewrite Hmerged in Ha, Hb.
  pose proof Ha as Ha'. pose proof Hb as Hb'.
  eapply merged_left_marker in Ha'; eauto.
  eapply merged_right_marker in Hb'; eauto.
  subst a b.
  rewrite (series_add_fmap _ _ (λ j, num_of_Z (status j))) in Hflags
    by (intros; apply status_add).
  injection Hflags as <-.
  exists merged, d1. rewrite Hm. subst merged.
  split; [done|]. split; [by eapply merged_rows_wf|].
  split; [done|]. split; [by eapply merged_length|].
  split; [done|]. split; [done|].
  split; [apply series_add_fmap; intros; apply status_add|].
  split; [done|]. split; [done|].
  intros j Hj HL HR.
  apply (key_in_both_matched left right lt rt K (kw_how kw) Hwfl Hwfr HK j Hj).
  - unfold combinations in HL. unfold data.
    rewrite <-list_fmap_compose. exact HL.
  - unfold combinations in HR. unfold data.
    rewrite <-list_fmap_compose. exact HR.
Qed.




(** ** The caller's tables are left alone *)

Module HeapFacts.
Import Heap.

Lemma keeps_mono {A} n (m : St A) (Q Q' : A → Prop) :
  keeps n m Q → (∀ a, Q a → Q' a) → keeps n m Q'.
Proof.
  intros Hm HQ h Hn. destruct (Hm h Hn) as (H1 & H2 & H3).
  split; [done|]. split; [done|]. intros a Ha. by apply HQ, H3.
Qed.

Lemma keeps_ret {A} n (a : A) (Q : A → Prop) : Q a → keeps n (mret a) Q.
Proof.
  intros Ha h Hn. split; [done|]. split; [done|].
  simpl. by intros ? [= <-].
Qed.

Lemma keeps_bind {A B} n (m : St A) (k : A → St B) (Q : A → Prop) (R : B → Prop) :
  keeps n m Q → (∀ a, Q a → keeps n (k a) R) → keeps n (m ≫= k) R.
Proof.
  intros Hm Hk h Hn. destruct (Hm h Hn) as (H1 & H2 & H3).
  unfold mbind, St_bind.
  destruct (m h) as [h1 [out [a|e]]]; simpl in *; [|done].
  destruct (Hk a (H3 a eq_refl) h1 H2) as (K1 & K2 & K3).
  split; [congruence|]. split; [done|]. done.
Qed.

Lemma keeps_lift_py {A} n (m : Py A) : keeps n (lift_py m) (λ _, True).
Proof. intros h Hn. by repeat split. Qed.

Lemma keeps_lift_result {A} n (r : result A) : keeps n (lift_result r) (λ _, True).
Proof. apply keeps_lift_py. Qed.

Lemma keeps_load n l : keeps n (load l) (λ _, True).
Proof. intros h Hn. by repeat split. Qed.

(** A new object lies beyond the objects that were there. *)
Lemma keeps_alloc n df : keeps n (alloc df) (λ l, n ≤ l).
Proof.
  intros h Hn. unfold alloc. simpl. split; [|split].
  - by rewrite take_app_le.
  - rewrite length_app. lia.
  - by intros a [= <-].
Qed.

(** Writing to an object beyond the first [n] keeps the first [n]. *)
Lemma keeps_store n l df : n ≤ l → keeps n (store l df) (λ _, True).
Proof.
  intros Hl h Hn. change ((store l df h).1) with (<[l:=df]> h).
  split; [|split]; [| |done].
  - by rewrite take_insert_ge.
  - by rewrite length_insert.
Qed.

Lemma keeps_copy n l : keeps n (copy l) (λ l', n ≤ l').
Proof.
  unfold copy. eapply keeps_bind; [apply keeps_load|].
  intros df _. apply keeps_alloc.
Qed.

Lemma keeps_setitem_const n l c v :
  n ≤ l → keeps n (setitem_const l c v) (λ _, True).
Proof.
  intros Hl. unfold setitem_const. eapply keeps_bind; [apply keeps_load|].
  intros df _. by apply keeps_store.
Qed.

Lemma keeps_setitem n l c vs : n ≤ l → keeps n (setitem l c vs) (λ _, True).
Proof.
  intros Hl. unfold setitem. eapply keeps_bind; [apply keeps_load|].
  intros df _. by apply keeps_store.
Qed.

Lemma keeps_getitem n l c : keeps n (getitem l c) (λ _, True).
Proof.
  unfold getitem. eapply keeps_bind; [apply keeps_load|].
  intros df _. apply keeps_lift_result.
Qed.

Lemma keeps_delitem n l c : n ≤ l → keeps n (delitem l c) (λ _, True).
Proof.
  intros Hl. unfold delitem. eapply keeps_bind; [apply keeps_load|].
  intros df _. eapply keeps_bind; [apply keeps_lift_result|].
  intros df' _. by apply keeps_store.
Qed.

Lemma keeps_merge n a b kw : keeps n (merge a b kw) (λ l, n ≤ l).
Proof.
  unfold merge. eapply keeps_bind; [apply keeps_load|]. intros da _.
  eapply keeps_bind; [apply keeps_load|]. intros db _.
  eapply keeps_bind; [apply keeps_lift_result|]. intros out _.
  apply keeps_alloc.
Qed.

Create HintDb keeps discriminated.
#[local] Hint Resolve keeps_load keeps_lift_py keeps_lift_result keeps_getitem
  keeps_copy keeps_merge keeps_alloc : keeps.
#[local] Hint Resolve keeps_store keeps_setitem keeps_setitem_const keeps_delitem
  : keeps.

(** One statement of the body after the other. *)
Ltac keeps_step :=
  lazymatch goal with
  | |- keeps _ (_ ≫= _) _ =>
      eapply keeps_bind; [solve [eauto with keeps] | intros ? ?]
  | |- keeps _ (mret _) _ => apply keeps_ret; try done
  | |- keeps _ _ _ => eapply keeps_mono; [solve [eauto with keeps] | done]
  end.

Lemma stata_merge_keeps n left right assertval gen kw :
  keeps n (Heap.stata_merge left right assertval gen kw) (λ _, True).
Proof.
  unfold Heap.stata_merge. do 15 keeps_step.
  destruct (truthy assertval) as [v|].
  - keeps_step. destruct (forallb _ _); repeat keeps_step.
  - repeat keeps_step.
Qed.

Lemma winsorize_keeps n df by_ p :
  keeps n (Heap.winsorize df by_ p) (λ _, True).
Proof. unfold Heap.winsorize. repeat keeps_step. Qed.

(** C9: whatever heap the call starts from and whichever objects [left] and
    [right] refer to (the same object twice included), the objects of the
    heap are the same after [stata_merge] as before, also when the call
    raises: the call only writes to the copies and to the table it returns.
    The same holds for [winsorize]. *)
Theorem inputs_not_mutated (h : heap) :
  (∀ left right assertval gen kw,
     take (length h) (Heap.stata_merge left right assertval gen kw h).1 = h)
  ∧ (∀ df by_ p, take (length h) (Heap.winsorize df by_ p h).1 = h).
Proof.
  split.
  - intros left right assertval gen kw.
    destruct (stata_merge_keeps (length h) left right assertval gen kw h)
      as [H _]; [done|].
    by rewrite H, firstn_all.
  - intros df by_ p.
    destruct (winsorize_keeps (length h) df by_ p h) as [H _]; [done|].
    by rewrite H, firstn_all.
Qed.

End HeapFacts.

(** ** group_id with merge *)

(** C2: [group_id] with [merge=True] does not return on every table whose
    columns do not include the id name.  On a table with a column [_m] the
    status column of the inner [stata_merge] overwrites that column and is
    then deleted, so the result has as many columns as the input and the
    assertion of line 88 fails.  On a table with a column [tmpb] the right
    marker collides with it and the call raises [KeyError]; an id name
    [tmpa] collides with the left marker in the same way. *)
Theorem group_id_merge_collisions :
  ("group_id" ∉ columns Examples.T_m)
  ∧ group_id Examples.T_m (Some ["k"]) "group_id" true = ([], Raise AssertionError)
  ∧ ("group_id" ∉ columns Examples.T_tmpb)
  ∧ group_id Examples.T_tmpb (Some ["k"]) "group_id" true = ([], Raise KeyError)
  ∧ ("tmpa" ∉ columns Examples.T)
  ∧ group_id Examples.T (Some ["k"]) "tmpa" true = ([], Raise KeyError).
Proof. repeat split; try compute_done; by vm_compute. Qed.

(** ** Tables given row by row *)

Section mapped_frame.
Context {T : Type} (ts : list T) (lbl : T → value).

Lemma col_pos_middle c (A B : list string) :
  c ∉ A → col_pos c (A ++ c :: B) = Some (length A).
Proof.
  intros Hc. rewrite col_pos_app_r by done. simpl.
  rewrite decide_True by done. simpl. f_equal. lia.
Qed.

Lemma get_col_mapped A c B (a b : T → row) (x : T → value) cols (r : T → row) :
  cols = A ++ c :: B → (∀ t, r t = a t ++ x t :: b t) →
  c ∉ A → (∀ t, t ∈ ts → length (a t) = length A) →
  get_col c (mkFrame cols ((λ t, (lbl t, r t)) <$> ts)) = Ok (x <$> ts).
Proof.
  intros -> Hr Hc Hlen. unfold get_col. simpl. rewrite col_pos_middle by done.
  f_equal. rewrite <-list_fmap_compose. apply list_fmap_ext.
  intros i t Ht%list_elem_of_lookup_2. simpl.
  by rewrite Hr, <-(Hlen t Ht), list_lookup_middle.
Qed.

Lemma del_col_mapped A c B (a b : T → row) (x : T → value) cols (r : T → row) :
  cols = A ++ c :: B → (∀ t, r t = a t ++ x t :: b t) →
  c ∉ A → (∀ t, t ∈ ts → length (a t) = length A) →
  del_col c (mkFrame cols ((λ t, (lbl t, r t)) <$> ts))
  = Ok (mkFrame (A ++ B) ((λ t, (lbl t, a t ++ b t)) <$> ts)).
Proof.
  intros -> Hr Hc Hlen. unfold del_col. simpl. rewrite col_pos_middle by done.
  f_equal. rewrite delete_middle. f_equal.
  rewrite <-list_fmap_compose. apply list_fmap_ext.
  intros i t Ht%list_elem_of_lookup_2. simpl.
  by rewrite Hr, <-(Hlen t Ht), delete_middle.
Qed.

Lemma set_col_mapped cols c (r : T → row) (v : T → value) :
  c ∉ cols →
  set_col c (v <$> ts) (mkFrame cols ((λ t, (lbl t, r t)) <$> ts))
  = mkFrame (cols ++ [c]) ((λ t, (lbl t, r t ++ [v t])) <$> ts).
Proof.
  intros Hc%col_pos_None. unfold set_col. simpl. rewrite Hc. f_equal.
  induction ts as [|t ts' IH]; csimpl; [done | by rewrite IH].
Qed.
End mapped_frame.

(** ** Joining a table to the table of its combinations *)

Section first_index.
Context `{EqDecision A}.

Lemma first_index_Some (x : A) l i : first_index x l = Some i → l !! i = Some x.
Proof.
  revert i; induction l as [|y l IH]; intros i; simpl; [done|].
  case_decide; [by intros [= <-]; subst|].
  destruct (first_index x l); [|done]. intros [= <-]. by apply IH.
Qed.

Lemma first_index_elem_of (x : A) l : x ∈ l → is_Some (first_index x l).
Proof.
  induction l as [|y l IH]; simpl; [by intros ?%elem_of_nil|].
  intros [->|Hin]%elem_of_cons.
  - case_decide; [by exists 0 | done].
  - case_decide; [by exists 0|]. destruct (IH Hin) as [i ->]. by exists (S i).
Qed.

Lemma filter_none {B} (P : B → Prop) `{!∀ y, Decision (P y)} (l : list B) :
  Forall (λ y, ¬ P y) l → filter P l = [].
Proof.
  induction 1 as [|y l Hy _ IH]; [done|]. by rewrite filter_cons_False.
Qed.

(** In a list whose items have distinct images under [h], filtering on the
    image of an item leaves that item alone. *)
Lemma filter_unique {B} (h : B → A) (l : list B) (x : B) :
  NoDup (h <$> l) → x ∈ l → filter (λ y, h x = h y) l = [x].
Proof.
  induction l as [|y l IH]; csimpl; [by intros _ ?%elem_of_nil|].
  intros [Hy Hnd]%NoDup_cons [->|Hin]%elem_of_cons.
  - rewrite filter_cons_True by done. f_equal.
    apply filter_none, Forall_forall. intros z Hz Heq. apply Hy.
    rewrite Heq. apply list_elem_of_fmap. by exists z.
  - rewrite filter_cons_False; [by apply IH|].
    intros Heq. apply Hy. rewrite <-Heq. apply list_elem_of_fmap. by exists x.
Qed.
End first_index.

Lemma row_cells_id cols (r : row) :
  NoDup cols → length r = length cols → cell cols r <$> cols = r.
Proof.
  intros Hnd Hlen. apply list_eq. intros i. rewrite list_lookup_fmap.
  destruct (cols !! i) as [c|] eqn:Hc; simpl.
  - unfold cell. rewrite (col_pos_NoDup _ _ _ Hnd Hc).
    destruct (r !! i) eqn:Hr; [done|].
    apply lookup_ge_None in Hr. apply lookup_lt_Some in Hc. lia.
  - symmetry. apply lookup_ge_None. apply lookup_ge_None in Hc. lia.
Qed.

Lemma bind_singletons {A B C} (m : A → B) (f : B → list C) (g : A → C) (l : list A) :
  (∀ x, x ∈ l → f (m x) = [g x]) → (m <$> l) ≫= f = g <$> l.
Proof.
  induction l as [|x l IH]; intros H; csimpl; [done|].
  rewrite H by left. simpl. f_equal. apply IH. intros y Hy. apply H. by right.
Qed.

Lemma zip_fmap_r_pairs {A B C} (f : B → C) (l : list A) (k : list B) :
  zip l (f <$> k) = (λ t : A * B, (t.1, f t.2)) <$> zip l k.
Proof.
  revert k; induction l as [|x l IH]; intros [|y k]; csimpl; try done.
  by rewrite IH.
Qed.

(** The key a row of the table of combinations has, once the id is put in
    front and the marker behind. *)
Lemma key_of_numbered name rt K (f : string → value) x y :
  name ∉ K →
  key_of_right (name :: K ++ [rt]) K (x :: (f <$> K) ++ [y]) = f <$> K.
Proof.
  intros Hname. unfold key_of_right. apply list_fmap_ext.
  intros i c Hc%list_elem_of_lookup_2. unfold cell. simpl.
  rewrite decide_False by (by intros ->).
  rewrite col_pos_app_l by done.
  destruct (col_pos_is_Some c K Hc) as [q Hq]. rewrite Hq. simpl.
  pose proof (col_pos_lt _ _ _ Hq). apply col_pos_Some in Hq.
  rewrite lookup_app_l by (by rewrite length_fmap).
  by rewrite list_lookup_fmap, Hq.
Qed.

Section merge_back.
Variables (df : DataFrame) (K : list string) (name lt rt : string).
Hypothesis Hwf : wf_frame df.
Hypothesis HKne : K ≠ [].
Hypothesis HK : Forall (λ c, c ∈ columns df) K.
Hypothesis HKnd : NoDup K.
Hypothesis Hname : name ∉ columns df.
Hypothesis Hlt : left_marker (columns df) = Some lt.
Hypothesis Hrt : right_marker (name :: K) = Some rt.
Hypothesis Hname_lt : name ≠ lt.
Hypothesis Hrt_df : rt ∉ columns df.
Hypothesis Hm_df : "_m" ∉ columns df.
Hypothesis Hm_name : name ≠ "_m".

Let combos := first_seen (combinations df K).
Let key (l : row) : row := cell (columns df) l <$> K.
Let lcols := columns df ++ [lt].
Let rcols := (name :: K) ++ [rt].
Let ls := (λ r : row, r ++ [num_of_Z 1]) <$> data df.
Let rs := (λ r : row, r ++ [num_of_Z 2]) <$> data (mkFrame (name :: K) (numbered combos)).
Let right_row (l : row) : row := (id_of df K l :: key l) ++ [num_of_Z 2].

Lemma mb_names :
  (lt ∉ columns df) ∧ (lt ∉ K) ∧ (rt ∉ K) ∧ (name ∉ K) ∧ rt ≠ name ∧ lt ≠ rt
  ∧ lt ≠ "_m" ∧ rt ≠ "_m".
Proof.
  destruct (left_marker_spec _ _ Hlt) as [Hl _].
  destruct (right_marker_spec _ _ Hrt) as [Hr _].
  pose proof (left_marker_last _ _ Hlt) as Hla.
  pose proof (right_marker_last _ _ Hrt) as Hlb.
  rewrite Forall_forall in HK. rewrite not_elem_of_cons in Hr.
  destruct Hr as [Hr1 Hr2].
  repeat split; try done.
  - intros Hin. by apply Hl, HK.
  - intros Hin. by apply Hname, HK.
  - intros ->. rewrite Hla in Hlb. done.
  - intros ->. done.
  - intros ->. done.
Qed.

Lemma mb_key_in_combos l : l ∈ data df → key l ∈ combos.
Proof.
  intros (r & -> & Hr)%list_elem_of_fmap. unfold combos.
  rewrite first_seen_elem_of. unfold combinations.
  apply list_elem_of_fmap. by exists r.
Qed.

Lemma mb_combo_shape k : k ∈ combos → ∃ f : string → value, k = f <$> K.
Proof.
  unfold combos. rewrite first_seen_elem_of. unfold combinations.
  intros (r & -> & _)%list_elem_of_fmap. by eexists.
Qed.

Lemma mb_right_keys : key_of_right rcols K <$> rs = combos.
Proof.
  unfold rs, data, numbered. simpl. rewrite <-!list_fmap_compose.
  etrans; [|apply (snd_zip (range_index (length combos)) combos);
            unfold range_index; by rewrite length_fmap, length_seq].
  apply list_fmap_ext. intros i [x k] Hk. simpl.
  apply list_elem_of_lookup_2, elem_of_zip_r, mb_combo_shape in Hk as [f ->].
  apply (key_of_numbered name rt K f x). apply mb_names.
Qed.

Lemma mb_right_row_in l : l ∈ data df → right_row l ∈ rs.
Proof.
  intros Hl. unfold right_row, rs, id_of. fold combos. fold (key l).
  destruct (first_index_elem_of (key l) combos (mb_key_in_combos l Hl)) as [i Hi].
  rewrite Hi. apply first_index_Some, numbered_lookup in Hi.
  apply list_elem_of_fmap. exists (num_of_nat i :: key l). split; [done|].
  unfold data. simpl. apply list_elem_of_fmap.
  exists (num_of_nat i, num_of_nat i :: key l).
  split; [done|]. by eapply list_elem_of_lookup_2.
Qed.

Lemma mb_right_row_key l :
  l ∈ data df → key_of_right rcols K (right_row l) = key l.
Proof.
  intros Hl. unfold right_row, rcols, key. simpl.
  apply (key_of_numbered name rt K). apply mb_names.
Qed.

Lemma mb_left_key l :
  l ∈ data df → key_of_left lcols K (l ++ [num_of_Z 1]) = key l.
Proof.
  intros Hl. unfold key_of_left, key. apply list_fmap_ext.
  intros i c Hc%list_elem_of_lookup_2. apply cell_app_old.
  - destruct Hwf as [_ Hlen]. rewrite Forall_forall in Hlen.
    apply list_elem_of_fmap in Hl as (r & -> & Hr). by apply Hlen.
  - rewrite Forall_forall in HK. by apply HK.
Qed.

Lemma mb_matches l :
  l ∈ data df →
  filter (λ r, key_match lcols rcols K (l ++ [num_of_Z 1]) r) rs = [right_row l].
Proof.
  intros Hl.
  rewrite <-(filter_unique (key_of_right rcols K) rs (right_row l)).
  - apply list_filter_iff. intros r. rewrite key_match_true.
    by rewrite mb_left_key, mb_right_row_key.
  - rewrite mb_right_keys. apply first_seen_NoDup.
  - by apply mb_right_row_in.
Qed.

Lemma mb_left_join :
  left_join lcols rcols K ls rs
  = (λ l, Both (l ++ [num_of_Z 1]) (right_row l)) <$> data df.
Proof.
  unfold left_join, ls. apply bind_singletons.
  intros l Hl. by rewrite mb_matches.
Qed.
Lemma mb_row_length l : l ∈ data df → length l = length (columns df).
Proof.
  destruct Hwf as [_ Hlen]. rewrite Forall_forall in Hlen.
  intros (r & -> & Hr)%list_elem_of_fmap. by apply Hlen.
Qed.

Lemma mb_right_nonkey : right_nonkey rcols K = [name; rt].
Proof.
  destruct mb_names as (_ & _ & HrK & HnK & _).
  unfold right_nonkey, rcols. simpl.
  rewrite filter_cons_True, filter_app by done.
  rewrite filter_none by (apply Forall_forall; intros c Hc Hn; done).
  by rewrite filter_cons_True by done.
Qed.

Lemma mb_NoDup_lcols : NoDup lcols.
Proof.
  destruct Hwf as [Hnd _]. destruct mb_names as (Hl & _).
  apply NoDup_app. split; [done|]. split; [|apply NoDup_singleton].
  by intros c Hc ->%list_elem_of_singleton.
Qed.

Lemma mb_build_row l :
  l ∈ data df →
  build_row lcols rcols K (Both (l ++ [num_of_Z 1]) (right_row l))
  = l ++ [num_of_Z 1; id_of df K l; num_of_Z 2].
Proof.
  intros Hl. destruct mb_names as (_ & _ & HrK & HnK & Hrn & _).
  simpl. rewrite mb_right_nonkey.
  rewrite row_cells_id; [|apply mb_NoDup_lcols|].
  2:{ unfold lcols. rewrite !length_app. simpl. by rewrite mb_row_length. }
  rewrite <-app_assoc. f_equal. simpl. f_equal. f_equal.
  - unfold cell, rcols. simpl. by rewrite decide_True.
  - f_equal. unfold right_row, rcols. apply cell_app_new.
    + simpl. unfold key. by rewrite length_fmap.
    + rewrite not_elem_of_cons. done.
Qed.

Lemma mb_merged_columns :
  merged_columns lcols rcols K = columns df ++ [lt; name; rt].
Proof.
  destruct mb_names as (Hl & HlK & HrK & HnK & Hrn & Hlr & _).
  unfold merged_columns. rewrite mb_right_nonkey.
  assert (out_left_name rcols K <$> lcols = lcols) as ->.
  { rewrite <-(list_fmap_id lcols) at 2. apply list_fmap_ext.
    intros i c Hc%list_elem_of_lookup_2. simpl.
    unfold out_left_name. rewrite decide_False; [done|].
    intros [HcK Hcr]. unfold rcols, lcols in *.
    rewrite ?elem_of_app, ?elem_of_cons, ?elem_of_nil in Hcr.
    rewrite ?elem_of_app, ?elem_of_cons, ?elem_of_nil in Hc.
    destruct Hcr as [[->|?]|[->|[]]]; [|done|]; destruct Hc as [?|[?|[]]]; done. }
  unfold lcols. rewrite <-app_assoc. f_equal. simpl. f_equal.
  unfold out_right_name. rewrite !decide_False; [done| |].
  - unfold lcols. rewrite elem_of_app, list_elem_of_singleton.
    intros [?|?]; done.
  - unfold lcols. rewrite elem_of_app, list_elem_of_singleton.
    intros [?|?]; done.
Qed.

Lemma mb_NoDup : NoDup (columns df ++ [lt; name; rt]).
Proof.
  destruct Hwf as [Hnd _].
  destruct mb_names as (Hl & HlK & HrK & HnK & Hrn & Hlr & _).
  apply NoDup_app. split; [done|]. split.
  - intros c Hc. rewrite !elem_of_cons, elem_of_nil.
    intros [->|[->|[->|[]]]]; done.
  - repeat (apply NoDup_cons; split); rewrite ?elem_of_cons, ?elem_of_nil;
      try apply NoDup_nil_2; naive_solver.
Qed.

Let ts := zip (range_index (length (data df))) (data df).

Lemma mb_ts_length t : t ∈ ts → length t.2 = length (columns df).
Proof.
  destruct t as [x l]. intros Ht%elem_of_zip_r. by apply mb_row_length.
Qed.

Lemma mb_pd_merge :
  pd_merge (mkFrame lcols ((λ r : value * row, (r.1, r.2 ++ [num_of_Z 1])) <$> rows df))
           (mkFrame rcols ((λ r : value * row, (r.1, r.2 ++ [num_of_Z 2]))
                             <$> numbered combos))
           (mkKwargs (Some K) how_left)
  = Ok (mkFrame (columns df ++ [lt; name; rt])
          ((λ t : value * row,
              (t.1, t.2 ++ [num_of_Z 1; id_of df K t.2; num_of_Z 2])) <$> ts)).
Proof.
  destruct mb_names as (Hl & HlK & HrK & HnK & Hrn & Hlr & _).
  unfold pd_merge. simpl kw_on. simpl columns.
  assert (merge_keys (Some K) lcols rcols = Ok K) as ->.
  { apply merge_keys_Ok; [done| | |].
    - unfold lcols. apply NoDup_app. split; [apply Hwf|].
      split; [|apply NoDup_singleton]. by intros c Hc ->%list_elem_of_singleton.
    - unfold rcols. apply NoDup_app. split; [by apply NoDup_cons|].
      split; [|apply NoDup_singleton].
      intros c [->|Hc]%elem_of_cons ->%list_elem_of_singleton; done.
    - rewrite Forall_forall in HK |- *. intros c Hc. unfold lcols, rcols.
      split; [apply elem_of_app; left; by apply HK|].
      apply elem_of_app. left. by right. }
  simpl. rewrite mb_merged_columns, decide_True by apply mb_NoDup.
  f_equal. f_equal.
  change (join_rows lcols rcols K ?a ?b how_left) with (left_join lcols rcols K a b).
  assert (data (mkFrame lcols ((λ r : value * row, (r.1, r.2 ++ [num_of_Z 1]))
                                 <$> rows df)) = ls) as ->
    by apply (data_marked lt (num_of_Z 1) df).
  assert (data (mkFrame rcols ((λ r : value * row, (r.1, r.2 ++ [num_of_Z 2]))
                                 <$> numbered combos)) = rs) as ->
    by apply (data_marked rt (num_of_Z 2) (mkFrame (name :: K) (numbered combos))).
  rewrite mb_left_join, <-list_fmap_compose.
  assert (build_row lcols rcols K ∘ (λ l, Both (l ++ [num_of_Z 1]) (right_row l))
            <$> data df
          = (λ l, l ++ [num_of_Z 1; id_of df K l; num_of_Z 2]) <$> data df) as ->.
  { apply list_fmap_ext. intros i l Hin%list_elem_of_lookup_2. simpl.
    by apply mb_build_row. }
  rewrite length_fmap. unfold ts.
  apply (zip_fmap_r_pairs (λ l, l ++ [num_of_Z 1; id_of df K l; num_of_Z 2])).
Qed.

(** Lines 31-47 on the table and the table of its combinations. *)
Lemma mb_merge_flag :
  merge_flag df (mkFrame (name :: K) (numbered combos)) "_m"
    (mkKwargs (Some K) how_left)
  = Ok (mkFrame (columns df ++ [name; "_m"])
          ((λ t : value * row, (t.1, t.2 ++ [id_of df K t.2; num_of_Z 3])) <$> ts)).
Proof.
  destruct mb_names as (Hl & HlK & HrK & HnK & Hrn & Hlr & Hlm & Hrm).
  destruct (right_marker_spec _ _ Hrt) as [Hr _].
  unfold merge_flag. simpl columns. rewrite Hlt, Hrt. simpl.
  rewrite !set_col_const_fresh by done. simpl columns. simpl rows.
  pose proof mb_pd_merge as Hpm. unfold lcols, rcols in Hpm. rewrite Hpm.
  clear Hpm. simpl.
  assert (∀ t, t ∈ ts → length (t.2 ++ [num_of_Z 1; id_of df K t.2])
                        = length (columns df ++ [lt; name])) as Hlen2.
  { intros t Ht. rewrite !length_app. simpl. by rewrite mb_ts_length. }
  assert (∀ t, t ∈ ts → length (t.2 ++ [id_of df K t.2])
                        = length (columns df ++ [name])) as Hlen1.
  { intros t Ht. rewrite !length_app. simpl. by rewrite mb_ts_length. }
  rewrite (get_col_mapped ts fst (columns df) lt [name; rt]
             snd (λ t, [id_of df K t.2; num_of_Z 2]) (λ _, num_of_Z 1));
    [|done|done|done|apply mb_ts_length].
  simpl.
  rewrite (get_col_mapped ts fst (columns df ++ [lt; name]) rt []
             (λ t, t.2 ++ [num_of_Z 1; id_of df K t.2]) (λ _, [])
             (λ _, num_of_Z 2));
    [|by rewrite <-app_assoc|by intros; rewrite <-app_assoc| |done].
  2:{ rewrite elem_of_app, !elem_of_cons, elem_of_nil. naive_solver. }
  simpl.
  rewrite (series_add_fmap _ _ (λ _, num_of_Z 3))
    by (intros; apply (add_fill0_num_num 1 2)).
  simpl.
  rewrite (set_col_mapped ts fst _ "_m" _ (λ _, num_of_Z 3)).
  2:{ rewrite elem_of_app, !elem_of_cons, elem_of_nil. naive_solver. }
  rewrite (del_col_mapped ts fst (columns df) lt [name; rt; "_m"]
             snd (λ t, [id_of df K t.2; num_of_Z 2; num_of_Z 3]) (λ _, num_of_Z 1));
    [|by rewrite <-app_assoc|by intros; rewrite <-app_assoc|done|apply mb_ts_length].
  simpl.
  rewrite (del_col_mapped ts fst (columns df ++ [name]) rt ["_m"]
             (λ t, t.2 ++ [id_of df K t.2]) (λ _, [num_of_Z 3]) (λ _, num_of_Z 2));
    [|by rewrite <-app_assoc|by intros; rewrite <-app_assoc| |done].
  2:{ rewrite elem_of_app, !elem_of_cons, elem_of_nil. naive_solver. }
  f_equal. f_equal; [by rewrite <-app_assoc|].
  apply list_fmap_ext. intros i t _. simpl. by rewrite <-app_assoc.
Qed.

Lemma mb_stata_merge :
  stata_merge df (mkFrame (name :: K) (numbered combos)) (Some 3%Z) "_m"
    (mkKwargs (Some K) how_left)
  = ([], Ok (mkFrame (columns df ++ [name])
               ((λ t : value * row, (t.1, t.2 ++ [id_of df K t.2])) <$> ts))).
Proof.
  unfold stata_merge. rewrite mb_merge_flag, py_bind_lift_Ok.
  unfold check_flag. simpl truthy. cbv iota.
  assert (∀ t, t ∈ ts → length (t.2 ++ [id_of df K t.2])
                        = length (columns df ++ [name])) as Hlen1.
  { intros t Ht. rewrite !length_app. simpl. by rewrite mb_ts_length. }
  assert ("_m" ∉ columns df ++ [name]) as Hm.
  { rewrite elem_of_app, !elem_of_cons, elem_of_nil. naive_solver. }
  rewrite (get_col_mapped ts fst (columns df ++ [name]) "_m" []
             (λ t, t.2 ++ [id_of df K t.2]) (λ _, []) (λ _, num_of_Z 3));
    [|by rewrite <-app_assoc|by intros; rewrite <-app_assoc|done|done].
  rewrite py_bind_lift_Ok.
  assert (forallb (λ v, elem_eqb v (num_of_Z 3)) ((λ _, num_of_Z 3) <$> ts) = true)
    as ->.
  { apply forallb_forall. intros v (t & -> & _)%list_elem_of_In%list_elem_of_fmap.
    by apply elem_eqb_num. }
  rewrite (del_col_mapped ts fst (columns df ++ [name]) "_m" []
             (λ t, t.2 ++ [id_of df K t.2]) (λ _, []) (λ _, num_of_Z 3));
    [|by rewrite <-app_assoc|by intros; rewrite <-app_assoc|done|done].
  unfold lift. f_equal. f_equal. f_equal; [by rewrite app_nil_r|].
  apply list_fmap_ext. intros i t _. simpl. by rewrite app_nil_r.
Qed.

Lemma mb_ts_length_rows : length ts = length (rows df).
Proof.
  unfold ts, data. rewrite zip_range_length. by rewrite length_fmap.
Qed.

Lemma mb_set_index :
  zip (index df) (data (mkFrame (columns df ++ [name])
         ((λ t : value * row, (t.1, t.2 ++ [id_of df K t.2])) <$> ts)))
  = (λ r : value * row, (r.1, r.2 ++ [id_of df K r.2])) <$> rows df.
Proof.
  unfold data at 1. simpl. rewrite <-list_fmap_compose.
  assert (snd ∘ (λ t : value * row, (t.1, t.2 ++ [id_of df K t.2])) <$> ts
          = (λ l : row, l ++ [id_of df K l]) <$> data df) as ->
    by apply (zip_range_fmap (λ l : row, l ++ [id_of df K l]) (data df)).
  unfold index, data. by rewrite zip_fmap_r_pairs, zip_fst_snd.
Qed.
End merge_back.

(** With [merge=True], on a well-formed table none of whose columns is the
    id name, the status name [_m] or the right marker, with key columns
    none of which is named twice, and with an id name that is neither [_m]
    nor the left marker, [group_id] returns the table with the id column
    appended: the rows, their labels and their order are those of the
    table, and each row has the id of its combination.  (A key column that
    is named twice is twice a column of the table of combinations, which
    [pd.merge] refuses as a key.) *)
Lemma group_id_merge_spec df cols name lt rt :
  wf_frame df →
  name ∉ columns df →
  key_columns df cols ≠ [] →
  Forall (λ c, c ∈ columns df) (key_columns df cols) →
  NoDup (key_columns df cols) →
  left_marker (columns df) = Some lt →
  right_marker (name :: key_columns df cols) = Some rt →
  name ≠ lt → rt ∉ columns df → "_m" ∉ columns df → name ≠ "_m" →
  group_id df cols name true
  = ([], Ok (mkFrame (columns df ++ [name])
               ((λ r : value * row,
                   (r.1, r.2 ++ [id_of df (key_columns df cols) r.2])) <$> rows df))).
Proof.
  intros Hwf Hname HKne HK HKnd Hlt Hrt Hnl Hrdf Hmdf Hmn.
  unfold group_id. rewrite decide_False by done.
  change (match cols with None | Some [] => columns df | Some cs => cs end)
    with (key_columns df cols).
  rewrite unique_table_Ok, py_bind_lift_Ok by done.
  rewrite (mb_stata_merge df _ name lt rt) by done.
  unfold mbind, Py_bind. simpl.
  rewrite length_fmap, (mb_ts_length_rows df), length_app. simpl.
  rewrite bool_decide_true by done. simpl.
  unfold set_index. simpl. unfold index.
  rewrite !length_fmap, (mb_ts_length_rows df), decide_True by done.
  simpl. f_equal. f_equal. f_equal.
  by apply mb_set_index.
Qed.

(** ** The two versions of [stata_merge] and [winsorize] agree *)

Module HeapRun.

Lemma run_eta {A} (r : Heap.heap * Py A) : (r.1, ([] ++ r.2.1, r.2.2)) = r.
Proof. by destruct r as [? [? ?]]. Qed.

Lemma bind_load {B} l (k : DataFrame → Heap.St B) h :
  (Heap.load l ≫= k) h = k (default (mkFrame [] []) (h !! l)) h.
Proof. unfold mbind, Heap.St_bind, Heap.load. simpl. apply run_eta. Qed.

Lemma bind_alloc {B} df (k : Heap.ref → Heap.St B) h :
  (Heap.alloc df ≫= k) h = k (length h) (h ++ [df]).
Proof. unfold mbind, Heap.St_bind, Heap.alloc. simpl. apply run_eta. Qed.

Lemma bind_store {B} l df (k : unit → Heap.St B) h :
  (Heap.store l df ≫= k) h = k tt (<[l:=df]> h).
Proof. unfold mbind, Heap.St_bind, Heap.store. simpl. apply run_eta. Qed.

Lemma bind_lift_result {A B} (r : result A) (k : A → Heap.St B) h :
  (Heap.lift_result r ≫= k) h
  = match r with Ok a => k a h | Raise e => (h, ([], Raise e)) end.
Proof. destruct r; [|done]. unfold mbind, Heap.St_bind. simpl. apply run_eta. Qed.

Lemma bind_print {B} p (k : unit → Heap.St B) h :
  (Heap.lift_py (print p) ≫= k) h = ((k tt h).1, (p :: (k tt h).2.1, (k tt h).2.2)).
Proof. done. Qed.

Lemma bind_assoc {A B C} (m : Heap.St A) (f : A → Heap.St B) (g : B → Heap.St C) h :
  ((m ≫= f) ≫= g) h = (m ≫= λ a, f a ≫= g) h.
Proof.
  unfold mbind, Heap.St_bind. destruct (m h) as [h1 [o1 [a|e]]]; simpl; [|done].
  destruct (f a h1) as [h2 [o2 [b|e]]]; simpl; [|done].
  destruct (g b h2) as [h3 [o3 r]]; simpl. by rewrite app_assoc.
Qed.

Lemma bind_copy {B} l (k : Heap.ref → Heap.St B) h :
  (Heap.copy l ≫= k) h = k (length h) (h ++ [default (mkFrame [] []) (h !! l)]).
Proof. unfold Heap.copy. by rewrite bind_assoc, bind_load, bind_alloc. Qed.

Lemma bind_setitem_const {B} l c v (k : unit → Heap.St B) h :
  (Heap.setitem_const l c v ≫= k) h
  = k tt (<[l := set_col_const c v (default (mkFrame [] []) (h !! l))]> h).
Proof. unfold Heap.setitem_const. by rewrite bind_assoc, bind_load, bind_store. Qed.

Lemma bind_setitem {B} l c vs (k : unit → Heap.St B) h :
  (Heap.setitem l c vs ≫= k) h
  = k tt (<[l := set_col c vs (default (mkFrame [] []) (h !! l))]> h).
Proof. unfold Heap.setitem. by rewrite bind_assoc, bind_load, bind_store. Qed.

Lemma bind_getitem {B} l c (k : list value → Heap.St B) h :
  (Heap.getitem l c ≫= k) h
  = match get_col c (default (mkFrame [] []) (h !! l)) with
    | Ok vs => k vs h
    | Raise e => (h, ([], Raise e))
    end.
Proof. unfold Heap.getitem. by rewrite bind_assoc, bind_load, bind_lift_result. Qed.

Lemma bind_delitem {B} l c (k : unit → Heap.St B) h :
  (Heap.delitem l c ≫= k) h
  = match del_col c (default (mkFrame [] []) (h !! l)) with
    | Ok df' => k tt (<[l := df']> h)
    | Raise e => (h, ([], Raise e))
    end.
Proof.
  unfold Heap.delitem. rewrite bind_assoc, bind_load, bind_assoc, bind_lift_result.
  destruct (del_col _ _); [|done]. by rewrite bind_store.
Qed.

Lemma bind_merge {B} a b kw (k : Heap.ref → Heap.St B) h :
  (Heap.merge a b kw ≫= k) h
  = match pd_merge (default (mkFrame [] []) (h !! a))
                   (default (mkFrame [] []) (h !! b)) kw with
    | Ok out => k (length h) (h ++ [out])
    | Raise e => (h, ([], Raise e))
    end.
Proof.
  unfold Heap.merge. rewrite bind_assoc, bind_load, bind_assoc, bind_load.
  rewrite bind_assoc, bind_lift_result.
  destruct (pd_merge _ _ _); [|done]. by rewrite bind_alloc.
Qed.

Lemma lookup_0 {A} (h : list A) x t : (h ++ x :: t) !! length h = Some x.
Proof. by apply list_lookup_middle. Qed.
Lemma lookup_1 {A} (h : list A) x y t : (h ++ x :: y :: t) !! S (length h) = Some y.
Proof. rewrite lookup_app_r by lia. by replace (S (length h) - length h) with 1 by lia. Qed.
Lemma lookup_2 {A} (h : list A) x y z t :
  (h ++ x :: y :: z :: t) !! S (S (length h)) = Some z.
Proof.
  rewrite lookup_app_r by lia.
  by replace (S (S (length h)) - length h) with 2 by lia.
Qed.
Lemma insert_0 {A} (h : list A) a x t : <[length h := a]> (h ++ x :: t) = h ++ a :: t.
Proof. rewrite insert_app_r_alt by lia. by rewrite Nat.sub_diag. Qed.
Lemma insert_1 {A} (h : list A) a x y t :
  <[S (length h) := a]> (h ++ x :: y :: t) = h ++ x :: a :: t.
Proof.
  rewrite insert_app_r_alt by lia.
  by replace (S (length h) - length h) with 1 by lia.
Qed.
Lemma insert_2 {A} (h : list A) a x y z t :
  <[S (S (length h)) := a]> (h ++ x :: y :: z :: t) = h ++ x :: y :: a :: t.
Proof.
  rewrite insert_app_r_alt by lia.
  by replace (S (S (length h)) - length h) with 2 by lia.
Qed.

Lemma result_bind_Ok {A B} (a : A) (k : A → result B) : (Ok a ≫= k) = k a.
Proof. done. Qed.

(** The version over references computes what the version over tables
    computes: the same output, the same exception, and on success a
    reference to the same table. *)
Lemma stata_merge_refines h l r assertval gen kw L R :
  h !! l = Some L → h !! r = Some R →
  let res := Heap.stata_merge l r assertval gen kw h in
  let pure := stata_merge L R assertval gen kw in
  res.2.1 = pure.1 ∧
  match res.2.2, pure.2 with
  | Ok new, Ok df => res.1 !! new = Some df
  | Raise e, Raise e' => e = e'
  | _, _ => False
  end.
Proof.
  intros HL HR. cbv zeta.
  unfold Heap.stata_merge, stata_merge, merge_flag.
  rewrite !bind_load, HL, HR. simpl default.
  rewrite bind_lift_result.
  destruct (from_fuel (left_marker (columns L))) as [lt|e]; [|done].
  rewrite bind_lift_result, result_bind_Ok.
  destruct (from_fuel (right_marker (columns R))) as [rt|e]; [|done].
  rewrite result_bind_Ok.
  pose proof (lookup_lt_Some _ _ _ HR) as Hr.
  rewrite bind_copy, HL. simpl default.
  rewrite bind_copy, (lookup_app_l h [L] r Hr), HR. simpl default.
  rewrite <-app_assoc. simpl app. rewrite length_app. simpl length. rewrite Nat.add_1_r.
  rewrite bind_setitem_const, lookup_0, insert_0. simpl default.
  rewrite bind_setitem_const, lookup_1, insert_1. simpl default.
  rewrite bind_merge, lookup_0, lookup_1. simpl default.
  destruct (pd_merge _ _ kw) as [m|e]; [|done]. rewrite result_bind_Ok.
  rewrite length_app. simpl length.
  replace (length h + 2) with (S (S (length h))) by lia.
  rewrite <-app_assoc. simpl app.
  rewrite bind_getitem, lookup_2. simpl default.
  destruct (get_col lt m) as [a|e]; [|done]. rewrite result_bind_Ok.
  rewrite bind_getitem, lookup_2. simpl default.
  destruct (get_col rt m) as [b|e]; [|done]. rewrite result_bind_Ok.
  rewrite bind_lift_result.
  destruct (series_add a b) as [flags|e]; [|done]. rewrite result_bind_Ok.
  rewrite bind_setitem, lookup_2, insert_2. simpl default.
  rewrite bind_delitem, lookup_2. simpl default.
  destruct (del_col lt _) as [d1|e]; [|done]. rewrite result_bind_Ok, insert_2.
  rewrite bind_delitem, lookup_2. simpl default.
  destruct (del_col rt d1) as [new|e]; [|done]. rewrite insert_2.
  rewrite py_bind_lift_Ok.
  unfold check_flag. destruct (truthy assertval) as [v|].
  - rewrite bind_getitem, lookup_2. simpl default.
    destruct (get_col gen new) as [fl|e] eqn:Hfl; [|done].
    rewrite py_bind_lift_Ok.
    destruct (forallb _ fl).
    + rewrite bind_delitem, lookup_2. simpl default.
      destruct (del_col gen new) as [out|e]; [|done]. simpl.
      by rewrite insert_2, lookup_2.
    + rewrite bind_print, bind_load, lookup_2. simpl default.
      rewrite bind_lift_result.
      by destruct (distribution gen new) as [d|e].
  - rewrite bind_load, lookup_2. simpl default. rewrite bind_lift_result.
    destruct (distribution gen new) as [d|e]; [|done]. simpl.
    by rewrite lookup_2.
Qed.
Lemma winsorize_refines h l by_ p df :
  h !! l = Some df →
  let res := Heap.winsorize l by_ p h in
  res.2.1 = [] ∧
  match res.2.2, winsorize df by_ p with
  | Ok new, Ok out => res.1 !! new = Some out
  | Raise e, Raise e' => e = e'
  | _, _ => False
  end.
Proof.
  intros Hl. cbv zeta. unfold Heap.winsorize, winsorize.
  rewrite bind_copy, Hl. simpl default. rewrite bind_lift_result.
  destruct (quantile_pairs p (force_iterable by_)) as [ps|e]; [|done].
  rewrite result_bind_Ok, bind_load, lookup_0. simpl default.
  rewrite bind_lift_result.
  destruct (survive_loop df _ ps _) as [mask|e]; [|done].
  rewrite result_bind_Ok. unfold Heap.alloc. simpl.
  split; [done|]. rewrite length_app. simpl.
  replace (length h + 1) with (S (length h)) by lia.
  rewrite <-app_assoc. simpl. apply lookup_1.
Qed.

End HeapRun.

(** ** Columns that are there can be read and deleted *)

Lemma del_col_Ok c df : c ∈ columns df → ∃ df', del_col c df = Ok df'.
Proof.
  intros [i Hi]%col_pos_is_Some. unfold del_col. rewrite Hi. by eexists.
Qed.

Lemma get_col_Ok c df : c ∈ columns df → ∃ vs, get_col c df = Ok vs.
Proof.
  intros [i Hi]%col_pos_is_Some. unfold get_col. rewrite Hi. by eexists.
Qed.

(** ** The lemmas above on the example tables *)

Lemma group_id_merge_witness :
  let df := Examples.T in
  wf_frame df
  ∧ ("group_id" ∉ columns df)
  ∧ NoDup (key_columns df (Some ["k"]))
  ∧ left_marker (columns df) = Some "tmpa"
  ∧ right_marker ("group_id" :: key_columns df (Some ["k"])) = Some "tmpb"
  ∧ ("tmpb" ∉ columns df) ∧ ("_m" ∉ columns df)
  ∧ group_id df (Some ["k"]) "group_id" true
    = ([], Ok (mkFrame (columns df ++ ["group_id"])
                 ((λ r : value * row,
                     (r.1, r.2 ++ [id_of df (key_columns df (Some ["k"])) r.2]))
                    <$> rows df))).
Proof.
  intros df.
  assert (wf_frame df) as H1 by compute_done.
  assert ("group_id" ∉ columns df) as H2 by compute_done.
  assert (key_columns df (Some ["k"]) ≠ []) as H3 by done.
  assert (Forall (λ c, c ∈ columns df) (key_columns df (Some ["k"]))) as H4
    by compute_done.
  assert (left_marker (columns df) = Some "tmpa") as H5 by reflexivity.
  assert (right_marker ("group_id" :: key_columns df (Some ["k"])) = Some "tmpb")
    as H6 by reflexivity.
  assert ("group_id" ≠ "tmpa") as H7 by done.
  assert ("tmpb" ∉ columns df) as H8 by compute_done.
  assert ("_m" ∉ columns df) as H9 by compute_done.
  assert ("group_id" ≠ "_m") as H10 by done.
  assert (NoDup (key_columns df (Some ["k"]))) as H11 by compute_done.
  repeat (split; [assumption|]).
  exact (group_id_merge_spec df (Some ["k"]) "group_id" "tmpa" "tmpb"
           H1 H2 H3 H4 H11 H5 H6 H7 H8 H9 H10).
Defined.

Lemma stata_merge_refines_witness :
  let h := [Examples.L; Examples.R] in
  let res := Heap.stata_merge 0 1 None "_m" (Examples.on_id how_inner) h in
  let pure := stata_merge Examples.L Examples.R None "_m" (Examples.on_id how_inner) in
  res.2.1 = pure.1 ∧
  match res.2.2, pure.2 with
  | Ok new, Ok df => res.1 !! new = Some df
  | Raise e, Raise e' => e = e'
  | _, _ => False
  end.
Proof.
  exact (HeapRun.stata_merge_refines [Examples.L; Examples.R] 0 1 None "_m"
           (Examples.on_id how_inner) Examples.L Examples.R eq_refl eq_refl).
Defined.

Lemma winsorize_refines_witness :
  let res := Heap.winsorize 0 (ByOne "x") Examples.full_range [Examples.W] in
  res.2.1 = [] ∧
  match res.2.2, winsorize Examples.W (ByOne "x") Examples.full_range with
  | Ok new, Ok out => res.1 !! new = Some out
  | Raise e, Raise e' => e = e'
  | _, _ => False
  end.
Proof.
  exact (HeapRun.winsorize_refines [Examples.W] 0 (ByOne "x") Examples.full_range
           Examples.W eq_refl).
Defined.

(** The two marker loops of lines 34-37 terminate, each with a name that is
    not a column of the table the marker is added to. *)
Lemma marker_loops_fresh (left_columns right_columns : list string) :
  (∃ left_tmp, left_marker left_columns = Some left_tmp
               ∧ left_tmp ∉ left_columns)
  ∧ (∃ right_tmp, right_marker right_columns = Some right_tmp
                  ∧ right_tmp ∉ right_columns).
Proof. split; by apply fresh_marker_total. Qed.

(** ** The statuses a join mode can produce *)

Lemma join_rows_status lcols rcols K ls rs how j :
  j ∈ join_rows lcols rcols K ls rs how →
  match how with
  | how_inner => status j = 3%Z
  | how_left => status j = 1%Z ∨ status j = 3%Z
  | how_right => status j = 2%Z ∨ status j = 3%Z
  | how_outer => True
  end.
Proof.
  destruct how; simpl; [| | |done].
  - unfold inner_join. intros (l & Hj & _)%list_elem_of_bind.
    by apply list_elem_of_fmap in Hj as (r & -> & _).
  - unfold left_join. intros (l & Hj & _)%list_elem_of_bind.
    destruct (filter _ rs) as [|r0 ms].
    + apply list_elem_of_singleton in Hj as ->. by left.
    + apply list_elem_of_fmap in Hj as (r & -> & _). by right.
  - unfold right_join. intros (r & Hj & _)%list_elem_of_bind.
    destruct (filter _ ls) as [|l0 ms].
    + apply list_elem_of_singleton in Hj as ->. by left.
    + apply list_elem_of_fmap in Hj as (l & -> & _). by right.
Qed.

(** The status column of the table lines 31-47 return. *)
Lemma merge_flag_status left right gen kw K new flags :
  wf_frame left → wf_frame right →
  kw_on kw = Some K →
  Forall (λ k, k ∈ columns left ∧ k ∈ columns right) K →
  merge_flag left right gen kw = Ok new →
  get_col gen new = Ok flags →
  ∃ lt rt,
    left_marker (columns left) = Some lt
    ∧ right_marker (columns right) = Some rt
    ∧ gen ≠ lt ∧ gen ≠ rt
    ∧ flags = (λ j, num_of_Z (status j))
        <$> join_rows (columns left ++ [lt]) (columns right ++ [rt]) K
              ((λ r : row, r ++ [num_of_Z 1]) <$> data left)
              ((λ r : row, r ++ [num_of_Z 2]) <$> data right) (kw_how kw).
Proof.
  intros Hwfl Hwfr Hon HK Hmf Hflags.
  destruct (merge_flag_inv _ _ _ _ _ _ Hwfl Hwfr Hon HK Hmf)
    as (lt & rt & Hlt & Hrt & H).
  exists lt, rt. split; [done|]. split; [done|].
  destruct (left_marker_spec _ _ Hlt) as [Hlt_fresh _].
  destruct (right_marker_spec _ _ Hrt) as [Hrt_fresh _].
  rewrite !set_col_const_fresh in H by done.
  cbv zeta in H. simpl columns in H. rewrite !data_marked in H.
  set (js := join_rows _ _ _ _ _ _) in *.
  destruct H as (merged & d1 & Hm & Hwf & Hnd & Hlen & Ha & Hb & Hadd
                 & Hd1 & Hd2 & Hboth).
  pose proof (get_col_Ok_elem_of _ _ _ Hflags) as Hgen.
  pose proof (set_col_columns_NoDup gen ((λ j, num_of_Z (status j)) <$> js) _ Hnd)
    as Hnd'.
  destruct (del_col_columns_NoDup _ _ _ Hd1 Hnd') as [Hnd1 Hlt1].
  destruct (del_col_columns_NoDup _ _ _ Hd2 Hnd1) as [_ Hrt2].
  assert (gen ≠ lt) as Hgl.
  { intros ->. apply Hlt1. by eapply del_col_columns_subseteq. }
  assert (gen ≠ rt) as Hgr by (by intros ->).
  split; [done|]. split; [done|].
  rewrite (get_del_col_ne _ _ _ _ Hd2 Hgr), (get_del_col_ne _ _ _ _ Hd1 Hgl) in Hflags.
  rewrite get_set_col_eq in Hflags; [by injection Hflags | done |].
  by rewrite length_fmap.
Qed.

Lemma stata_merge_None_inv left right gen kw out new :
  stata_merge left right None gen kw = (out, Ok new) →
  merge_flag left right gen kw = Ok new
  ∧ ∃ flags d, get_col gen new = Ok flags ∧ distribution gen new = Ok d
      ∧ out = [PDist d].
Proof.
  unfold stata_merge. destruct (merge_flag left right gen kw) as [new0|e]; [|done].
  rewrite py_bind_lift_Ok. unfold check_flag. simpl.
  destruct (distribution gen new0) as [d|e] eqn:Hd; [|done].
  intros [= <- <-]. split; [done|].
  pose proof Hd as Hd'. unfold distribution in Hd'.
  destruct (get_col gen new0) as [flags|]; [|done]. by exists flags, d.
Qed.

Lemma join_rows_possible lcols rcols K ls rs how j :
  j ∈ join_rows lcols rcols K ls rs how → status j ∈ possible_status how.
Proof.
  intros Hj. pose proof (join_rows_status _ _ _ _ _ _ _ Hj) as H.
  destruct how; simpl in *.
  - rewrite H. apply list_elem_of_here.
  - destruct H as [-> | ->]; rewrite !elem_of_cons; auto.
  - destruct H as [-> | ->]; rewrite !elem_of_cons; auto.
  - destruct j; simpl; rewrite !elem_of_cons; auto.
Qed.

(** The statuses a join mode can produce.  When the call (with no expected
    status) returns, every status is 3 for an inner join, 1 or 3 for a left
    join, 2 or 3 for a right join and 1, 2 or 3 for an outer join: not
    every expected status makes sense with every join mode, as the
    docstring says. *)
Theorem stata_merge_status_by_how left right gen kw K out new flags :
  wf_frame left → wf_frame right →
  kw_on kw = Some K →
  Forall (λ k, k ∈ columns left ∧ k ∈ columns right) K →
  stata_merge left right None gen kw = (out, Ok new) →
  get_col gen new = Ok flags →
  Forall (λ f, ∃ z, z ∈ possible_status (kw_how kw) ∧ f = num_of_Z z) flags.
Proof.
  intros Hwfl Hwfr Hon HK [Hmf _]%stata_merge_None_inv Hflags.
  destruct (merge_flag_status _ _ _ _ _ _ _ Hwfl Hwfr Hon HK Hmf Hflags)
    as (lt & rt & _ & _ & _ & _ & ->).
  apply Forall_fmap, Forall_forall. intros j Hj. simpl.
  exists (status j). split; [|done]. by eapply join_rows_possible.
Qed.

(** An inner join has matched rows only, so the expected status 3 always
    holds there: if the call without a check returns, the call with
    [assertval=3] prints nothing and returns the same table without the
    status column. *)
Theorem stata_merge_inner_assert left right gen kw K out new :
  wf_frame left → wf_frame right →
  kw_on kw = Some K → kw_how kw = how_inner →
  Forall (λ k, k ∈ columns left ∧ k ∈ columns right) K →
  stata_merge left right None gen kw = (out, Ok new) →
  ∃ res, stata_merge left right (Some 3%Z) gen kw = ([], Ok res)
    ∧ del_col gen new = Ok res.
Proof.
  intros Hwfl Hwfr Hon Hhow HK (Hmf & flags & d & Hflags & _)%stata_merge_None_inv.
  destruct (merge_flag_status _ _ _ _ _ _ _ Hwfl Hwfr Hon HK Hmf Hflags)
    as (lt & rt & _ & _ & _ & _ & Heq).
  destruct (del_col_Ok gen new) as [res Hres];
    [by eapply get_col_Ok_elem_of|].
  exists res. split; [|done].
  unfold stata_merge. rewrite Hmf, py_bind_lift_Ok. unfold check_flag.
  simpl truthy. cbv iota. rewrite Hflags, py_bind_lift_Ok.
  assert (forallb (λ v, elem_eqb v (num_of_Z 3)) flags = true) as ->; [|by rewrite Hres].
  apply forallb_forall. intros v Hv%list_elem_of_In. apply elem_eqb_num.
  rewrite Heq in Hv. apply list_elem_of_fmap in Hv as (j & -> & Hj).
  apply join_rows_status in Hj. rewrite Hhow in Hj. by rewrite Hj.
Qed.

(** An expected status that the join mode cannot produce (1 or 2 for an
    inner join, 2 for a left join, 1 for a right join, any other number but
    0 for every mode) fails as soon as the joined table has a row: the
    message is printed, then the distribution that the call without a check
    prints, and [AssertionError] is raised. *)
Theorem stata_merge_assert_impossible left right gen kw K out new (a : Z) :
  wf_frame left → wf_frame right →
  kw_on kw = Some K →
  Forall (λ k, k ∈ columns left ∧ k ∈ columns right) K →
  stata_merge left right None gen kw = (out, Ok new) →
  rows new ≠ [] →
  a ≠ 0%Z → a ∉ possible_status (kw_how kw) →
  stata_merge left right (Some a) gen kw
  = (PText "Merge assertion is false!" :: out, Raise AssertionError).
Proof.
  intros Hwfl Hwfr Hon HK (Hmf & flags & d & Hflags & Hd & ->)%stata_merge_None_inv
    Hne Ha0 Ha.
  destruct (merge_flag_status _ _ _ _ _ _ _ Hwfl Hwfr Hon HK Hmf Hflags)
    as (lt & rt & _ & _ & _ & _ & Heq).
  unfold stata_merge. rewrite Hmf, py_bind_lift_Ok. unfold check_flag.
  unfold truthy. rewrite decide_False by done.
  rewrite Hflags, py_bind_lift_Ok.
  assert (forallb (λ v, elem_eqb v (num_of_Z a)) flags = false) as ->.
  { pose proof (get_col_length _ _ _ Hflags) as Hlen.
    destruct flags as [|f flags]; [by destruct (rows new)|].
    simpl. apply andb_false_iff. left. apply not_true_is_false.
    rewrite elem_eqb_num. intros ->.
    destruct (join_rows _ _ _ _ _ _) as [|j js] eqn:Ej; [done|].
    injection Heq as Hj _. subst a. apply Ha.
    eapply join_rows_possible. rewrite Ej. apply list_elem_of_here. }
  by rewrite Hd.
Qed.

(** ** The markers are gone from the table that is returned *)

Lemma merge_flag_markers_gone left right gen kw new :
  merge_flag left right gen kw = Ok new →
  ∃ lt rt,
    left_marker (columns left) = Some lt
    ∧ right_marker (columns right) = Some rt
    ∧ (lt ∉ columns new) ∧ (rt ∉ columns new).
Proof.
  unfold merge_flag.
  intros (lt & Hlt%from_fuel_Ok & (rt & Hrt%from_fuel_Ok & (m & Hm & (a & _
    & (b & _ & (fl & _ & (d1 & Hd1 & Hd2)%rbind_Ok)%rbind_Ok)%rbind_Ok)%rbind_Ok
    )%rbind_Ok)%rbind_Ok)%rbind_Ok.
  exists lt, rt. split; [done|]. split; [done|].
  apply pd_merge_columns_NoDup in Hm.
  destruct (del_col_columns_NoDup _ _ _ Hd1 (set_col_columns_NoDup gen fl _ Hm))
    as [Hnd1 Hlt1].
  destruct (del_col_columns_NoDup _ _ _ Hd2 Hnd1) as [_ Hrt2].
  split; [|done]. intros Hin. apply Hlt1. by eapply del_col_columns_subseteq.
Qed.

Lemma py_bind_run {A B} (m : Py A) (k : A → Py B) :
  (m ≫= k)
  = match m with
    | (out, Ok a) => (out ++ (k a).1, (k a).2)
    | (out, Raise e) => (out, Raise e)
    end.
Proof. done. Qed.

Lemma stata_merge_Ok_inv left right assertval gen kw out res :
  stata_merge left right assertval gen kw = (out, Ok res) →
  ∃ new, merge_flag left right gen kw = Ok new
    ∧ gen ∈ columns new
    ∧ (res = new ∨ del_col gen new = Ok res).
Proof.
  unfold stata_merge. destruct (merge_flag left right gen kw) as [new|e]; [|done].
  rewrite py_bind_lift_Ok. unfold check_flag. intros H. exists new. split; [done|].
  destruct (truthy assertval) as [a|].
  - destruct (get_col gen new) as [flags|e] eqn:Hfl; [|done].
    rewrite py_bind_lift_Ok in H. split; [by eapply get_col_Ok_elem_of|].
    destruct (forallb _ flags).
    + right. unfold lift in H. by injection H as _ ->.
    + simpl in H. by destruct (distribution gen new).
  - destruct (distribution gen new) as [d|e] eqn:Hd; [|done].
    simpl in H. injection H as _ <-. split; [|by left].
    unfold distribution in Hd. destruct (get_col gen new) eqn:Hfl; [|done].
    by eapply get_col_Ok_elem_of.
Qed.

(** Whatever the arguments, a table that [stata_merge] returns has neither
    marker column, and the status name was none of the two marker names. *)
Theorem stata_merge_markers_removed left right assertval gen kw out res :
  stata_merge left right assertval gen kw = (out, Ok res) →
  ∃ left_tmp right_tmp,
    left_marker (columns left) = Some left_tmp
    ∧ right_marker (columns right) = Some right_tmp
    ∧ (left_tmp ∉ columns res) ∧ (right_tmp ∉ columns res)
    ∧ gen ≠ left_tmp ∧ gen ≠ right_tmp.
Proof.
  intros (new & Hmf & Hgen & Hres)%stata_merge_Ok_inv.
  destruct (merge_flag_markers_gone _ _ _ _ _ Hmf) as (lt & rt & Hlt & Hrt & Hl & Hr).
  exists lt, rt. split; [done|]. split; [done|].
  assert (gen ≠ lt ∧ gen ≠ rt) as [??] by (split; by intros ->).
  destruct Hres as [->|Hdel]; [done|].
  repeat split; try done; intros Hin; [apply Hl | apply Hr];
    by eapply del_col_columns_subseteq.
Qed.

(** A status name that is one of the two marker names never works: the
    status column is deleted with the marker on line 47, and reading it
    back (line 52, 55 or 60) raises [KeyError]; nothing is printed.  When
    lines 31-47 raise themselves, that exception comes first. *)
Theorem stata_merge_gen_is_marker left right assertval gen kw :
  left_marker (columns left) = Some gen ∨ right_marker (columns right) = Some gen →
  ∃ e, stata_merge left right assertval gen kw = ([], Raise e)
    ∧ ∀ new, merge_flag left right gen kw = Ok new → e = KeyError.
Proof.
  intros Hgen. unfold stata_merge.
  destruct (merge_flag left right gen kw) as [new|e] eqn:Hmf.
  2:{ exists e. by split. }
  exists KeyError. split; [|done]. rewrite py_bind_lift_Ok.
  destruct (merge_flag_markers_gone _ _ _ _ _ Hmf) as (lt & rt & Hlt & Hrt & Hl & Hr).
  assert (gen ∉ columns new) as Hno.
  { destruct Hgen as [H|H]; rewrite H in *; congruence. }
  assert (get_col gen new = Raise KeyError) as Hget.
  { unfold get_col. apply col_pos_None in Hno. by rewrite Hno. }
  unfold check_flag, distribution. rewrite Hget.
  by destruct (truthy assertval).
Qed.

(** ** The distribution that is printed *)

Lemma distinct_values_elem_of seen vs x :
  x ∈ distinct_values seen vs ↔ x ∈ vs ∧ x ≠ VNaN ∧ x ∉ seen.
Proof.
  revert seen; induction vs as [|v vs IH]; intros seen; simpl.
  - rewrite elem_of_nil. naive_solver.
  - case_decide as Hv.
    + rewrite IH, elem_of_cons. split; [naive_solver|].
      intros ([->|?] & ? & ?); [|done]. by destruct Hv.
    + rewrite elem_of_cons, IH. rewrite ?elem_of_cons.
      destruct (decide (x = v)) as [->|]; naive_solver.
Qed.

Lemma distinct_values_NoDup seen vs : NoDup (distinct_values seen vs).
Proof.
  revert seen; induction vs as [|v vs IH]; intros seen; simpl; [constructor|].
  case_decide; [done|]. apply NoDup_cons. split; [|done].
  rewrite distinct_values_elem_of, not_elem_of_cons. naive_solver.
Qed.

Lemma count_of_cons v x vs :
  count_of v (x :: vs) = (if decide (x = v) then 1 else 0) + count_of v vs.
Proof.
  unfold count_of. rewrite filter_cons. by case_decide.
Qed.

Lemma sum_indicator (x : value) l :
  NoDup l → x ∈ l → sum_list_with (λ v, if decide (x = v) then 1 else 0) l = 1.
Proof.
  induction 1 as [|y l Hy Hnd IH]; [by intros ?%elem_of_nil|].
  intros Hx. simpl. case_decide as E.
  - subst y. f_equal. clear IH Hx. induction l as [|z l IH]; [done|].
    simpl. apply not_elem_of_cons in Hy as [??]. apply NoDup_cons in Hnd as [??].
    rewrite decide_False by done. by apply IH.
  - apply elem_of_cons in Hx as [?|?]; [done|]. by apply IH.
Qed.

Lemma sum_list_with_plus {A} (f g h : A → nat) l :
  (∀ x, h x = f x + g x) →
  sum_list_with h l = sum_list_with f l + sum_list_with g l.
Proof. intros H. induction l as [|x l IH]; simpl; [done|]. rewrite IH, H. lia. Qed.

(** The counts of the distinct values add up to the number of rows. *)
Lemma sum_count_of l vs :
  NoDup l → Forall (λ x, x ∈ l) vs →
  sum_list_with (λ v, count_of v vs) l = length vs.
Proof.
  intros Hnd. induction 1 as [|x vs Hx _ IH]; simpl.
  - induction l as [|y l IHl]; [done|]. simpl. apply NoDup_cons in Hnd as [??].
    by rewrite IHl.
  - rewrite (sum_list_with_plus (λ v, if decide (x = v) then 1 else 0)
               (λ v, count_of v vs)) by (intros; apply count_of_cons).
    by rewrite sum_indicator, IH.
Qed.

Lemma fraction_plus a b n : (fraction a n + fraction b n)%Qc = fraction (a + b) n.
Proof.
  unfold fraction. apply Qc_is_canon. simpl. rewrite !Qred_correct.
  unfold Qeq, Qplus. simpl. rewrite Nat2Z.inj_add. nia.
Qed.

Lemma fraction_0 n : fraction 0 n = Q2Qc 0.
Proof. unfold fraction. by apply Q2Qc_eq_iff. Qed.

Lemma fraction_diag n : 0 < n → fraction n n = Q2Qc 1.
Proof.
  intros Hn. unfold fraction. apply Q2Qc_eq_iff. unfold Qeq. simpl.
  rewrite Z.mul_1_r. destruct n; [lia|].
  by rewrite <-Pos.of_nat_succ, Zpos_P_of_succ_nat, <-Nat2Z.inj_succ.
Qed.

Lemma fraction_pos k n : 0 < k → (Q2Qc 0 < fraction k n)%Qc.
Proof.
  intros Hk. unfold fraction.
  change (0 < Qred (Z.of_nat k # Pos.of_nat n))%Q. rewrite Qred_correct.
  unfold Qlt. simpl. lia.
Qed.

Lemma Qc_sum_fraction {A} (f : A → nat) n (l : list A) :
  Qc_sum ((λ x, fraction (f x) n) <$> l) = fraction (sum_list_with f l) n.
Proof.
  induction l as [|x l IH]; csimpl; [by rewrite fraction_0|].
  by rewrite IH, fraction_plus.
Qed.

Lemma count_of_pos v vs : v ∈ vs → 0 < count_of v vs.
Proof.
  intros Hv. unfold count_of.
  assert (v ∈ filter (λ w, w = v) vs) as Hin by (by apply list_elem_of_filter).
  destruct (filter _ vs); [by apply elem_of_nil in Hin | simpl; lia].
Qed.

(** The distribution printed when no status is expected and the table has
    a row: one entry per status that occurs in the status column, no
    status twice, each with the number of rows that have it divided by the
    number of rows; the fractions are positive and add up to 1. *)
Theorem stata_merge_distribution left right gen kw K out new flags :
  wf_frame left → wf_frame right →
  kw_on kw = Some K →
  Forall (λ k, k ∈ columns left ∧ k ∈ columns right) K →
  stata_merge left right None gen kw = (out, Ok new) →
  get_col gen new = Ok flags →
  rows new ≠ [] →
  ∃ d, out = [PDist d]
    ∧ NoDup (d.*1)
    ∧ (∀ v, v ∈ d.*1 ↔ v ∈ flags)
    ∧ (∀ v q, (v, q) ∈ d →
         (∃ z, z ∈ possible_status (kw_how kw) ∧ v = num_of_Z z)
         ∧ q = fraction (count_of v flags) (length flags)
         ∧ (Q2Qc 0 < q)%Qc)
    ∧ Qc_sum (d.*2) = Q2Qc 1.
Proof.
  intros Hwfl Hwfr Hon HK Hsm Hflags Hne.
  destruct (stata_merge_None_inv _ _ _ _ _ _ Hsm) as (Hmf & fl & d & Hfl & Hd & ->).
  assert (Forall (λ f, ∃ z, z ∈ possible_status (kw_how kw) ∧ f = num_of_Z z) flags)
    as Hposs.
  { destruct (merge_flag_status _ _ _ _ _ _ _ Hwfl Hwfr Hon HK Hmf Hflags)
      as (lt & rt & _ & _ & _ & _ & ->).
    apply Forall_fmap, Forall_forall. intros j Hj. simpl.
    exists (status j). split; [|done]. by eapply join_rows_possible. }
  assert (fl = flags) as -> by congruence.
  exists d. split; [done|].
  unfold distribution in Hd. rewrite Hflags in Hd. simpl in Hd. injection Hd as <-.
  rewrite <-(get_col_length _ _ _ Hflags).
  unfold groupby_size. rewrite <-!list_fmap_compose.
  set (ds := sort_by value_leb (distinct_values [] flags)).
  assert (∀ v, v ∈ ds ↔ v ∈ flags) as Hds.
  { intros v. unfold ds. rewrite (sort_by_Permutation value_leb).
    rewrite distinct_values_elem_of. split; [naive_solver|].
    intros Hv. split; [done|]. split; [|apply not_elem_of_nil].
    rewrite Forall_forall in Hposs. by destruct (Hposs v Hv) as (z & _ & ->). }
  assert (NoDup ds) as Hnd.
  { unfold ds. rewrite (sort_by_Permutation value_leb). apply distinct_values_NoDup. }
  split; [|split; [|split]].
  - by rewrite (list_fmap_ext _ id ds), list_fmap_id.
  - intros v. by rewrite (list_fmap_ext _ id ds), list_fmap_id.
  - intros v q (v' & [= <- ->] & Hv%Hds)%list_elem_of_fmap. simpl.
    split; [|split; [done|]].
    + rewrite Forall_forall in Hposs. by apply Hposs.
    + by apply fraction_pos, count_of_pos.
  - rewrite (list_fmap_ext _ (λ v, fraction (count_of v flags) (length flags)) ds)
      by done.
    rewrite Qc_sum_fraction, sum_count_of; [| done |].
    + apply fraction_diag. rewrite (get_col_length _ _ _ Hflags).
      destruct (rows new); [done | simpl; lia].
    + apply Forall_forall. intros v. apply Hds.
Qed.

(** What line 55 and line 60 print for a table with the status column
    [flags]. *)
Lemma distribution_reports gen new flags d :
  get_col gen new = Ok flags → distribution gen new = Ok d → reports flags d.
Proof.
  intros Hflags Hd.
  unfold distribution in Hd. rewrite Hflags in Hd. simpl in Hd. injection Hd as <-.
  rewrite <-(get_col_length _ _ _ Hflags).
  unfold groupby_size. unfold reports. rewrite <-!list_fmap_compose.
  set (ds := sort_by value_leb (distinct_values [] flags)).
  assert (∀ v, v ∈ ds ↔ v ∈ flags ∧ v ≠ VNaN) as Hds.
  { intros v. unfold ds. rewrite (sort_by_Permutation value_leb).
    rewrite distinct_values_elem_of. split; [naive_solver|].
    intros [??]. split; [done|]. split; [done | apply not_elem_of_nil]. }
  assert (NoDup ds) as Hnd.
  { unfold ds. rewrite (sort_by_Permutation value_leb). apply distinct_values_NoDup. }
  split; [|split; [|split]].
  - by rewrite (list_fmap_ext _ id ds), list_fmap_id.
  - intros v. by rewrite (list_fmap_ext _ id ds), list_fmap_id.
  - intros v q (v' & [= <- ->] & [Hv _]%Hds)%list_elem_of_fmap. simpl.
    split; [done|]. by apply fraction_pos, count_of_pos.
  - intros Hne Hnan.
    rewrite (list_fmap_ext _ (λ v, fraction (count_of v flags) (length flags)) ds)
      by done.
    rewrite Qc_sum_fraction, sum_count_of; [| done |].
    + apply fraction_diag. destruct flags; [done | simpl; lia].
    + apply Forall_forall. intros v Hv. apply Hds. split; [done|]. by intros ->.
Qed.

(** C5: the check of the expected status.  [new] is the joined table with
    its status column [flags], as lines 31-47 leave it, and [d] is the
    distribution of [flags]: the statuses that occur, each with the
    fraction of the rows that have it.  With an expected status of 1, 2 or
    3: if some row has another status, the message and the distribution are
    printed and an [AssertionError] is raised; if every row has the
    expected status, nothing is printed and the table is returned without
    the status column.  With no expected status the distribution is printed
    and the table is returned with the status column. *)
Theorem stata_merge_check_spec left right gen kw new flags (a : Z) :
  merge_flag left right gen kw = Ok new →
  get_col gen new = Ok flags →
  (a = 1 ∨ a = 2 ∨ a = 3)%Z →
  ∃ d,
    reports flags d
    ∧ ((∃ f, f ∈ flags ∧ f ≠ num_of_Z a) →
       stata_merge left right (Some a) gen kw
       = ([PText "Merge assertion is false!"; PDist d], Raise AssertionError))
    ∧ ((∀ f, f ∈ flags → f = num_of_Z a) →
       ∃ out, stata_merge left right (Some a) gen kw = ([], Ok out)
         ∧ del_col gen new = Ok out
         ∧ (gen ∉ columns out)
         ∧ length (rows out) = length (rows new))
    ∧ (stata_merge left right None gen kw = ([PDist d], Ok new)
       ∧ gen ∈ columns new).
Proof.
  intros Hnew Hflags Ha.
  destruct (distribution gen new) as [d|e] eqn:Hdist.
  2:{ unfold distribution in Hdist. by rewrite Hflags in Hdist. }
  exists d. split; [by eapply distribution_reports|].
  assert (truthy (Some a) = Some a) as Htr.
  { unfold truthy. case_decide; [lia | done]. }
  unfold stata_merge. rewrite Hnew, py_bind_lift_Ok. unfold check_flag.
  rewrite Htr. simpl truthy. cbv iota.
  rewrite Hflags, Hdist, !py_bind_lift_Ok.
  split; [|split].
  - intros (f & Hf & Hne).
    destruct (forallb _ flags) eqn:E.
    + rewrite forallb_forall in E. exfalso. apply Hne.
      apply elem_eqb_num, E. by apply list_elem_of_In.
    + reflexivity.
  - intros Hall.
    assert (forallb (λ v, elem_eqb v (num_of_Z a)) flags = true) as ->.
    { apply forallb_forall. intros f Hf%list_elem_of_In.
      by apply elem_eqb_num, Hall. }
    destruct (del_col gen new) as [out|e] eqn:Hdel.
    + exists out. split; [done|]. split; [done|].
      split.
      * eapply del_col_columns_NoDup; eauto using merge_flag_columns_NoDup.
      * unfold del_col in Hdel. destruct (col_pos _ _); [|done].
        injection Hdel as <-. simpl. by rewrite length_fmap.
    + exfalso. unfold del_col in Hdel. unfold get_col in Hflags.
      by destruct (col_pos gen (columns new)).
  - split; [by rewrite Hdist, py_bind_lift_Ok|].
    unfold get_col in Hflags.
    destruct (col_pos gen (columns new)) eqn:E; [|done].
    by eapply col_pos_elem_of.
Qed.

Lemma stata_merge_check_witness :
  let kw := Examples.on_id how_outer in
  ∃ new flags,
    merge_flag Examples.L Examples.R "_m" kw = Ok new
    ∧ get_col "_m" new = Ok flags
    ∧ (3 = 1 ∨ 3 = 2 ∨ 3 = 3)%Z
    ∧ ∃ d,
        reports flags d
        ∧ ((∃ f, f ∈ flags ∧ f ≠ num_of_Z 3) →
           stata_merge Examples.L Examples.R (Some 3%Z) "_m" kw
           = ([PText "Merge assertion is false!"; PDist d], Raise AssertionError))
        ∧ ((∀ f, f ∈ flags → f = num_of_Z 3) →
           ∃ out, stata_merge Examples.L Examples.R (Some 3%Z) "_m" kw = ([], Ok out)
             ∧ del_col "_m" new = Ok out
             ∧ ("_m" ∉ columns out)
             ∧ length (rows out) = length (rows new))
        ∧ (stata_merge Examples.L Examples.R None "_m" kw = ([PDist d], Ok new)
           ∧ "_m" ∈ columns new).
Proof.
  intros kw.
  let new := eval vm_compute in (merge_flag Examples.L Examples.R "_m" kw) in
  lazymatch new with
  | Ok ?new =>
      let flags := eval vm_compute in (get_col "_m" new) in
      lazymatch flags with
      | Ok ?flags =>
          exists new, flags;
          assert (merge_flag Examples.L Examples.R "_m" kw = Ok new) as H1
            by (vm_compute; reflexivity);
          assert (get_col "_m" new = Ok flags) as H2 by (vm_compute; reflexivity)
      end
  end.
  assert (3 = 1 ∨ 3 = 2 ∨ 3 = 3)%Z as H3 by (right; right; reflexivity).
  split; [exact H1|]. split; [exact H2|]. split; [exact H3|].
  exact (stata_merge_check_spec Examples.L Examples.R "_m" kw _ _ 3 H1 H2 H3).
Defined.

(** ** group_id: errors, and the ids against the table of combinations *)

Lemma drop_duplicates_columns df : columns (drop_duplicates df) = columns df.
Proof. unfold drop_duplicates. by case_decide. Qed.

(** The errors [group_id] raises before it does any work: an id name that
    is a column raises [ValueError]; otherwise a key column that is no
    column of the table raises [KeyError]; both whether or not the id is
    merged back, and with nothing printed.  Otherwise the call without
    merging returns a table whose columns are the id name and the key
    columns. *)
Theorem group_id_early_errors df cols name merge :
  let K := key_columns df cols in
  if decide (name ∈ columns df) then
    group_id df cols name merge = ([], Raise ValueError)
  else if decide (Forall (λ c, c ∈ columns df) K) then
    ∃ out, group_id df cols name false = ([], Ok out) ∧ columns out = name :: K
  else group_id df cols name merge = ([], Raise KeyError).
Proof.
  intros K. unfold group_id.
  change (match cols with None | Some [] => columns df | Some cs => cs end) with K.
  case_decide as Hname; [done|]. case_decide as HK.
  - unfold unique_table. rewrite select_cols_Ok by done. simpl.
    unfold reset_index_named. simpl. rewrite drop_duplicates_columns. simpl.
    rewrite decide_False.
    + eexists. by split.
    + intros Hin. rewrite Forall_forall in HK. by apply Hname, HK.
  - unfold unique_table, select_cols. by rewrite decide_False.
Qed.

Lemma first_seen_id `{EqDecision A} (l : list A) : NoDup l → first_seen l = l.
Proof.
  induction 1 as [|x l Hx _ IH]; simpl; [done|]. rewrite IH. f_equal.
  apply filter_all, Forall_forall. by intros y Hy ->.
Qed.

Lemma num_of_nat_inj m n : num_of_nat m = num_of_nat n → m = n.
Proof. unfold num_of_nat. intros [= H]. lia. Qed.

Lemma cell_numbered name K (f : string → value) x c :
  name ∉ K → c ∈ K → cell (name :: K) (x :: (f <$> K)) c = f c.
Proof.
  intros Hname Hc. unfold cell. simpl. rewrite decide_False by (by intros ->).
  destruct (col_pos_is_Some c K Hc) as [q Hq]. rewrite Hq. simpl.
  apply col_pos_Some in Hq. by rewrite list_lookup_fmap, Hq.
Qed.

Lemma id_of_Some df K l :
  l ∈ data df →
  ∃ n, id_of df K l = num_of_nat n
    ∧ first_seen (combinations df K) !! n = Some (cell (columns df) l <$> K).
Proof.
  intros (r & -> & Hr)%list_elem_of_fmap. unfold id_of.
  destruct (first_index_elem_of (cell (columns df) r.2 <$> K)
              (first_seen (combinations df K))) as [n Hn].
  { rewrite first_seen_elem_of. unfold combinations.
    apply list_elem_of_fmap. by exists r. }
  rewrite Hn. exists n. split; [done|]. by apply first_index_Some.
Qed.

Lemma group_id_mapping_Ok df cols name :
  name ∉ columns df →
  key_columns df cols ≠ [] →
  Forall (λ c, c ∈ columns df) (key_columns df cols) →
  group_id df cols name false
  = ([], Ok (mkFrame (name :: key_columns df cols)
               (numbered (first_seen (combinations df (key_columns df cols)))))).
Proof.
  intros Hname HK HKne. unfold group_id. rewrite decide_False by done.
  change (match cols with None | Some [] => columns df | Some cs => cs end)
    with (key_columns df cols).
  by rewrite unique_table_Ok.
Qed.

Lemma combinations_numbered name K ks :
  name ∉ K → Forall (λ k, ∃ f : string → value, k = f <$> K) ks →
  combinations (mkFrame (name :: K) (numbered ks)) K = ks.
Proof.
  intros Hname Hks. unfold combinations, numbered. simpl.
  rewrite <-list_fmap_compose.
  etrans; [|apply (snd_zip (range_index (length ks)) ks);
            unfold range_index; by rewrite length_fmap, length_seq].
  apply list_fmap_ext. intros i [x k] Hk%list_elem_of_lookup_2. simpl.
  apply elem_of_zip_r in Hk. rewrite Forall_forall in Hks.
  destruct (Hks k Hk) as [f ->]. apply list_fmap_ext.
  intros j c Hc%list_elem_of_lookup_2. by apply cell_numbered.
Qed.

Lemma group_id_mapping_inv df cols name out xwalk :
  group_id df cols name false = (out, Ok xwalk) →
  (name ∉ columns df) ∧ Forall (λ c, c ∈ columns df) (key_columns df cols).
Proof.
  unfold group_id.
  change (match cols with None | Some [] => columns df | Some cs => cs end)
    with (key_columns df cols).
  case_decide as Hname; [done|]. intros H. split; [done|].
  unfold unique_table, select_cols in H. by case_decide.
Qed.

(** Numbering the table of combinations once more, under a new id name,
    gives the same rows: the combinations are distinct already and keep
    their order, so every combination keeps its id.  The table has no
    column name twice and no key column is named twice, so that the table
    of combinations has one column per key. *)
Theorem group_id_crosswalk_idempotent df cols name name' xwalk :
  NoDup (columns df) →
  key_columns df cols ≠ [] →
  NoDup (key_columns df cols) →
  group_id df cols name false = ([], Ok xwalk) →
  name' ∉ columns xwalk →
  group_id xwalk (Some (key_columns df cols)) name' false
  = ([], Ok (mkFrame (name' :: key_columns df cols) (rows xwalk))).
Proof.
  intros _ HKne _ Hx Hname'.
  destruct (group_id_mapping_inv _ _ _ _ _ Hx) as [Hname HK].
  rewrite group_id_mapping_Ok in Hx by done. injection Hx as <-.
  set (K := key_columns df cols) in *. simpl in Hname'.
  assert (key_columns (mkFrame (name :: K) (numbered (first_seen (combinations df K))))
            (Some K) = K) as HKK by (by destruct K).
  assert (name ∉ K) as HnK.
  { intros Hin. rewrite Forall_forall in HK. by apply Hname, HK. }
  rewrite group_id_mapping_Ok; rewrite ?HKK; simpl; try done.
  - rewrite combinations_numbered, first_seen_id; [done | apply first_seen_NoDup | done |].
    apply Forall_forall. intros k Hk. apply (proj1 (first_seen_elem_of _ _)) in Hk.
    unfold combinations in Hk. apply list_elem_of_fmap in Hk as (r & -> & _).
    by eexists.
  - apply Forall_forall. intros c Hc. by right.
Qed.

(** ** winsorize: when it returns and what it raises *)

Lemma mapM_Ok_iff {A B} (f : A → result B) l :
  (∃ ys, mapM f l = Ok ys) ↔ Forall (λ x, ∃ y, f x = Ok y) l.
Proof.
  induction l as [|x l IH]; simpl.
  - split; [constructor | by eexists].
  - rewrite Forall_cons, <-IH. split.
    + intros [ys H]. destruct (f x) as [y|]; [|done]. simpl in H.
      destruct (mapM f l) as [ys'|]; [|done]. split; by eexists.
    + intros [[y ->] [ys ->]]. by eexists.
Qed.

Lemma mapM_Raise {A B} (f : A → result B) l e :
  mapM f l = Raise e → ∃ x, x ∈ l ∧ f x = Raise e.
Proof.
  induction l as [|x l IH]; simpl; [done|].
  destruct (f x) as [y|e'] eqn:Hx; simpl.
  - destruct (mapM f l) as [ys|e']; simpl; [done|]. intros [= ->].
    destruct IH as (x' & ? & ?); [done|]. exists x'. split; [by right | done].
  - intros [= ->]. exists x. split; [by left | done].
Qed.

Lemma numbers_of_Ok_iff vs :
  (∃ qs, numbers_of vs = Ok qs) ↔ Forall (λ v, ∀ s, v ≠ VStr s) vs.
Proof.
  induction vs as [|v vs IH]; simpl.
  - split; [constructor | by eexists].
  - rewrite Forall_cons, <-IH. destruct v as [q|s|].
    + split.
      * intros [qs H]. destruct (numbers_of vs); [|done]. split; [done | by eexists].
      * intros [_ [qs ->]]. by eexists.
    + split; [by intros [??] | intros [H _]; by destruct (H s)].
    + split; [by intros [qs ->]; split; [|eexists] | by intros [_ ?]].
Qed.

Lemma numbers_of_Raise vs e :
  numbers_of vs = Raise e → e = TypeError ∧ ∃ s, VStr s ∈ vs.
Proof.
  induction vs as [|v vs IH]; simpl; [done|]. destruct v as [q|s|].
  - destruct (numbers_of vs); simpl; [done|]. intros [= ->].
    destruct IH as [-> [s Hs]]; [done|]. split; [done|]. exists s. by right.
  - intros [= <-]. split; [done|]. exists s. by left.
  - intros H. destruct (IH H) as [-> [s Hs]]. split; [done|]. exists s. by right.
Qed.

Lemma quantile_Ok_iff vs p :
  (∃ c, quantile vs p = Ok c)
  ↔ ((0 ≤ p.1 ∧ p.1 ≤ 1)%Qc ∧ (0 ≤ p.2 ∧ p.2 ≤ 1)%Qc)
    ∧ Forall (λ v, ∀ s, v ≠ VStr s) vs.
Proof.
  unfold quantile. rewrite <-numbers_of_Ok_iff. case_decide as Hq.
  - split.
    + intros [v H]. destruct (numbers_of vs); [|done]. split; [done | by eexists].
    + intros [_ [qs ->]]. by eexists.
  - split; [by intros [??] | by intros [??]].
Qed.

Lemma cutoffs_Ok_iff df cp :
  (∃ c, cutoffs df cp.1 cp.2 = Ok c) ↔ trimmable df cp.
Proof.
  unfold cutoffs, trimmable. destruct (get_col cp.1 df) as [vs|e]; simpl.
  - rewrite quantile_Ok_iff. split.
    + intros [[H1 H2] Hvs]. by exists vs.
    + by intros (vs' & [= <-] & Hvs & H1 & H2).
  - split; [by intros [??] | by intros (? & ? & _)].
Qed.

(** When [winsorize] returns: exactly when lines 103-106 give one pair of
    probabilities per column and every column can be trimmed at its pair
    (it is a column of the table, holds no string, and both probabilities
    lie in [0, 1]). *)
Theorem winsorize_returns_iff df by_ p :
  (∃ out, winsorize df by_ p = Ok out)
  ↔ ∃ ps, quantile_pairs p (force_iterable by_) = Ok ps
      ∧ Forall (trimmable df) (zip (force_iterable by_) ps).
Proof.
  rewrite winsorize_eq.
  destruct (quantile_pairs p (force_iterable by_)) as [ps|e]; simpl.
  - transitivity (∃ cuts, mapM (λ cp, cutoffs df cp.1 cp.2)
                            (zip (force_iterable by_) ps) = Ok cuts).
    + split.
      * intros [out H]. destruct (mapM _ _) as [cuts|]; [by eexists | done].
      * intros [cuts ->]. by eexists.
    + rewrite mapM_Ok_iff. split.
      * intros H. exists ps. split; [done|].
        eapply Forall_impl; [exact H|]. intros cp. apply cutoffs_Ok_iff.
      * intros (ps' & [= <-] & H).
        eapply Forall_impl; [exact H|]. intros cp. apply cutoffs_Ok_iff.
  - split; [by intros [??] | by intros (? & ? & _)].
Qed.

Lemma quantile_Raise vs p e :
  quantile vs p = Raise e →
  (e = ValueError ∧ ∃ q, (q = p.1 ∨ q = p.2) ∧ ¬ (0 ≤ q ∧ q ≤ 1)%Qc)
  ∨ (e = TypeError ∧ ∃ s, VStr s ∈ vs).
Proof.
  unfold quantile. case_decide as Hq.
  - destruct (numbers_of vs) as [qs|e'] eqn:Hn; simpl; [done|]. intros [= ->].
    right. by apply numbers_of_Raise.
  - intros [= <-]. left. split; [done|].
    destruct (decide (0 ≤ p.1 ∧ p.1 ≤ 1)%Qc) as [H1|H1]; [|by exists p.1; auto].
    exists p.2. split; [auto|]. intros H2. by apply Hq.
Qed.

Lemma cutoffs_Raise df c pq e :
  cutoffs df c pq = Raise e →
  (e = KeyError ∧ c ∉ columns df)
  ∨ (e = ValueError ∧ ∃ q, (q = pq.1 ∨ q = pq.2) ∧ ¬ (0 ≤ q ∧ q ≤ 1)%Qc)
  ∨ (e = TypeError ∧ ∃ vs s, get_col c df = Ok vs ∧ VStr s ∈ vs).
Proof.
  unfold cutoffs. destruct (get_col c df) as [vs|e'] eqn:Hget; simpl.
  - intros [[-> ?]|[-> [s ?]]]%quantile_Raise; right; [by left|right].
    split; [done|]. by exists vs, s.
  - intros [= ->]. left. unfold get_col in Hget.
    destruct (col_pos c (columns df)) eqn:E; [done|].
    injection Hget as <-. split; [done|]. by apply col_pos_None.
Qed.

Lemma quantile_pairs_elem_of p by_ ps pq :
  quantile_pairs p by_ = Ok ps → pq ∈ ps → pq ∈ pairs_of p.
Proof.
  destruct p as [pq0|[|q qs]]; simpl; [|done|].
  - intros [= <-] [-> _]%elem_of_replicate. apply list_elem_of_here.
  - case_bool_decide; simpl; [|done]. by intros [= <-].
Qed.

(** What [winsorize] raises and why: [IndexError] for an empty list of
    pairs ([p[0]] on line 103), [AssertionError] when the number of pairs
    is not the number of columns (line 104), [KeyError] for a name that is
    no column, [TypeError] for a column that holds a string, [ValueError]
    for a probability outside [0, 1]; nothing else. *)
Theorem winsorize_raises df by_ p e :
  winsorize df by_ p = Raise e →
  match e with
  | IndexError => p = PPerCol []
  | AssertionError =>
      ∃ ps, p = PPerCol ps ∧ ps ≠ [] ∧ length ps ≠ length (force_iterable by_)
  | KeyError => ∃ c, c ∈ force_iterable by_ ∧ c ∉ columns df
  | TypeError =>
      ∃ c vs s, c ∈ force_iterable by_ ∧ get_col c df = Ok vs ∧ VStr s ∈ vs
  | ValueError =>
      ∃ pq q, pq ∈ pairs_of p ∧ (q = pq.1 ∨ q = pq.2) ∧ ¬ (0 ≤ q ∧ q ≤ 1)%Qc
  | MergeError | OutOfFuel => False
  end.
Proof.
  rewrite winsorize_eq.
  destruct (quantile_pairs p (force_iterable by_)) as [ps|e'] eqn:Hps; simpl.
  - destruct (mapM _ _) as [cuts|e'] eqn:Hcuts; simpl; [done|]. intros [= ->].
    apply mapM_Raise in Hcuts as ([c pq] & Hin & Hc).
    pose proof (elem_of_zip_l _ _ _ _ Hin) as Hc_in.
    pose proof (quantile_pairs_elem_of _ _ _ _ Hps (elem_of_zip_r _ _ _ _ Hin)) as Hpq.
    simpl in Hc.
    destruct (cutoffs_Raise _ _ _ _ Hc)
      as [[-> ?]|[[-> (q & ? & ?)]|[-> (vs & s & ? & ?)]]].
    + by exists c.
    + by exists pq, q.
    + by exists c, vs, s.
  - intros [= ->]. destruct p as [pq|[|q qs]]; simpl in Hps; [done| |].
    + by injection Hps as <-.
    + case_bool_decide as Hl; simpl in Hps; [done|]. injection Hps as <-.
      by exists (q :: qs).
Qed.

(** Trimming on several columns with one pair of probabilities keeps
    exactly the rows that trimming on each of the columns alone keeps, in
    the order of the table: the cut-offs of every column are taken from
    the whole table, not from the rows that survived the columns before,
    so neither the order of the columns nor a repeated column matters. *)
Theorem winsorize_by_columns df cs pq out :
  winsorize df (ByMany cs) (PShared pq) = Ok out →
  rows out `sublist_of` rows df
  ∧ ∀ r, r ∈ rows out ↔
      r ∈ rows df
      ∧ ∀ c, c ∈ cs →
          ∃ out_c, winsorize df (ByOne c) (PShared pq) = Ok out_c ∧ r ∈ rows out_c.
Proof.
  rewrite winsorize_eq. simpl.
  destruct (mapM _ _) as [cuts|] eqn:Hcuts; simpl; [|done]. intros [= <-]. simpl.
  split; [apply sublist_filter|].
  assert (∀ i c, cs !! i = Some c →
            ∃ cut, cutoffs df c pq = Ok cut ∧ cuts !! i = Some cut) as Hcut.
  { clear -Hcuts. revert cuts Hcuts.
    induction cs as [|c0 cs IH]; intros cuts H i c Hi; [done|].
    simpl in H. destruct (cutoffs df c0 pq) as [cut0|] eqn:H0; [|done]. simpl in H.
    destruct (mapM _ _) as [cuts'|] eqn:H'; [|done]. injection H as <-.
    destruct i as [|i]; simpl in Hi.
    - injection Hi as <-. by exists cut0.
    - by apply (IH cuts'). }
  assert (∀ c, winsorize df (ByOne c) (PShared pq)
                 = (cut ← cutoffs df c pq;
                    Ok (mkFrame (if decide (rows df = []) then [] else columns df)
                          (filter (λ r : value * row, within cut (cell (columns df) r.2 c) = true)
                                  (rows df))))) as Hone.
  { intros c. rewrite winsorize_eq. simpl.
    destruct (cutoffs df c pq) as [cut|]; [|done]. simpl. f_equal. f_equal.
    apply list_filter_iff. intros r. unfold kept. simpl. by rewrite andb_true_r. }
  intros r. rewrite list_elem_of_filter, kept_iff. split.
  - intros [Hk Hr]. split; [done|]. intros c [i Hi]%list_elem_of_lookup.
    destruct (Hcut i c Hi) as (cut & Hc & Hci).
    rewrite (Hone c), Hc. simpl. eexists. split; [done|]. simpl.
    apply list_elem_of_filter. split; [|done]. by eapply Hk.
  - intros [Hr Hall]. split; [|done]. intros i c cut Hi Hci.
    destruct (Hall c (list_elem_of_lookup_2 _ _ _ Hi)) as (out_c & Ho & Hin).
    destruct (Hcut i c Hi) as (cut' & Hc & Hci'). rewrite Hci in Hci'.
    injection Hci' as <-. rewrite (Hone c), Hc in Ho. simpl in Ho.
    injection Ho as <-. simpl in Hin. by apply list_elem_of_filter in Hin as [? _].
Qed.

Lemma within_iff c v :
  within c v = true ↔
  ∃ x lo hi : Qc, v = VNum x ∧ c = (VNum lo, VNum hi) ∧ (lo ≤ x ∧ x ≤ hi)%Qc.
Proof.
  unfold within, elem_leb. destruct c as [[lo|s|] [hi|t|]], v as [x|u|]; simpl;
    rewrite ?andb_false_r;
    try (split; [done | by intros (? & ? & ? & ? & ? & ?)]).
  rewrite andb_true_iff, !Qle_bool_iff. split.
  - intros [??]. by exists x, lo, hi.
  - by intros (? & ? & ? & [= <-] & [= <- <-] & ?).
Qed.

(** The rows [winsorize] keeps are the rows inside a box: there is one pair
    of bounds per column to trim on (its two cut-offs), and a row of the
    table is kept exactly when, for every one of these columns, its cell is
    a number between the two bounds, bounds included.  A cell that is
    missing is between no bounds, and a bound that is missing (a cut-off of
    a column without a number) keeps no row.  The rows that are kept are in
    the order of the table. *)
Theorem winsorize_rows_within_bounds df by_ p out :
  winsorize df by_ p = Ok out →
  rows out `sublist_of` rows df
  ∧ ∃ cuts : list (value * value),
      length cuts = length (force_iterable by_)
      ∧ ∀ r, r ∈ rows out ↔
          r ∈ rows df
          ∧ ∀ i col c, force_iterable by_ !! i = Some col → cuts !! i = Some c →
              ∃ x lo hi : Qc,
                cell (columns df) r.2 col = VNum x
                ∧ c = (VNum lo, VNum hi) ∧ (lo ≤ x ∧ x ≤ hi)%Qc.
Proof.
  intros (ps & cuts & Hps & Hcuts & _ & ->)%winsorize_Ok.
  split; [apply sublist_filter|]. exists cuts. split.
  - apply mapM_length in Hcuts. rewrite length_zip_with in Hcuts.
    apply quantile_pairs_length in Hps. lia.
  - intros r. rewrite list_elem_of_filter, kept_iff. split.
    + intros [Hk Hr]. split; [done|]. intros i col c Hi Hc.
      apply within_iff. by eapply Hk.
    + intros [Hr Hk]. split; [|done]. intros i col c Hi Hc.
      apply within_iff. by eapply Hk.
Qed.

(** With no column to trim on and one pair of probabilities, [winsorize]
    returns a table with rows as it is, and a table with no rows without
    its columns (the mask of line 108 is then no array of booleans).  A list
    of pairs fails, with [IndexError] when it is empty (line 103) and
    [AssertionError] when it is not (line 104). *)
Theorem winsorize_no_columns df p :
  winsorize df (ByMany []) p
  = match p with
    | PShared _ => Ok (if decide (rows df = []) then mkFrame [] [] else df)
    | PPerCol [] => Raise IndexError
    | PPerCol (_ :: _) => Raise AssertionError
    end.
Proof.
  destruct p as [pq|[|q qs]]; try done.
  rewrite winsorize_eq. simpl. f_equal.
  case_decide as Hrows; [by rewrite Hrows|].
  destruct df as [cols rs]. simpl. f_equal.
  apply filter_all. by apply Forall_forall.
Qed.

(** ** The table returned is a new object *)

Module HeapFresh.
Import Heap HeapFacts.

#[local] Hint Resolve keeps_load keeps_lift_py keeps_lift_result keeps_getitem
  keeps_copy keeps_merge keeps_alloc : keeps.
#[local] Hint Resolve keeps_store keeps_setitem keeps_setitem_const keeps_delitem
  : keeps.

(** A call that raises returns no value. *)
Lemma keeps_raise {A} n e (Q : A → Prop) : keeps n (lift_result (Raise e)) Q.
Proof. intros h Hn. by repeat split. Qed.

Lemma stata_merge_fresh n left right assertval gen kw :
  keeps n (Heap.stata_merge left right assertval gen kw) (λ new, n ≤ new).
Proof.
  unfold Heap.stata_merge. do 15 keeps_step.
  destruct (truthy assertval) as [v|].
  - keeps_step. destruct (forallb _ _); repeat keeps_step.
    apply keeps_raise.
  - repeat keeps_step.
Qed.

Lemma winsorize_fresh n df by_ p :
  keeps n (Heap.winsorize df by_ p) (λ new, n ≤ new).
Proof. unfold Heap.winsorize. repeat keeps_step. Qed.

Lemma group_id_fresh n df cols name merge_back :
  keeps n (Heap.group_id df cols name merge_back) (λ new, n ≤ new).
Proof.
  unfold Heap.group_id. keeps_step. case_decide; [apply keeps_raise|].
  do 9 keeps_step. destruct merge_back; [|by keeps_step].
  eapply keeps_bind; [apply stata_merge_fresh|]. intros unique_df Hu.
  do 2 keeps_step. destruct (shape _) as [new_i new_j], (shape _) as [old_i old_j].
  repeat keeps_step.
Qed.

(** The table each of the three functions returns is a new object, none
    of the objects that existed when the call started (in particular none
    of its arguments), also when nothing was trimmed or joined. *)
Theorem result_is_new_object (h : heap) :
  (∀ left right assertval gen kw,
     match (Heap.stata_merge left right assertval gen kw h).2.2 with
     | Ok new => length h ≤ new
     | Raise _ => True
     end)
  ∧ (∀ df by_ p,
       match (Heap.winsorize df by_ p h).2.2 with
       | Ok new => length h ≤ new
       | Raise _ => True
       end)
  ∧ (∀ df cols name merge_back,
       match (Heap.group_id df cols name merge_back h).2.2 with
       | Ok new => length h ≤ new
       | Raise _ => True
       end).
Proof.
  split; [|split].
  - intros left right assertval gen kw.
    destruct (stata_merge_fresh (length h) left right assertval gen kw h)
      as (_ & _ & H); [done|].
    match goal with |- match ?r with _ => _ end => destruct r end; [by apply H | done].
  - intros df by_ p.
    destruct (winsorize_fresh (length h) df by_ p h) as (_ & _ & H); [done|].
    match goal with |- match ?r with _ => _ end => destruct r end; [by apply H | done].
  - intros df cols name merge_back.
    destruct (group_id_fresh (length h) df cols name merge_back h)
      as (_ & _ & H); [done|].
    match goal with |- match ?r with _ => _ end => destruct r end; [by apply H | done].
Qed.

(** [group_id] leaves the caller's table alone, with and without merging
    and also when it raises: the objects of the heap are the same after
    the call as before.  With [merge=True] the id column is added to a
    copy, as the docstring says. *)
Theorem group_id_input_not_mutated (h : heap) df cols name merge_back :
  take (length h) (Heap.group_id df cols name merge_back h).1 = h.
Proof.
  destruct (group_id_fresh (length h) df cols name merge_back h) as [H _]; [done|].
  by rewrite H, firstn_all.
Qed.

End HeapFresh.

(** ** The two versions of [group_id] agree *)

Module HeapGroup.
Import HeapRun.

(** A run of [stata_merge] over references that returns leaves three new
    objects behind the heap it started from: the two copies and the table
    it returns. *)
Lemma stata_merge_run h l r assertval gen kw L R :
  h !! l = Some L → h !! r = Some R →
  let res := Heap.stata_merge l r assertval gen kw h in
  let pure := stata_merge L R assertval gen kw in
  res.2.1 = pure.1 ∧
  match res.2.2, pure.2 with
  | Ok new, Ok df =>
      new = S (S (length h)) ∧ ∃ c1 c2, res.1 = h ++ [c1; c2; df]
  | Raise e, Raise e' => e = e'
  | _, _ => False
  end.
Proof.
  intros HL HR. cbv zeta.
  unfold Heap.stata_merge, stata_merge, merge_flag.
  rewrite !bind_load, HL, HR. simpl default.
  rewrite bind_lift_result.
  destruct (from_fuel (left_marker (columns L))) as [lt|e]; [|done].
  rewrite bind_lift_result, result_bind_Ok.
  destruct (from_fuel (right_marker (columns R))) as [rt|e]; [|done].
  rewrite result_bind_Ok.
  pose proof (lookup_lt_Some _ _ _ HR) as Hr.
  rewrite bind_copy, HL. simpl default.
  rewrite bind_copy, (lookup_app_l h [L] r Hr), HR. simpl default.
  rewrite <-app_assoc. simpl app. rewrite length_app. simpl length. rewrite Nat.add_1_r.
  rewrite bind_setitem_const, lookup_0, insert_0. simpl default.
  rewrite bind_setitem_const, lookup_1, insert_1. simpl default.
  rewrite bind_merge, lookup_0, lookup_1. simpl default.
  destruct (pd_merge _ _ kw) as [m|e]; [|done]. rewrite result_bind_Ok.
  rewrite length_app. simpl length.
  replace (length h + 2) with (S (S (length h))) by lia.
  rewrite <-app_assoc. simpl app.
  rewrite bind_getitem, lookup_2. simpl default.
  destruct (get_col lt m) as [a|e]; [|done]. rewrite result_bind_Ok.
  rewrite bind_getitem, lookup_2. simpl default.
  destruct (get_col rt m) as [b|e]; [|done]. rewrite result_bind_Ok.
  rewrite bind_lift_result.
  destruct (series_add a b) as [flags|e]; [|done]. rewrite result_bind_Ok.
  rewrite bind_setitem, lookup_2, insert_2. simpl default.
  rewrite bind_delitem, lookup_2. simpl default.
  destruct (del_col lt _) as [d1|e]; [|done]. rewrite result_bind_Ok, insert_2.
  rewrite bind_delitem, lookup_2. simpl default.
  destruct (del_col rt d1) as [new|e]; [|done]. rewrite insert_2.
  rewrite py_bind_lift_Ok.
  unfold check_flag. destruct (truthy assertval) as [v|].
  - rewrite bind_getitem, lookup_2. simpl default.
    destruct (get_col gen new) as [fl|e] eqn:Hfl; [|done].
    rewrite py_bind_lift_Ok.
    destruct (forallb _ fl).
    + rewrite bind_delitem, lookup_2. simpl default.
      destruct (del_col gen new) as [out|e]; [|done]. simpl.
      rewrite insert_2. split; [done|]. split; [done|]. by eexists _, _.
    + rewrite bind_print, bind_load, lookup_2. simpl default.
      rewrite bind_lift_result.
      by destruct (distribution gen new) as [d|e].
  - rewrite bind_load, lookup_2. simpl default. rewrite bind_lift_result.
    destruct (distribution gen new) as [d|e]; [|done]. simpl.
    split; [done|]. split; [done|]. by eexists _, _.
Qed.

Lemma bind_run {A B} (m : Heap.St A) (k : A → Heap.St B) h :
  (m ≫= k) h
  = match m h with
    | (h1, (out, Ok a)) => ((k a h1).1, (out ++ (k a h1).2.1, (k a h1).2.2))
    | (h1, (out, Raise e)) => (h1, (out, Raise e))
    end.
Proof. done. Qed.

Lemma lookup_3 {A} (h : list A) x y z w t :
  (h ++ x :: y :: z :: w :: t) !! S (S (S (length h))) = Some w.
Proof.
  rewrite lookup_app_r by lia.
  by replace (S (S (S (length h))) - length h) with 3 by lia.
Qed.

(** The version of [group_id] over references computes what the version
    over tables computes: the same output, the same exception, and on
    success a reference to the same table. *)
Theorem group_id_refines h l cols name merge_back df :
  h !! l = Some df →
  let res := Heap.group_id l cols name merge_back h in
  let pure := group_id df cols name merge_back in
  res.2.1 = pure.1 ∧
  match res.2.2, pure.2 with
  | Ok new, Ok out => res.1 !! new = Some out
  | Raise e, Raise e' => e = e'
  | _, _ => False
  end.
Proof.
  intros Hl. cbv zeta. unfold Heap.group_id, group_id, unique_table.
  rewrite bind_load, Hl.
  change (default (mkFrame [] []) (Some df)) with df.
  set (K := match cols with None | Some [] => columns df | Some cs => cs end).
  destruct (decide (name ∈ columns df)) as [Hname|Hname]; [done|].
  rewrite bind_lift_result.
  destruct (select_cols K df) as [sel|e]; [|done]. rewrite result_bind_Ok.
  rewrite bind_alloc, bind_load, lookup_0. simpl default.
  rewrite bind_alloc, bind_load.
  rewrite <-app_assoc. simpl app. rewrite length_app. cbn [length]. rewrite Nat.add_1_r.
  rewrite lookup_1. simpl default.
  rewrite bind_alloc, bind_load.
  rewrite <-app_assoc. simpl app. rewrite length_app. cbn [length].
  replace (length h + 2) with (S (S (length h))) by lia.
  rewrite lookup_2. simpl default.
  rewrite bind_lift_result.
  destruct (reset_index_named name _) as [named|e]; [|done].
  rewrite py_bind_lift_Ok, bind_alloc.
  rewrite <-app_assoc. simpl app. rewrite length_app. cbn [length].
  replace (length h + 3) with (S (S (S (length h)))) by lia.
  destruct merge_back.
  2:{ simpl. split; [done|]. apply lookup_3. }
  set (h4 := h ++ [sel; drop_duplicates sel; reset_index_drop (drop_duplicates sel); named]).
  assert (h4 !! l = Some df) as Hl4.
  { unfold h4. rewrite lookup_app_l; [done|]. by eapply lookup_lt_Some. }
  assert (h4 !! S (S (S (length h))) = Some named) as Hn4 by apply lookup_3.
  pose proof (stata_merge_run h4 l _ (Some 3%Z) "_m" (mkKwargs (Some K) how_left)
                df named Hl4 Hn4) as Hrun.
  cbv zeta in Hrun. rewrite bind_run, py_bind_run.
  destruct (Heap.stata_merge _ _ _ _ _ h4) as [h5 [out [new|e]]];
    destruct (stata_merge df named _ _ _) as [out' [m|e']]; simpl in Hrun;
    destruct Hrun as [-> Hrun]; try done.
  destruct Hrun as (-> & c1 & c2 & ->).
  assert ((h4 ++ [c1; c2; m]) !! l = Some df) as Hl7.
  { rewrite lookup_app_l; [done|]. by eapply lookup_lt_Some. }
  rewrite bind_load, lookup_2. simpl default.
  rewrite bind_load, Hl7.
  change (default (mkFrame [] []) (Some df)) with df.
  destruct (shape m) as [new_i new_j] eqn:Hsm, (shape df) as [old_i old_j] eqn:Hsd.
  rewrite bind_lift_result.
  destruct (py_assert _) as [[]|e]; [|simpl; by rewrite app_nil_r].
  rewrite bind_lift_result.
  destruct (set_index (index df) m) as [m'|e]; [|simpl; by rewrite app_nil_r].
  rewrite bind_store. simpl. rewrite !app_nil_r. split; [done|].
  rewrite insert_2. apply lookup_2.
Qed.

End HeapGroup.

(** ** The join of the marked tables is the join of the tables, marked *)

Lemma filter_fmap_on {A B} (P : A → Prop) (P' : B → Prop)
    `{!∀ x, Decision (P x)} `{!∀ y, Decision (P' y)} (g : A → B) (l : list A) :
  Forall (λ x, P' (g x) ↔ P x) l → filter P' (g <$> l) = g <$> filter P l.
Proof.
  induction 1 as [|x l Hx _ IH]; csimpl; [done|].
  rewrite !filter_cons. destruct (decide (P x)) as [HP|HP].
  - rewrite decide_True by (by apply Hx). csimpl. by rewrite IH.
  - rewrite decide_False by (by rewrite Hx). done.
Qed.

Lemma forallb_fmap {A B} (p : B → bool) (f : A → B) (l : list A) :
  forallb p (f <$> l) = forallb (p ∘ f) l.
Proof. induction l as [|x l IH]; csimpl; [done | by rewrite IH]. Qed.

Lemma forallb_ext_on {A} (p q : A → bool) (l : list A) :
  Forall (λ x, p x = q x) l → forallb p l = forallb q l.
Proof. induction 1 as [|x l Hx _ IH]; simpl; [done | by rewrite Hx, IH]. Qed.

Lemma insert_sorted_fmap {A B} (leb : A → A → bool) (leb' : B → B → bool)
    (m : A → B) x l :
  Forall (λ y, leb' (m x) (m y) = leb x y) l →
  insert_sorted leb' (m x) (m <$> l) = m <$> insert_sorted leb x l.
Proof.
  induction 1 as [|y l Hy _ IH]; csimpl; [done|].
  rewrite Hy. destruct (leb x y); csimpl; [done | by rewrite IH].
Qed.

Lemma sort_by_fmap {A B} (leb : A → A → bool) (leb' : B → B → bool)
    (m : A → B) l :
  (∀ x y, x ∈ l → y ∈ l → leb' (m x) (m y) = leb x y) →
  sort_by leb' (m <$> l) = m <$> sort_by leb l.
Proof.
  induction l as [|x l IH]; intros H; csimpl; [done|].
  rewrite IH by (intros; apply H; by right).
  apply insert_sorted_fmap, Forall_forall. intros y Hy.
  apply H; [by left|]. right. by rewrite <-(sort_by_Permutation leb l).
Qed.

Section marked_rows.
Variables (lc rc lc' rc' K : list string) (ls rs : list row).
Hypothesis HL : Forall (λ l, key_of_left lc' K (l ++ [num_of_Z 1]) = key_of_left lc K l) ls.
Hypothesis HR : Forall (λ r, key_of_right rc' K (r ++ [num_of_Z 2]) = key_of_right rc K r) rs.

Let ls' := (λ l : row, l ++ [num_of_Z 1]) <$> ls.
Let rs' := (λ r : row, r ++ [num_of_Z 2]) <$> rs.

Lemma key_match_marked l r :
  l ∈ ls → r ∈ rs →
  key_match lc' rc' K (l ++ [num_of_Z 1]) (r ++ [num_of_Z 2]) = key_match lc rc K l r.
Proof.
  intros Hl Hr. rewrite Forall_forall in HL, HR. unfold key_match.
  by rewrite (HL l Hl), (HR r Hr).
Qed.

Lemma matches_marked l :
  l ∈ ls →
  filter (λ r, key_match lc' rc' K (l ++ [num_of_Z 1]) r) rs'
  = (λ r : row, r ++ [num_of_Z 2]) <$> filter (λ r, key_match lc rc K l r) rs.
Proof.
  intros Hl. unfold rs'. apply filter_fmap_on, Forall_forall.
  intros r Hr. by rewrite key_match_marked.
Qed.

Lemma matches_marked_r r :
  r ∈ rs →
  filter (λ l, key_match lc' rc' K l (r ++ [num_of_Z 2])) ls'
  = (λ l : row, l ++ [num_of_Z 1]) <$> filter (λ l, key_match lc rc K l r) ls.
Proof.
  intros Hr. unfold ls'. apply filter_fmap_on, Forall_forall.
  intros l Hl. by rewrite key_match_marked.
Qed.

Lemma bind_fmap_on {A B C} (f : A → B) (k' : B → list C) (k : A → list C) (l : list A) :
  Forall (λ x, k' (f x) = k x) l → (f <$> l) ≫= k' = l ≫= k.
Proof. induction 1 as [|x l Hx _ IH]; csimpl; [done | by rewrite Hx, IH]. Qed.

Lemma fmap_bind_list {A B C} (m : B → C) (k : A → list B) (l : list A) :
  m <$> (l ≫= k) = l ≫= (λ x, m <$> k x).
Proof. induction l as [|x l IH]; csimpl; [done | by rewrite fmap_app, IH]. Qed.

Lemma inner_join_marked :
  inner_join lc' rc' K ls' rs' = marked <$> inner_join lc rc K ls rs.
Proof.
  unfold inner_join. rewrite fmap_bind_list. unfold ls'.
  apply bind_fmap_on, Forall_forall. intros l Hl.
  rewrite matches_marked by done. by rewrite <-!list_fmap_compose.
Qed.

Lemma left_join_marked :
  left_join lc' rc' K ls' rs' = marked <$> left_join lc rc K ls rs.
Proof.
  unfold left_join. rewrite fmap_bind_list. unfold ls'.
  apply bind_fmap_on, Forall_forall. intros l Hl.
  rewrite matches_marked by done.
  destruct (filter _ rs) as [|r ms]; csimpl; [done|].
  by rewrite <-!list_fmap_compose.
Qed.

Lemma right_join_marked :
  right_join lc' rc' K ls' rs' = marked <$> right_join lc rc K ls rs.
Proof.
  unfold right_join. rewrite fmap_bind_list. unfold rs'.
  apply bind_fmap_on, Forall_forall. intros r Hr.
  rewrite matches_marked_r by done.
  destruct (filter _ ls) as [|l ms]; csimpl; [done|].
  by rewrite <-!list_fmap_compose.
Qed.

Lemma right_unmatched_marked :
  right_unmatched lc' rc' K ls' rs' = marked <$> right_unmatched lc rc K ls rs.
Proof.
  unfold right_unmatched, rs'.
  rewrite (filter_fmap_on
             (λ r, forallb (λ l, negb (key_match lc rc K l r)) ls) _ _ rs).
  - by rewrite <-!list_fmap_compose.
  - apply Forall_forall. intros r Hr. unfold ls'. rewrite forallb_fmap.
    rewrite (forallb_ext_on _ (λ l, negb (key_match lc rc K l r)) ls); [done|].
    apply Forall_forall. intros l Hl. simpl. by rewrite key_match_marked.
Qed.

Lemma joined_key_marked j how :
  j ∈ join_rows lc rc K ls rs how →
  joined_key lc' rc' K (marked j) = joined_key lc rc K j.
Proof.
  intros Hj%join_rows_spec. rewrite Forall_forall in HL, HR.
  destruct j as [l r|l|r]; simpl.
  - apply HL, Hj.
  - apply HL, Hj.
  - apply HR, Hj.
Qed.

Lemma outer_join_marked :
  outer_join lc' rc' K ls' rs' = marked <$> outer_join lc rc K ls rs.
Proof.
  unfold outer_join. rewrite left_join_marked, right_unmatched_marked, <-fmap_app.
  apply sort_by_fmap. intros x y Hx Hy.
  assert (∀ j, j ∈ left_join lc rc K ls rs ++ right_unmatched lc rc K ls rs →
               j ∈ join_rows lc rc K ls rs how_outer) as Hin.
  { intros j Hj. simpl. unfold outer_join. by rewrite sort_by_Permutation. }
  by rewrite !(joined_key_marked _ how_outer) by auto.
Qed.

Lemma join_rows_marked how :
  join_rows lc' rc' K ls' rs' how = marked <$> join_rows lc rc K ls rs how.
Proof.
  destruct how; simpl.
  - apply inner_join_marked.
  - apply left_join_marked.
  - apply right_join_marked.
  - apply outer_join_marked.
Qed.
End marked_rows.

(** ** Setting a column and deleting another one commute *)

Lemma list_delete_insert_ne {A} (l : list A) i p v :
  i ≠ p → i < length l → p < length l →
  delete p (<[i := v]> l) = <[(if decide (i < p) then i else i - 1) := v]> (delete p l).
Proof.
  intros Hne Hi Hp. apply list_eq. intros k.
  assert (length (delete p l) = length l - 1) as Hlen
    by (by apply length_delete, lookup_lt_is_Some).
  destruct (decide (k < p)) as [Hk|Hk].
  - rewrite list_lookup_delete_lt by done. case_decide.
    + destruct (decide (k = i)) as [->|].
      * rewrite !list_lookup_insert_eq; [done| |done].
        rewrite Hlen. lia.
      * rewrite !list_lookup_insert_ne by done. by rewrite list_lookup_delete_lt.
    + rewrite !list_lookup_insert_ne by lia. by rewrite list_lookup_delete_lt.
  - rewrite list_lookup_delete_ge by lia. case_decide.
    + rewrite !list_lookup_insert_ne by lia. by rewrite list_lookup_delete_ge by lia.
    + destruct (decide (S k = i)) as [<-|].
      * replace (S k - 1) with k by lia.
        rewrite !list_lookup_insert_eq; [done| |done].
        rewrite Hlen. lia.
      * rewrite !list_lookup_insert_ne by lia.
        by rewrite list_lookup_delete_ge by lia.
Qed.

Lemma list_delete_app_l {A} (l k : list A) p :
  p < length l → delete p (l ++ k) = delete p l ++ k.
Proof.
  intros Hp. rewrite !delete_take_drop, <-app_assoc.
  rewrite take_app_le, drop_app_le by lia. done.
Qed.

Lemma zip_with_fmap_left {A A' B C} (f : A' → B → C) (g : A → A') (l : list A) (k : list B) :
  zip_with f (g <$> l) k = zip_with (λ x, f (g x)) l k.
Proof. revert k; induction l as [|x l IH]; intros [|y k]; csimpl; try done. by rewrite IH. Qed.

Lemma fmap_zip_with_compose {A B C D} (h : C → D) (f : A → B → C) (l : list A) (k : list B) :
  h <$> zip_with f l k = zip_with (λ x y, h (f x y)) l k.
Proof. revert k; induction l as [|x l IH]; intros [|y k]; csimpl; try done. by rewrite IH. Qed.

Lemma zip_with_ext_on {A B C} (f g : A → B → C) (l : list A) (k : list B) :
  Forall (λ x, ∀ y, f x y = g x y) l → zip_with f l k = zip_with g l k.
Proof.
  intros H. revert k. induction H as [|x l Hx _ IH]; intros [|y k]; csimpl; try done.
  by rewrite Hx, IH.
Qed.

Lemma del_set_col_comm c d vs df :
  c ≠ d → rows_wf df →
  del_col d (set_col c vs df) = (df' ← del_col d df; Ok (set_col c vs df')).
Proof.
  intros Hne Hwf. unfold del_col, set_col.
  destruct (col_pos d (columns df)) as [p|] eqn:Hd; simpl.
  - pose proof (col_pos_lt _ _ _ Hd) as Hp.
    destruct (col_pos c (columns df)) as [i|] eqn:Hc; simpl.
    + rewrite Hd. rewrite (col_pos_delete c _ p d), Hc by done. simpl.
      f_equal. f_equal. rewrite fmap_zip_with_compose, zip_with_fmap_left.
      apply zip_with_ext_on. eapply Forall_impl; [exact Hwf|].
      intros r Hr v. simpl. f_equal. apply list_delete_insert_ne.
      * by eapply col_pos_ne.
      * rewrite Hr. by eapply col_pos_lt.
      * by rewrite Hr.
    + rewrite col_pos_app_l, Hd by (by eapply col_pos_elem_of).
      rewrite (col_pos_delete c _ p d), Hc by done. simpl.
      f_equal. f_equal.
      * by apply list_delete_app_l.
      * rewrite fmap_zip_with_compose, zip_with_fmap_left.
        apply zip_with_ext_on. eapply Forall_impl; [exact Hwf|].
        intros r Hr v. simpl. f_equal. apply list_delete_app_l. by rewrite Hr.
  - assert (col_pos d (columns (match col_pos c (columns df) with
              | Some i => mkFrame (columns df)
                  (zip_with (λ r v, (r.1, <[i:=v]> r.2)) (rows df) vs)
              | None => mkFrame (columns df ++ [c])
                  (zip_with (λ r v, (r.1, r.2 ++ [v])) (rows df) vs)
              end)) = None) as ->; [|done].
    destruct (col_pos c (columns df)); simpl; [done|].
    apply col_pos_None. apply col_pos_None in Hd.
    rewrite elem_of_app, list_elem_of_singleton. naive_solver.
Qed.

Lemma del_col_rows_wf c df df' : del_col c df = Ok df' → rows_wf df → rows_wf df'.
Proof.
  unfold del_col, rows_wf. destruct (col_pos c (columns df)) as [p|] eqn:Hc; [|done].
  intros [= <-] Hwf. simpl. apply Forall_fmap. eapply Forall_impl; [exact Hwf|].
  intros r Hr. simpl in *. apply col_pos_lt in Hc.
  rewrite !length_delete by (apply lookup_lt_is_Some; lia). by rewrite Hr.
Qed.

Lemma set_col_rows_wf c vs df : rows_wf df → rows_wf (set_col c vs df).
Proof.
  unfold set_col, rows_wf. intros Hwf.
  destruct (col_pos c (columns df)) as [i|]; simpl.
  - revert vs. induction Hwf as [|r rs Hr _ IH]; intros [|v vs]; csimpl;
      try by constructor.
    constructor; [simpl; by rewrite length_insert | apply IH].
  - revert vs. induction Hwf as [|r rs Hr _ IH]; intros [|v vs]; csimpl;
      try by constructor.
    constructor; [|apply IH]. simpl. rewrite !length_app. simpl. lia.
Qed.

Lemma pd_merge_rows_wf left right kw merged :
  pd_merge left right kw = Ok merged → rows_wf merged.
Proof.
  unfold pd_merge. destruct (merge_keys _ _ _) as [K|]; simpl; [|done].
  case_decide; [|done]. intros [= <-]. unfold rows_wf. simpl.
  apply Forall_forall. intros [lbl r] Hr%elem_of_zip_r.
  apply list_elem_of_fmap in Hr as (j & -> & _). apply build_row_length.
Qed.

(** Deleting a column that was just added gives the table back. *)
Lemma del_set_col_fresh c vs df :
  c ∉ columns df → rows_wf df → length vs = length (rows df) →
  del_col c (set_col c vs df) = Ok df.
Proof.
  intros Hc Hwf Hlen. unfold del_col, set_col.
  pose proof Hc as Hc'. apply col_pos_None in Hc'. rewrite Hc'. simpl.
  rewrite col_pos_last by done. destruct df as [cols rs]. simpl in *. f_equal.
  f_equal.
  - etrans; [apply delete_middle | apply app_nil_r].
  - rewrite fmap_zip_with_compose. revert vs Hlen. unfold rows_wf in Hwf. simpl in Hwf.
    induction Hwf as [|r rs' Hr _ IH]; intros [|v vs]; try done.
    intros [= Hlen]. csimpl. rewrite IH by done. f_equal.
    destruct r as [lbl r]. simpl in *. f_equal.
    rewrite <-Hr. etrans; [apply delete_middle | apply app_nil_r].
Qed.

(** ** stata_merge against the plain merge *)

Lemma merge_keys_columns on lcols rcols K :
  merge_keys on lcols rcols = Ok K →
  Forall (λ k, k ∈ lcols ∧ k ∈ rcols) K.
Proof.
  destruct on as [K0|].
  - by intros (-> & _ & ?)%merge_keys_Some.
  - simpl. destruct (filter _ lcols) as [|c cs] eqn:E; [done|].
    case_decide; [|done]. intros [= <-].
    rewrite <-E. apply Forall_forall. intros k [??]%list_elem_of_filter. done.
Qed.

Lemma mapM_ext {A B} (f g : A → result B) l :
  (∀ x, f x = g x) → mapM f l = mapM g l.
Proof. intros H. induction l as [|x l IH]; simpl; [done|]. by rewrite H, IH. Qed.

Lemma filter_eq_app_ne (cols : list string) c k :
  c ≠ k → filter (λ x, x = k) (cols ++ [c]) = filter (λ x, x = k) cols.
Proof.
  intros Hne. by rewrite filter_app, filter_cons_False, filter_nil, app_nil_r.
Qed.

Lemma filter_ext_on {A} (P Q : A → Prop)
    `{!∀ x, Decision (P x)} `{!∀ x, Decision (Q x)} (l : list A) :
  Forall (λ x, P x ↔ Q x) l → filter P l = filter Q l.
Proof.
  induction 1 as [|x l Hx _ IH]; [done|]. rewrite !filter_cons, IH.
  destruct (decide (P x)) as [HP|HP].
  - by rewrite decide_True by (by apply Hx).
  - by rewrite decide_False by (by rewrite <-Hx).
Qed.

Lemma bind_Ok {A B} (a : A) (k : A → result B) : (Ok a ≫= k) = k a.
Proof. done. Qed.

Section plain_merge.
Variables (left right : DataFrame) (lt rt : string).
Hypothesis Hwfl : wf_frame left.
Hypothesis Hwfr : wf_frame right.
Hypothesis Hlt : left_marker (columns left) = Some lt.
Hypothesis Hrt : right_marker (columns right) = Some rt.
Hypothesis Hlr : lt ∉ columns right.
Hypothesis Hrl : rt ∉ columns left.

Let lc := columns left.
Let rc := columns right.
Let lc' := columns left ++ [lt].
Let rc' := columns right ++ [rt].

Lemma pm_names :
  (lt ∉ lc) ∧ (rt ∉ rc) ∧ lt ≠ rt
  ∧ (∀ s, s +:+ "_x" ≠ lt ∧ s +:+ "_y" ≠ lt)
  ∧ (∀ s, s +:+ "_x" ≠ rt ∧ s +:+ "_y" ≠ rt).
Proof.
  destruct (left_marker_spec _ _ Hlt) as [Hl Hls].
  destruct (right_marker_spec _ _ Hrt) as [Hr Hrs].
  repeat split; try done; try apply Hls; try apply Hrs.
  intros ->. pose proof (left_marker_last _ _ Hlt) as H1.
  pose proof (right_marker_last _ _ Hrt) as H2. congruence.
Qed.

Lemma pm_in_both k : k ∈ lc' ∧ k ∈ rc' ↔ k ∈ lc ∧ k ∈ rc.
Proof.
  destruct pm_names as (Hl & Hr & Hne & _).
  unfold lc', rc', lc, rc in *. rewrite !elem_of_app, !list_elem_of_singleton.
  split; [|naive_solver]. intros [[?| ->] [?| E]]; subst; naive_solver.
Qed.

Lemma pm_merge_keys on : merge_keys on lc' rc' = merge_keys on lc rc.
Proof.
  destruct pm_names as (Hl & Hr & Hne & _).
  destruct on as [[|k0 K0]|]; [done| |]; unfold merge_keys.
  - rewrite (mapM_ext _ (λ k, key_label rc k;; key_label lc k)); [done|].
    intros k. unfold key_label, lc', rc'. fold lc rc.
    destruct (decide (k = rt)) as [->|Hkr].
    + rewrite (filter_app _ rc), (filter_eq_absent rc rt) by done.
      rewrite (filter_eq_absent (lc ++ [lt]) rt).
      2:{ rewrite elem_of_app, list_elem_of_singleton. naive_solver. }
      by rewrite filter_cons_True, filter_nil by done.
    + rewrite (filter_eq_app_ne rc rt k) by done.
      destruct (decide (k = lt)) as [->|Hkl].
      * rewrite (filter_eq_absent rc lt) by done. done.
      * by rewrite (filter_eq_app_ne lc lt k) by done.
  - assert (filter (λ c, c ∈ rc') lc' = filter (λ c, c ∈ rc) lc) as ->.
    { unfold lc'. rewrite filter_app, filter_cons_False, filter_nil, app_nil_r.
      + apply filter_ext_on, Forall_forall. intros c Hc. unfold rc'.
        rewrite elem_of_app, list_elem_of_singleton. split; [|auto].
        intros [?| ->]; [done|]. by destruct Hrl.
      + unfold rc'. rewrite elem_of_app, list_elem_of_singleton. naive_solver. }
    assert (filter (λ c, c ∈ lc') rc' = filter (λ c, c ∈ lc) rc) as ->; [|done].
    unfold rc'. rewrite filter_app, filter_cons_False, filter_nil, app_nil_r.
    + apply filter_ext_on, Forall_forall. intros c Hc. unfold lc'.
      rewrite elem_of_app, list_elem_of_singleton. split; [|auto].
      intros [?| ->]; [done|]. by destruct Hlr.
    + unfold lc'. rewrite elem_of_app, list_elem_of_singleton. naive_solver.
Qed.

Variable K : list string.
Hypothesis HK : Forall (λ k, k ∈ lc ∧ k ∈ rc) K.

Let OL := out_left_name rc K <$> lc.
Let OR := out_right_name lc <$> right_nonkey rc K.
Let BL (j : joined) : row := left_cell lc rc K j <$> lc.
Let BR (j : joined) : row := right_cell rc j <$> right_nonkey rc K.

Lemma pm_not_key : (lt ∉ K) ∧ (rt ∉ K).
Proof.
  destruct pm_names as (Hl & Hr & _). rewrite Forall_forall in HK.
  split; intros Hin; apply HK in Hin as [??]; done.
Qed.

Lemma pm_right_nonkey : right_nonkey rc' K = right_nonkey rc K ++ [rt].
Proof.
  destruct pm_not_key as [_ HrK]. unfold right_nonkey, rc'.
  by rewrite filter_app, filter_cons_True, filter_nil.
Qed.

Lemma pm_out_left : out_left_name rc' K <$> lc' = OL ++ [lt].
Proof.
  destruct pm_names as (Hl & Hr & Hne & _).
  unfold lc'. rewrite fmap_app. f_equal.
  - apply list_fmap_ext. intros i c Hc%list_elem_of_lookup_2.
    unfold out_left_name, rc'. fold rc.
    destruct (decide (¬ c ∈ K ∧ c ∈ rc)) as [H|H].
    + rewrite decide_True; [done|]. rewrite elem_of_app. naive_solver.
    + rewrite decide_False; [done|].
      rewrite elem_of_app, list_elem_of_singleton. intros [? [?| ->]]; [|done].
      by apply H.
  - simpl. unfold out_left_name. rewrite decide_False; [done|].
    unfold rc'. rewrite elem_of_app, list_elem_of_singleton. naive_solver.
Qed.

Lemma pm_out_right : out_right_name lc' <$> right_nonkey rc' K = OR ++ [rt].
Proof.
  destruct pm_names as (Hl & Hr & Hne & _).
  rewrite pm_right_nonkey, fmap_app. f_equal.
  - apply list_fmap_ext. intros i c Hc%list_elem_of_lookup_2.
    apply list_elem_of_filter in Hc as [_ Hc].
    unfold out_right_name, lc'. fold lc.
    destruct (decide (c ∈ lc)) as [H|H].
    + rewrite decide_True; [done|]. rewrite elem_of_app. auto.
    + rewrite decide_False; [done|].
      rewrite elem_of_app, list_elem_of_singleton. intros [?| ->]; done.
  - simpl. unfold out_right_name. rewrite decide_False; [done|].
    unfold lc'. rewrite elem_of_app, list_elem_of_singleton. naive_solver.
Qed.

Lemma pm_merged_columns : merged_columns lc' rc' K = (OL ++ [lt]) ++ OR ++ [rt].
Proof. unfold merged_columns. by rewrite pm_out_left, pm_out_right. Qed.

Lemma pm_marker_not_out : (lt ∉ OL) ∧ (lt ∉ OR) ∧ (rt ∉ OL) ∧ (rt ∉ OR).
Proof.
  destruct pm_names as (Hl & Hr & Hne & Hls & Hrs).
  repeat split; unfold OL, OR; intros (c & Hc & Hin)%list_elem_of_fmap.
  - destruct (out_left_name_cases rc K c) as [[E _]|E]; rewrite E in Hc.
    + by subst c.
    + symmetry in Hc. by apply Hls in Hc.
  - apply list_elem_of_filter in Hin as [_ Hin].
    destruct (out_right_name_cases lc c) as [[E _]|E]; rewrite E in Hc.
    + by subst c.
    + symmetry in Hc. by apply Hls in Hc.
  - destruct (out_left_name_cases rc K c) as [[E _]|E]; rewrite E in Hc.
    + by subst c.
    + symmetry in Hc. by apply Hrs in Hc.
  - apply list_elem_of_filter in Hin as [_ Hin].
    destruct (out_right_name_cases lc c) as [[E _]|E]; rewrite E in Hc.
    + by subst c.
    + symmetry in Hc. by apply Hrs in Hc.
Qed.

Lemma pm_NoDup : NoDup (merged_columns lc' rc' K) ↔ NoDup (merged_columns lc rc K).
Proof.
  destruct pm_names as (_ & _ & Hne & _).
  destruct pm_marker_not_out as (H1 & H2 & H3 & H4).
  rewrite pm_merged_columns. unfold merged_columns. fold OL OR.
  rewrite (Permutation_app_comm OL [lt]), (Permutation_app_comm OR [rt]). simpl.
  rewrite <-Permutation_middle, !NoDup_cons.
  rewrite not_elem_of_cons, !not_elem_of_app. naive_solver.
Qed.

Variable how : how_t.
Let js := join_rows lc rc K (data left) (data right) how.

Lemma pm_join :
  join_rows lc' rc' K ((λ l : row, l ++ [num_of_Z 1]) <$> data left)
    ((λ r : row, r ++ [num_of_Z 2]) <$> data right) how
  = marked <$> js.
Proof.
  apply join_rows_marked; apply Forall_forall.
  - intros l Hl. by apply (left_key_marked left right).
  - intros r Hr. by apply (right_key_marked left right).
Qed.

Lemma pm_build_row j :
  j ∈ js →
  build_row lc' rc' K (marked j)
  = (BL j ++ [left_mark j]) ++ BR j ++ [right_mark j].
Proof.
  intros Hj%join_rows_spec.
  destruct pm_names as (Hl & Hr & Hne & _). destruct pm_not_key as [HlK HrK].
  rewrite build_row_eq, pm_right_nonkey. unfold lc'. rewrite !fmap_app.
  assert (∀ l, l ∈ data left → length l = length lc) as Hll
    by (intros; by apply left_row_length).
  assert (∀ r, r ∈ data right → length r = length rc) as Hlr'
    by (intros; by apply right_row_length).
  rewrite Forall_forall in HK.
  f_equal; [f_equal|f_equal].
  - apply list_fmap_ext. intros i c Hc%list_elem_of_lookup_2.
    destruct j as [l r|l|r]; simpl.
    + apply cell_app_old; [apply Hll, Hj | done].
    + apply cell_app_old; [apply Hll, Hj | done].
    + case_decide as HcK; [|done]. apply cell_app_old; [apply Hlr', Hj|].
      by apply HK.
  - simpl. f_equal. unfold left_mark.
    destruct j as [l r|l|r]; simpl.
    + apply cell_app_new; [apply Hll, Hj | done].
    + apply cell_app_new; [apply Hll, Hj | done].
    + by rewrite decide_False.
  - apply list_fmap_ext. intros i c Hc%list_elem_of_lookup_2.
    apply list_elem_of_filter in Hc as [_ Hc].
    destruct j as [l r|l|r]; simpl; [| done |].
    + apply cell_app_old; [apply Hlr', Hj | done].
    + apply cell_app_old; [apply Hlr', Hj | done].
  - simpl. f_equal. unfold right_mark.
    destruct j as [l r|l|r]; simpl; [| done |].
    + apply cell_app_new; [apply Hlr', Hj | done].
    + apply cell_app_new; [apply Hlr', Hj | done].
Qed.

Let ts := zip (range_index (length js)) js.
Let M' : DataFrame :=
  mkFrame ((OL ++ [lt]) ++ OR ++ [rt])
    ((λ t : value * joined,
        (t.1, (BL t.2 ++ [left_mark t.2]) ++ BR t.2 ++ [right_mark t.2])) <$> ts).
Let M : DataFrame :=
  mkFrame (OL ++ OR) ((λ t : value * joined, (t.1, BL t.2 ++ BR t.2)) <$> ts).

Lemma pm_merged_marked :
  mkFrame (merged_columns lc' rc' K)
    (zip (range_index
            (length (build_row lc' rc' K
               <$> join_rows lc' rc' K ((λ l : row, l ++ [num_of_Z 1]) <$> data left)
                     ((λ r : row, r ++ [num_of_Z 2]) <$> data right) how)))
       (build_row lc' rc' K
          <$> join_rows lc' rc' K ((λ l : row, l ++ [num_of_Z 1]) <$> data left)
                ((λ r : row, r ++ [num_of_Z 2]) <$> data right) how))
  = M'.
Proof.
  rewrite pm_join, pm_merged_columns, <-list_fmap_compose, length_fmap.
  unfold M'. f_equal. rewrite zip_fmap_r_pairs. fold ts.
  apply list_fmap_ext. intros i [lbl j] Ht%list_elem_of_lookup_2. simpl.
  f_equal. apply pm_build_row. by apply elem_of_zip_r in Ht.
Qed.

Lemma pm_merged_plain :
  mkFrame (merged_columns lc rc K)
    (zip (range_index (length (build_row lc rc K <$> js))) (build_row lc rc K <$> js))
  = M.
Proof.
  rewrite length_fmap. unfold M, merged_columns. fold OL OR. f_equal.
  rewrite zip_fmap_r_pairs. fold ts.
  apply list_fmap_ext. intros i [lbl j] _. simpl. by rewrite build_row_eq.
Qed.

Lemma pm_rows_wf_marked : rows_wf M'.
Proof.
  unfold rows_wf, M'. simpl. apply Forall_fmap, Forall_forall. intros t _. simpl.
  unfold BL, BR, OL, OR. rewrite !length_app, !length_fmap. done.
Qed.

Variable gen : string.
Hypothesis Hgl : gen ≠ lt.
Hypothesis Hgr : gen ≠ rt.

(** Lines 45-47 on the join of the marked tables. *)
Lemma pm_status :
  (a ← get_col lt M';
   b ← get_col rt M';
   flags ← series_add a b;
   new ← del_col lt (set_col gen flags M');
   del_col rt new)
  = Ok (set_col gen ((λ j, num_of_Z (status j)) <$> js) M).
Proof.
  destruct pm_names as (Hl & Hr & Hne & _).
  destruct pm_marker_not_out as (H1 & H2 & H3 & H4).
  assert (∀ t : value * joined, t ∈ ts → length (BL t.2) = length OL) as HlenL.
  { intros t _. unfold BL, OL. by rewrite !length_fmap. }
  assert (∀ t : value * joined, t ∈ ts →
            length (BL t.2 ++ BR t.2) = length (OL ++ OR)) as HlenLR.
  { intros t _. unfold BL, BR, OL, OR. by rewrite !length_app, !length_fmap. }
  unfold M'.
  rewrite (get_col_mapped ts fst OL lt (OR ++ [rt]) (λ t, BL t.2)
             (λ t, BR t.2 ++ [right_mark t.2]) (λ t, left_mark t.2));
    [|by rewrite <-app_assoc|by intros; rewrite <-app_assoc|done|done].
  simpl.
  rewrite (get_col_mapped ts fst ((OL ++ [lt]) ++ OR) rt []
             (λ t, (BL t.2 ++ [left_mark t.2]) ++ BR t.2) (λ _, [])
             (λ t, right_mark t.2));
    [|by rewrite <-!app_assoc|by intros; rewrite <-!app_assoc| |].
  2:{ rewrite !elem_of_app, list_elem_of_singleton. naive_solver. }
  2:{ intros t Ht. rewrite !length_app, (HlenL t Ht). unfold BR, OR.
      by rewrite !length_fmap. }
  simpl.
  rewrite (series_add_fmap _ _ (λ t : value * joined, num_of_Z (status t.2)))
    by (intros; apply status_add).
  simpl. fold M'.
  rewrite del_set_col_comm by (done || apply pm_rows_wf_marked).
  unfold M'.
  rewrite (del_col_mapped ts fst OL lt (OR ++ [rt]) (λ t, BL t.2)
             (λ t, BR t.2 ++ [right_mark t.2]) (λ t, left_mark t.2));
    [|by rewrite <-app_assoc|by intros; rewrite <-app_assoc|done|done].
  simpl.
  rewrite del_set_col_comm; [|done|].
  2:{ unfold rows_wf. simpl. apply Forall_fmap, Forall_forall. intros t _. simpl.
      unfold BL, BR, OL, OR. rewrite !length_app, !length_fmap. done. }
  rewrite (del_col_mapped ts fst (OL ++ OR) rt [] (λ t, BL t.2 ++ BR t.2)
             (λ _, []) (λ t, right_mark t.2));
    [|by rewrite <-!app_assoc|by intros; rewrite <-!app_assoc| |done].
  2:{ rewrite elem_of_app. naive_solver. }
  simpl. f_equal. f_equal.
  - unfold ts. apply (zip_range_fmap (λ j, num_of_Z (status j))).
  - unfold M. f_equal; [apply app_nil_r|].
    apply list_fmap_ext. intros i t _. simpl. by rewrite app_nil_r.
Qed.
End plain_merge.

(** Lines 31-47 as the plain merge with the status column set: the keys,
    the columns, the rows and their order, and the exception when the merge
    raises, are those of [pd_merge] on the two tables as they are. *)
Lemma merge_flag_plain left right gen kw lt rt :
  wf_frame left → wf_frame right →
  left_marker (columns left) = Some lt →
  right_marker (columns right) = Some rt →
  lt ∉ columns right → rt ∉ columns left →
  gen ≠ lt → gen ≠ rt →
  merge_flag left right gen kw
  = (K ← merge_keys (kw_on kw) (columns left) (columns right);
     merged ← pd_merge left right kw;
     Ok (set_col gen
           ((λ j, num_of_Z (status j))
              <$> join_rows (columns left) (columns right) K
                    (data left) (data right) (kw_how kw))
           merged)).
Proof.
  intros Hwfl Hwfr Hlt Hrt Hlr Hrl Hgl Hgr.
  destruct (left_marker_spec _ _ Hlt) as [Hl _].
  destruct (right_marker_spec _ _ Hrt) as [Hr _].
  unfold merge_flag. rewrite Hlt, Hrt. simpl from_fuel.
  rewrite !bind_Ok. rewrite !set_col_const_fresh by done.
  unfold pd_merge. simpl columns. rewrite !data_marked.
  rewrite (pm_merge_keys left right lt rt) by done.
  destruct (merge_keys (kw_on kw) (columns left) (columns right)) as [K|e] eqn:EK;
    [|done].
  pose proof (merge_keys_columns _ _ _ _ EK) as HK.
  rewrite !bind_Ok. cbv zeta.
  destruct (decide (NoDup (merged_columns (columns left) (columns right) K)))
    as [Hnd|Hnd].
  - rewrite decide_True by (by apply (pm_NoDup left right lt rt)).
    rewrite !bind_Ok.
    rewrite (pm_merged_marked left right lt rt) by done.
    rewrite (pm_merged_plain left right).
    by apply pm_status.
  - rewrite decide_False; [done|]. by rewrite (pm_NoDup left right lt rt).
Qed.

Lemma pd_merge_length left right kw K merged :
  merge_keys (kw_on kw) (columns left) (columns right) = Ok K →
  pd_merge left right kw = Ok merged →
  length (rows merged)
  = length (join_rows (columns left) (columns right) K (data left) (data right)
              (kw_how kw)).
Proof.
  intros HK. unfold pd_merge. rewrite HK. simpl. case_decide; [|done].
  intros [= <-]. simpl. by rewrite zip_range_length, length_fmap.
Qed.

(** [stata_merge] is [pd.merge] plus a status column.  For well-formed
    tables, when neither marker is a column of the other table and the
    status name is no marker: if [pd.merge] on the two tables (as they are,
    without markers) raises, [stata_merge] raises the same exception and
    prints nothing; if it returns a table, [stata_merge] without a check
    returns that table with the status column set, one status (1, 2 or 3)
    per row.  The markers leave no trace in the columns, the rows or their
    order. *)
Theorem stata_merge_is_merge_with_status left right gen kw lt rt :
  wf_frame left → wf_frame right →
  left_marker (columns left) = Some lt →
  right_marker (columns right) = Some rt →
  lt ∉ columns right → rt ∉ columns left →
  gen ≠ lt → gen ≠ rt →
  match pd_merge left right kw with
  | Ok merged =>
      ∃ flags d,
        length flags = length (rows merged)
        ∧ Forall (λ f, f = num_of_Z 1 ∨ f = num_of_Z 2 ∨ f = num_of_Z 3) flags
        ∧ stata_merge left right None gen kw
          = ([PDist d], Ok (set_col gen flags merged))
  | Raise e => ∀ assertval, stata_merge left right assertval gen kw = ([], Raise e)
  end.
Proof.
  intros Hwfl Hwfr Hlt Hrt Hlr Hrl Hgl Hgr.
  pose proof (merge_flag_plain left right gen kw lt rt
                Hwfl Hwfr Hlt Hrt Hlr Hrl Hgl Hgr) as Hmf.
  destruct (pd_merge left right kw) as [merged|e] eqn:Hm.
  - destruct (merge_keys (kw_on kw) (columns left) (columns right)) as [K|e] eqn:HK.
    2:{ unfold pd_merge in Hm. by rewrite HK in Hm. }
    rewrite !bind_Ok in Hmf.
    set (js := join_rows _ _ _ _ _ _) in Hmf.
    set (flags := (λ j, num_of_Z (status j)) <$> js) in Hmf.
    assert (length flags = length (rows merged)) as Hlen.
    { unfold flags. by rewrite length_fmap, (pd_merge_length _ _ _ _ _ HK Hm). }
    assert (get_col gen (set_col gen flags merged) = Ok flags) as Hget.
    { apply get_set_col_eq; [by eapply pd_merge_rows_wf | done]. }
    exists flags. eexists. split; [done|]. split.
    { apply Forall_fmap, Forall_forall. intros j _. destruct j; simpl; auto. }
    unfold stata_merge. rewrite Hmf, py_bind_lift_Ok. unfold check_flag. simpl.
    unfold distribution. rewrite Hget. simpl. done.
  - intros assertval. unfold stata_merge. rewrite Hmf.
    destruct (merge_keys _ _ _) as [K|e0] eqn:HK; [done|].
    unfold pd_merge in Hm. rewrite HK in Hm. by injection Hm as <-.
Qed.

(** When the expected status holds, [stata_merge] returns the plain
    merge: under the conditions above, if the status name is no column of
    the table [pd.merge] returns and the call with an expected status
    returns, it has printed nothing and its table is that of [pd.merge]. *)
Theorem stata_merge_checked_is_merge left right gen kw lt rt merged (a : Z) out res :
  wf_frame left → wf_frame right →
  left_marker (columns left) = Some lt →
  right_marker (columns right) = Some rt →
  lt ∉ columns right → rt ∉ columns left →
  gen ≠ lt → gen ≠ rt →
  pd_merge left right kw = Ok merged →
  gen ∉ columns merged →
  a ≠ 0%Z →
  stata_merge left right (Some a) gen kw = (out, Ok res) →
  out = [] ∧ res = merged.
Proof.
  intros Hwfl Hwfr Hlt Hrt Hlr Hrl Hgl Hgr Hm Hgen Ha.
  unfold stata_merge.
  rewrite (merge_flag_plain left right gen kw lt rt) by done. rewrite Hm.
  destruct (merge_keys (kw_on kw) (columns left) (columns right)) as [K|e] eqn:HK.
  2:{ unfold pd_merge in Hm. by rewrite HK in Hm. }
  rewrite !bind_Ok. set (js := join_rows _ _ _ _ _ _).
  set (flags := (λ j, num_of_Z (status j)) <$> js).
  assert (length flags = length (rows merged)) as Hlen.
  { unfold flags. by rewrite length_fmap, (pd_merge_length _ _ _ _ _ HK Hm). }
  pose proof (pd_merge_rows_wf _ _ _ _ Hm) as Hwf.
  rewrite py_bind_lift_Ok. unfold check_flag, truthy. rewrite decide_False by done.
  rewrite get_set_col_eq, py_bind_lift_Ok by done.
  destruct (forallb _ flags).
  - rewrite del_set_col_fresh by done. by intros [= <- <-].
  - simpl. by destruct (distribution _ _).
Qed.

(** ** The tables returned are well formed *)

Lemma merge_flag_rows_wf left right gen kw new :
  merge_flag left right gen kw = Ok new → rows_wf new.
Proof.
  unfold merge_flag.
  intros (lt & _ & (rt & _ & (m & Hm & (a & _ & (b & _ & (fl & _
    & (d1 & Hd1 & Hd2)%rbind_Ok)%rbind_Ok)%rbind_Ok)%rbind_Ok)%rbind_Ok)%rbind_Ok)%rbind_Ok.
  apply pd_merge_rows_wf in Hm.
  eapply del_col_rows_wf; [exact Hd2|].
  eapply del_col_rows_wf; [exact Hd1|]. by apply set_col_rows_wf.
Qed.

Lemma stata_merge_Ok_wf left right assertval gen kw out res :
  stata_merge left right assertval gen kw = (out, Ok res) → wf_frame res.
Proof.
  intros (new & Hmf & _ & Hres)%stata_merge_Ok_inv.
  pose proof (merge_flag_columns_NoDup _ _ _ _ _ Hmf) as Hnd.
  pose proof (merge_flag_rows_wf _ _ _ _ _ Hmf) as Hwf.
  destruct Hres as [->|Hdel]; [by split|]. split.
  - by eapply del_col_columns_NoDup.
  - by eapply del_col_rows_wf.
Qed.

Lemma drop_seen_subseteq seen rs r : r ∈ drop_seen seen rs → r ∈ rs.
Proof.
  revert seen; induction rs as [|r0 rs IH]; intros seen; simpl; [done|].
  case_decide.
  - intros ?%IH. by right.
  - intros [->|?%IH]%elem_of_cons; [by left | by right].
Qed.

(** The tables [group_id] and [winsorize] return for a well-formed table
    (no column name twice, one cell per column in every row) are well
    formed: for [group_id] with [merge=True] always, without merging when
    no key column is named twice. *)
Theorem returned_tables_wf :
  (∀ df cols name merge out res,
     wf_frame df →
     group_id df cols name merge = (out, Ok res) →
     merge = true ∨ NoDup (key_columns df cols) → wf_frame res)
  ∧ (∀ df by_ p out, wf_frame df → winsorize df by_ p = Ok out → wf_frame out).
Proof.
  split.
  - intros df cols name merge out res _ H Hcase.
    unfold group_id in H.
    change (match cols with None | Some [] => columns df | Some cs => cs end)
      with (key_columns df cols) in H.
    set (K := key_columns df cols) in *.
    case_decide as Hname; [done|].
    destruct (unique_table df K name) as [u|e] eqn:Hu; [|done].
    rewrite py_bind_lift_Ok in H. destruct merge.
    + rewrite py_bind_run in H.
      destruct (stata_merge df u _ _ _) as [o [m|e]] eqn:Hsm; [|done].
      apply stata_merge_Ok_wf in Hsm as [Hnd Hwf].
      destruct (shape m) as [ni nj], (shape df) as [oi oj].
      rewrite py_bind_run in H. unfold lift in H.
      destruct (py_assert _); [|done]. simpl in H.
      unfold set_index in H. case_decide as Hlen; [|done]. injection H as _ <-.
      split; [done|]. simpl. apply Forall_forall. intros [lbl r] Hr%elem_of_zip_r.
      unfold data in Hr. apply list_elem_of_fmap in Hr as (r0 & -> & Hr0).
      rewrite Forall_forall in Hwf. simpl. by apply (Hwf r0).
    + destruct Hcase as [?|HndK]; [done|]. injection H as _ <-.
      unfold unique_table in Hu.
      unfold select_cols in Hu. case_decide as HK; [|done]. simpl in Hu.
      unfold reset_index_named in Hu.
      change (columns (reset_index_drop ?d)) with (columns d) in Hu.
      rewrite drop_duplicates_columns in Hu. simpl in Hu. case_decide as HnK; [done|]. injection Hu as <-.
      split; simpl.
      * apply NoDup_cons. by split.
      * apply Forall_forall. intros [lbl r] Hr%elem_of_zip_r.
        apply list_elem_of_fmap in Hr as ([lbl1 r1] & -> & Hr1). simpl.
        f_equal. apply elem_of_zip_r in Hr1. unfold data in Hr1.
        apply list_elem_of_fmap in Hr1 as ([lbl2 r2] & -> & Hr2). simpl.
        unfold drop_duplicates in Hr2. simpl in Hr2.
        assert ((lbl2, r2) ∈ (λ r : value * row, (r.1, cell (columns df) r.2 <$> K))
                  <$> rows df) as Hin.
        { case_decide; [done|]. by eapply drop_seen_subseteq. }
        apply list_elem_of_fmap in Hin as (r3 & [= -> ->] & _).
        by rewrite length_fmap.
  - intros df by_ p out [Hnd Hwf] (ps & cuts & _ & _ & Hcols & Hrows)%winsorize_Ok.
    split.
    + rewrite Hcols. case_decide; [constructor | done].
    + rewrite Hrows, Hcols. case_decide as Hr; [by rewrite Hr|].
      apply Forall_forall. intros r [_ Hin]%list_elem_of_filter.
      rewrite Forall_forall in Hwf. by apply Hwf.
Qed.

(** ** A marker that is a column of the other table *)

(** A column of both sides that is no key is renamed on both sides: its
    own name is no column of the joined table. *)
Lemma renamed_on_both_sides c lcols rcols K :
  (∀ s, s +:+ "_x" ≠ c ∧ s +:+ "_y" ≠ c) →
  c ∈ lcols → c ∈ rcols → c ∉ K →
  c ∉ merged_columns lcols rcols K.
Proof.
  intros Hsfx Hl Hr HK. unfold merged_columns. rewrite elem_of_app.
  intros [(x & Hx & Hin)%list_elem_of_fmap|(y & Hy & Hin)%list_elem_of_fmap].
  - destruct (out_left_name_cases rcols K x) as [[E Hno]|E]; rewrite E in Hx.
    + subst x. by apply Hno.
    + symmetry in Hx. by apply Hsfx in Hx.
  - destruct (out_right_name_cases lcols y) as [[E Hno]|E]; rewrite E in Hy.
    + by subst y.
    + symmetry in Hy. by apply Hsfx in Hy.
Qed.

Lemma get_col_KeyError c df : c ∉ columns df → get_col c df = Raise KeyError.
Proof. intros Hc%col_pos_None. unfold get_col. by rewrite Hc. Qed.

Lemma merge_flag_collision left right gen kw K lt rt :
  kw_on kw = Some K →
  Forall (λ k, k ∈ columns left ∧ k ∈ columns right) K →
  left_marker (columns left) = Some lt →
  right_marker (columns right) = Some rt →
  lt ∈ columns right ∨ rt ∈ columns left →
  ∃ e, merge_flag left right gen kw = Raise e.
Proof.
  intros Hon HK Hlt Hrt Hcoll.
  destruct (left_marker_spec _ _ Hlt) as [Hl Hls].
  destruct (right_marker_spec _ _ Hrt) as [Hr Hrs].
  destruct (marker_not_key left right lt rt K Hl Hr HK) as [HlK HrK].
  unfold merge_flag. rewrite Hlt, Hrt. simpl from_fuel.
  rewrite !bind_Ok.
  destruct (pd_merge _ _ kw) as [m|e] eqn:Hm.
  2:{ by exists e. }
  exists KeyError. rewrite bind_Ok.
  pose proof (pd_merge_inv _ _ _ _ _ Hon Hm) as (_ & _ & _ & Hcols).
  apply (f_equal columns) in Hcols. simpl in Hcols.
  rewrite !set_col_const_fresh in Hcols by done. simpl in Hcols.
  assert (lt ∈ columns right → lt ∉ columns m) as H1.
  { intros Hin. rewrite Hcols. apply renamed_on_both_sides; try done.
    - apply elem_of_app. right. apply list_elem_of_here.
    - apply elem_of_app. by left. }
  assert (rt ∈ columns left → rt ∉ columns m) as H2.
  { intros Hin. rewrite Hcols. apply renamed_on_both_sides; try done.
    - apply elem_of_app. by left.
    - apply elem_of_app. right. apply list_elem_of_here. }
  destruct (get_col lt m) as [a|e] eqn:Ha.
  - rewrite bind_Ok. destruct Hcoll as [Hc|Hc].
    + apply get_col_Ok_elem_of in Ha. by apply H1 in Hc.
    + by rewrite (get_col_KeyError rt m (H2 Hc)).
  - destruct (decide (lt ∈ columns m)) as [Hin|Hin].
    + apply get_col_Ok in Hin as [vs Hvs]. congruence.
    + rewrite (get_col_KeyError _ _ Hin) in Ha. by injection Ha as <-.
Qed.

(** A marker that is a column of the other table makes the call fail,
    whatever the rows, the expected status and the join mode: with join
    keys that are columns of both tables, if the left marker is a column of
    the right table or the right marker a column of the left table,
    [stata_merge] never returns a table: it raises, and has printed
    nothing.  The column of that name is renamed on both sides by the
    join, so that line 45 cannot read the marker back. *)
Theorem stata_merge_marker_collision_raises left right assertval gen kw K lt rt :
  kw_on kw = Some K →
  Forall (λ k, k ∈ columns left ∧ k ∈ columns right) K →
  left_marker (columns left) = Some lt →
  right_marker (columns right) = Some rt →
  lt ∈ columns right ∨ rt ∈ columns left →
  ∃ e, stata_merge left right assertval gen kw = ([], Raise e).
Proof.
  intros Hon HK Hlt Hrt Hcoll.
  destruct (merge_flag_collision left right gen kw K lt rt Hon HK Hlt Hrt Hcoll)
    as (e & He).
  exists e. unfold stata_merge. by rewrite He.
Qed.

Lemma stata_merge_marker_collision_raises_witness :
  let kw := Examples.on_id how_inner in
  ("tmpa" ∈ columns Examples.R_tmpa)
  ∧ ∃ e, stata_merge Examples.L Examples.R_tmpa None "_m" kw = ([], Raise e).
Proof.
  intros kw.
  assert (kw_on kw = Some ["id"]) as H1 by reflexivity.
  assert (Forall (λ k, k ∈ columns Examples.L ∧ k ∈ columns Examples.R_tmpa) ["id"])
    as H2 by compute_done.
  assert (left_marker (columns Examples.L) = Some "tmpa") as H3 by reflexivity.
  assert (right_marker (columns Examples.R_tmpa) = Some "tmpb") as H4 by reflexivity.
  assert ("tmpa" ∈ columns Examples.R_tmpa) as H5 by compute_done.
  split; [exact H5|].
  exact (stata_merge_marker_collision_raises Examples.L Examples.R_tmpa None "_m" kw
           ["id"] "tmpa" "tmpb" H1 H2 H3 H4 (or_introl H5)).
Defined.

(** ** group_id with merge: whatever is returned is right *)

Lemma stata_merge_Some_inv left right (a : Z) gen kw out res :
  a ≠ 0%Z →
  stata_merge left right (Some a) gen kw = (out, Ok res) →
  out = [] ∧ ∃ new, merge_flag left right gen kw = Ok new ∧ del_col gen new = Ok res.
Proof.
  intros Ha. unfold stata_merge.
  destruct (merge_flag left right gen kw) as [new|e]; [|done].
  rewrite py_bind_lift_Ok. unfold check_flag, truthy. rewrite decide_False by done.
  destruct (get_col gen new) as [flags|e]; [|done]. rewrite py_bind_lift_Ok.
  destruct (forallb _ flags).
  - unfold lift. intros [= <- Hd]. split; [done|]. by exists new.
  - simpl. by destruct (distribution gen new).
Qed.

Lemma del_col_columns_length c df df' :
  del_col c df = Ok df' → length (columns df) = S (length (columns df')).
Proof.
  unfold del_col. destruct (col_pos c (columns df)) as [p|] eqn:Hp; [|done].
  intros [= <-]. simpl. apply col_pos_lt in Hp.
  rewrite length_delete by (by apply lookup_lt_is_Some). lia.
Qed.

Lemma set_col_columns_in c vs df :
  c ∈ columns df → columns (set_col c vs df) = columns df.
Proof.
  intros [i Hi]%col_pos_is_Some. unfold set_col. by rewrite Hi.
Qed.

Lemma merged_columns_length lcols rcols K :
  length (merged_columns lcols rcols K)
  = length lcols + length (right_nonkey rcols K).
Proof. unfold merged_columns. by rewrite length_app, !length_fmap. Qed.

(** When the status name [gen] is a column of the join of the marked
    tables, the status overwrites that column: the table lines 31-47 leave
    has two columns less than the join, and one more goes with the check. *)
Lemma merge_flag_overwrite_length left right gen kw K lt rt new :
  kw_on kw = Some K →
  left_marker (columns left) = Some lt →
  right_marker (columns right) = Some rt →
  gen ∈ merged_columns (columns left ++ [lt]) (columns right ++ [rt]) K →
  merge_flag left right gen kw = Ok new →
  S (S (length (columns new)))
  = length (merged_columns (columns left ++ [lt]) (columns right ++ [rt]) K).
Proof.
  intros Hon Hlt Hrt Hgen. unfold merge_flag. rewrite Hlt, Hrt. simpl from_fuel.
  rewrite !bind_Ok.
  destruct (left_marker_spec _ _ Hlt) as [Hl _].
  destruct (right_marker_spec _ _ Hrt) as [Hr _].
  intros (m & Hm & (a & _ & (b & _ & (fl & _
    & (d1 & Hd1 & Hd2)%rbind_Ok)%rbind_Ok)%rbind_Ok)%rbind_Ok)%rbind_Ok.
  pose proof (pd_merge_inv _ _ _ _ _ Hon Hm) as (_ & _ & _ & Hcols).
  apply (f_equal columns) in Hcols. simpl in Hcols.
  rewrite !set_col_const_fresh in Hcols by done. simpl in Hcols.
  apply del_col_columns_length in Hd1, Hd2.
  rewrite set_col_columns_in in Hd1 by (by rewrite Hcols).
  rewrite <-Hcols. lia.
Qed.

(** What a call with [merge=True] that returns tells: the arguments it was
    given, and the table it returns. *)
Lemma group_id_merge_inv df cols name out res :
  wf_frame df →
  group_id df cols name true = (out, Ok res) →
  (name ∉ columns df)
  ∧ key_columns df cols ≠ []
  ∧ Forall (λ c, c ∈ columns df) (key_columns df cols)
  ∧ out = []
  ∧ res = mkFrame (columns df ++ [name])
            ((λ r : value * row,
                (r.1, r.2 ++ [id_of df (key_columns df cols) r.2])) <$> rows df).
Proof.
  intros Hwf H.
  destruct (decide (name ∈ columns df)) as [Hname|Hname].
  { unfold group_id in H. by rewrite decide_True in H by done. }
  destruct (decide (Forall (λ c, c ∈ columns df) (key_columns df cols))) as [HK|HK].
  2:{ unfold group_id in H. rewrite decide_False in H by done.
      change (match cols with None | Some [] => columns df | Some cs => cs end)
        with (key_columns df cols) in H.
      unfold unique_table, select_cols in H. by rewrite decide_False in H by done. }
  destruct (fresh_marker_total "tmpa" "a" (columns df)) as (lt & Hlt & _); [done|].
  destruct (fresh_marker_total "tmpb" "b" (name :: key_columns df cols))
    as (rt & Hrt & _); [done|].
  fold (left_marker (columns df)) in Hlt.
  fold (right_marker (name :: key_columns df cols)) in Hrt.
  destruct (left_marker_spec _ _ Hlt) as [Hl Hls].
  destruct (right_marker_spec _ _ Hrt) as [Hr Hrs].
  assert (lt ≠ "_m" ∧ rt ≠ "_m") as [Hlm Hrm].
  { pose proof (left_marker_last _ _ Hlt). pose proof (right_marker_last _ _ Hrt).
    split; by intros ->. }
  assert (name ∉ key_columns df cols) as HnK.
  { intros Hin. rewrite Forall_forall in HK. by apply Hname, HK. }
  unfold group_id in H. rewrite decide_False in H by done.
  change (match cols with None | Some [] => columns df | Some cs => cs end)
    with (key_columns df cols) in H.
  set (K := key_columns df cols) in *.
  destruct (decide (K = [])) as [HKe|HKne].
  { exfalso. rewrite HKe in H, Hrt.
    unfold unique_table in H. rewrite select_cols_Ok in H by constructor.
    simpl in H. rewrite py_bind_run in H. unfold stata_merge, merge_flag in H.
    simpl columns in H. rewrite Hlt, Hrt in H. simpl from_fuel in H.
    rewrite !bind_Ok in H. unfold pd_merge in H. simpl in H. done. }
  split; [done|]. split; [done|]. split; [done|].
  rewrite unique_table_Ok, py_bind_lift_Ok in H by done.
  set (U := mkFrame (name :: K) (numbered (first_seen (combinations df K)))) in *.
  set (kw := mkKwargs (Some K) how_left) in *.
  assert (Forall (λ k, k ∈ columns df ∧ k ∈ columns U) K) as HKU.
  { apply Forall_forall. intros k Hk. rewrite Forall_forall in HK.
    split; [by apply HK | by right]. }
  destruct (decide (name = lt ∨ rt ∈ columns df)) as [Hcoll|Hcoll].
  { exfalso.
    destruct (merge_flag_collision df U "_m" kw K lt rt eq_refl HKU Hlt Hrt)
      as (e & He).
    { destruct Hcoll as [->|?]; [left; by left | by right]. }
    rewrite py_bind_run in H. unfold stata_merge in H. rewrite He in H. done. }
  assert (name ≠ lt ∧ rt ∉ columns df) as [Hnl Hrdf] by naive_solver.
  destruct (decide ("_m" ∈ columns df ∨ name = "_m")) as [Hm|Hm].
  { exfalso. rewrite py_bind_run in H.
    destruct (stata_merge df U (Some 3%Z) "_m" kw) as [o [m|e]] eqn:Hsm; [|done].
    apply stata_merge_Some_inv in Hsm as (-> & new & Hmf & Hdel); [|done].
    assert ("_m" ∈ merged_columns (columns df ++ [lt]) (columns U ++ [rt]) K) as Hin.
    { unfold merged_columns. apply elem_of_app. destruct Hm as [Hm| ->].
      - left. apply list_elem_of_fmap. exists "_m". split.
        + unfold out_left_name. rewrite decide_False; [done|].
          intros [HmK Hmr]. simpl in Hmr.
          rewrite elem_of_cons, elem_of_app, list_elem_of_singleton in Hmr.
          destruct Hmr as [<-|[?|?]]; done.
        + apply elem_of_app. by left.
      - right. apply list_elem_of_fmap. exists "_m". split.
        + unfold out_right_name. rewrite decide_False; [done|].
          rewrite elem_of_app, list_elem_of_singleton. naive_solver.
        + unfold right_nonkey. apply list_elem_of_filter. split; [done|].
          simpl. by left. }
    pose proof (merge_flag_overwrite_length df U "_m" kw K lt rt new
                  eq_refl Hlt Hrt Hin Hmf) as Hlen.
    apply del_col_columns_length in Hdel.
    rewrite merged_columns_length in Hlen.
    change (columns U ++ [rt]) with ((name :: K) ++ [rt]) in Hlen.
    rewrite (mb_right_nonkey df K name lt rt) in Hlen by done.
    rewrite length_app in Hlen. simpl in Hlen.
    unfold shape in H. rewrite py_bind_run in H. unfold lift at 1 in H.
    rewrite bool_decide_false in H by lia. simpl in H. done. }
  assert (("_m" ∉ columns df) ∧ name ≠ "_m") as [Hmdf Hmn] by naive_solver.
  assert (NoDup K) as HKnd.
  { rewrite py_bind_run in H. unfold stata_merge, merge_flag in H.
    rewrite Hlt in H. simpl columns in H. rewrite Hrt in H. simpl from_fuel in H.
    rewrite !bind_Ok in H.
    destruct (pd_merge _ _ kw) as [m|e] eqn:Hpm; [|done]. clear H.
    unfold pd_merge in Hpm. simpl kw_on in Hpm.
    destruct (merge_keys _ _ _) as [K'|] eqn:HK'; [|done].
    apply merge_keys_Some_once in HK'. rewrite Forall_forall in HK'.
    rewrite (set_col_const_fresh rt) in HK' by done.
    apply NoDup_filter_eq. intros k Hk. destruct (HK' k Hk) as [_ Hone].
    change (columns (mkFrame _ _)) with ((name :: K) ++ [rt]) in Hone.
    rewrite filter_app, length_app, filter_cons in Hone.
    rewrite decide_False in Hone by (by intros ->). lia. }
  subst U kw. rewrite (mb_stata_merge df K name lt rt) in H by done.
  unfold mbind, Py_bind in H. simpl in H.
  rewrite length_fmap, (mb_ts_length_rows df), length_app in H. simpl in H.
  rewrite bool_decide_true in H by done. simpl in H.
  unfold set_index in H. simpl in H. unfold index in H.
  rewrite !length_fmap, (mb_ts_length_rows df), decide_True in H by done.
  simpl in H. injection H as <- <-. split; [done|]. f_equal.
  by apply mb_set_index.
Qed.

(** With [merge=True], whatever [group_id] returns is right.  For a
    well-formed table, a call that returns has printed nothing, and its
    table is the table with the id column appended: the same labels, the
    same rows in the same order, each with the id of its combination.  A
    name collision makes the call raise; it never makes it return another
    table. *)
Theorem group_id_merge_sound df cols name out res :
  wf_frame df →
  group_id df cols name true = (out, Ok res) →
  out = []
  ∧ columns res = columns df ++ [name]
  ∧ index res = index df
  ∧ length (rows res) = length (rows df)
  ∧ ∀ i r, rows df !! i = Some r →
      rows res !! i = Some (r.1, r.2 ++ [id_of df (key_columns df cols) r.2]).
Proof.
  intros Hwf H.
  destruct (group_id_merge_inv _ _ _ _ _ Hwf H) as (_ & _ & _ & -> & ->).
  split; [done|]. split; [done|]. simpl. split.
  { unfold index. simpl. rewrite <-list_fmap_compose. by apply list_fmap_ext. }
  split; [by rewrite length_fmap|].
  intros i r Hr. by rewrite list_lookup_fmap, Hr.
Qed.

(** The id column of the merged table points into the table of
    combinations.  On a well-formed table, when the call with [merge=True]
    returns, the call with [merge=False] returns as well, and for every row
    of the merged table the id is a number [n] such that row [n] of the
    table of combinations is that row restricted to the id and the key
    columns. *)
Theorem group_id_crosswalk_lookup df cols name out merged :
  wf_frame df →
  group_id df cols name true = (out, Ok merged) →
  ∃ xwalk,
    group_id df cols name false = ([], Ok xwalk)
    ∧ ∀ r, r ∈ rows merged →
        ∃ n, cell (columns merged) r.2 name = num_of_nat n
          ∧ data xwalk !! n = Some (cell (columns merged) r.2 <$> columns xwalk).
Proof.
  intros Hwf H.
  destruct (group_id_merge_inv _ _ _ _ _ Hwf H) as (Hname & HKne & HK & -> & ->).
  eexists. split; [by apply group_id_mapping_Ok|]. simpl.
  intros r (r0 & -> & Hr0)%list_elem_of_fmap. simpl.
  assert (length r0.2 = length (columns df)) as Hlen.
  { destruct Hwf as [_ Hl]. rewrite Forall_forall in Hl. by apply Hl. }
  destruct (id_of_Some df (key_columns df cols) r0.2) as (n & Hn & Hcombo).
  { apply list_elem_of_fmap. by exists r0. }
  exists n. rewrite cell_app_new by done. split; [done|].
  unfold data. simpl. rewrite list_lookup_fmap.
  rewrite (numbered_lookup _ _ _ Hcombo). simpl. f_equal.
  f_equal; [done|]. symmetry. apply list_fmap_ext.
  intros i c Hc%list_elem_of_lookup_2.
  rewrite Forall_forall in HK. apply cell_app_old; [done | by apply HK].
Qed.

(** Ids identify groups: in the table a call with [merge=True] returns for
    a well-formed table, two rows have the same id exactly when they agree
    on every key column (a missing value agreeing with a missing value). *)
Theorem group_id_same_id_iff_same_key df cols name out merged :
  wf_frame df →
  group_id df cols name true = (out, Ok merged) →
  ∀ r1 r2, r1 ∈ rows merged → r2 ∈ rows merged →
    cell (columns merged) r1.2 name = cell (columns merged) r2.2 name
    ↔ cell (columns merged) r1.2 <$> key_columns df cols
      = cell (columns merged) r2.2 <$> key_columns df cols.
Proof.
  intros Hwf H.
  destruct (group_id_merge_inv _ _ _ _ _ Hwf H) as (Hname & HKne & HK & -> & ->).
  simpl.
  assert (∀ r0, r0 ∈ rows df → length r0.2 = length (columns df)) as Hlen.
  { destruct Hwf as [_ Hl]. by rewrite Forall_forall in Hl. }
  assert (∀ r0 x, r0 ∈ rows df →
            cell (columns df ++ [name]) (r0.2 ++ [x]) <$> key_columns df cols
            = cell (columns df) r0.2 <$> key_columns df cols) as Hkey.
  { intros r0 x Hr0. apply list_fmap_ext. intros i c Hc%list_elem_of_lookup_2.
    rewrite Forall_forall in HK. apply cell_app_old; [by apply Hlen | by apply HK]. }
  intros r1 r2 (a & -> & Ha)%list_elem_of_fmap (b & -> & Hb)%list_elem_of_fmap.
  simpl. rewrite !cell_app_new, !Hkey by auto.
  destruct (id_of_Some df (key_columns df cols) a.2) as (n & Hn & Hcn);
    [apply list_elem_of_fmap; by exists a|].
  destruct (id_of_Some df (key_columns df cols) b.2) as (m & Hm & Hcm);
    [apply list_elem_of_fmap; by exists b|].
  split.
  - rewrite Hn, Hm. intros ->%num_of_nat_inj. congruence.
  - intros Heq. unfold id_of. by rewrite Heq.
Qed.

(** ** The status says where the key occurs *)


Section status_of_key.
Variables (left right : DataFrame) (lt rt : string) (K : list string) (how : how_t).
Hypothesis Hwfl : wf_frame left.
Hypothesis Hwfr : wf_frame right.
Hypothesis HK : Forall (λ k, k ∈ columns left ∧ k ∈ columns right) K.

Let lcols := columns left ++ [lt].
Let rcols := columns right ++ [rt].
Let ls := (λ r : row, r ++ [num_of_Z 1]) <$> data left.
Let rs := (λ r : row, r ++ [num_of_Z 2]) <$> data right.
Let js := join_rows lcols rcols K ls rs how.

End status_of_key.



(** ** df_to_list, twice *)

(** [df_to_list] returns a list whenever it returns, and a second call
    on its result changes nothing. *)
Theorem df_to_list_idempotent x y :
  df_to_list x = Ok y → (∃ items, y = PyList items) ∧ df_to_list y = Ok y.
Proof.
  destruct x as [items|items|t|s|v|]; try done; intros [= <-]; split; try done;
    by eexists.
Qed.

(** ** The theorems above on the example tables *)

Ltac output_of t :=
  let r := eval vm_compute in t in
  lazymatch r with
  | (?o, _) => o
  end.

Lemma stata_merge_status_by_how_witness :
  let kw := Examples.on_id how_left in
  ∃ out new flags,
    stata_merge Examples.L Examples.R None "_m" kw = (out, Ok new)
    ∧ get_col "_m" new = Ok flags
    ∧ Forall (λ f, ∃ z, z ∈ possible_status (kw_how kw) ∧ f = num_of_Z z) flags.
Proof.
  intros kw.
  assert (wf_frame Examples.L) as H1 by compute_done.
  assert (wf_frame Examples.R) as H2 by compute_done.
  assert (kw_on kw = Some ["id"]) as H3 by reflexivity.
  assert (Forall (λ k, k ∈ columns Examples.L ∧ k ∈ columns Examples.R) ["id"])
    as H4 by compute_done.
  let out := output_of (stata_merge Examples.L Examples.R None "_m" kw) in
  let new := value_of (stata_merge Examples.L Examples.R None "_m" kw) in
  let flags := value_of (get_col "_m" new) in
  exists out, new, flags;
  assert (stata_merge Examples.L Examples.R None "_m" kw = (out, Ok new)) as H5
    by (vm_compute; reflexivity);
  assert (get_col "_m" new = Ok flags) as H6 by (vm_compute; reflexivity).
  split; [exact H5|]. split; [exact H6|].
  exact (stata_merge_status_by_how _ _ _ _ _ _ _ _ H1 H2 H3 H4 H5 H6).
Defined.

Lemma stata_merge_inner_assert_witness :
  let kw := Examples.on_id how_inner in
  ∃ out new res,
    stata_merge Examples.L Examples.R None "_m" kw = (out, Ok new)
    ∧ stata_merge Examples.L Examples.R (Some 3%Z) "_m" kw = ([], Ok res)
    ∧ del_col "_m" new = Ok res.
Proof.
  intros kw.
  assert (wf_frame Examples.L) as H1 by compute_done.
  assert (wf_frame Examples.R) as H2 by compute_done.
  assert (kw_on kw = Some ["id"]) as H3 by reflexivity.
  assert (kw_how kw = how_inner) as H3' by reflexivity.
  assert (Forall (λ k, k ∈ columns Examples.L ∧ k ∈ columns Examples.R) ["id"])
    as H4 by compute_done.
  let out := output_of (stata_merge Examples.L Examples.R None "_m" kw) in
  let new := value_of (stata_merge Examples.L Examples.R None "_m" kw) in
  exists out, new;
  assert (stata_merge Examples.L Examples.R None "_m" kw = (out, Ok new)) as H5
    by (vm_compute; reflexivity).
  destruct (stata_merge_inner_assert _ _ _ _ _ _ _ H1 H2 H3 H3' H4 H5) as (res & Hr & Hd).
  exists res. split; [exact H5|]. split; [exact Hr | exact Hd].
Defined.

Lemma stata_merge_assert_impossible_witness :
  let kw := Examples.on_id how_left in
  ∃ out new,
    stata_merge Examples.L Examples.R None "_m" kw = (out, Ok new)
    ∧ rows new ≠ []
    ∧ (2%Z ∉ possible_status (kw_how kw))
    ∧ stata_merge Examples.L Examples.R (Some 2%Z) "_m" kw
      = (PText "Merge assertion is false!" :: out, Raise AssertionError).
Proof.
  intros kw.
  assert (wf_frame Examples.L) as H1 by compute_done.
  assert (wf_frame Examples.R) as H2 by compute_done.
  assert (kw_on kw = Some ["id"]) as H3 by reflexivity.
  assert (Forall (λ k, k ∈ columns Examples.L ∧ k ∈ columns Examples.R) ["id"])
    as H4 by compute_done.
  let out := output_of (stata_merge Examples.L Examples.R None "_m" kw) in
  let new := value_of (stata_merge Examples.L Examples.R None "_m" kw) in
  exists out, new;
  assert (stata_merge Examples.L Examples.R None "_m" kw = (out, Ok new)) as H5
    by (vm_compute; reflexivity);
  assert (rows new ≠ []) as H6 by done.
  assert (2 ≠ 0)%Z as H7 by done.
  assert (2%Z ∉ possible_status (kw_how kw)) as H8 by compute_done.
  split; [exact H5|]. split; [exact H6|]. split; [exact H8|].
  exact (stata_merge_assert_impossible _ _ _ _ _ _ _ 2 H1 H2 H3 H4 H5 H6 H7 H8).
Defined.

Lemma stata_merge_markers_removed_witness :
  let kw := Examples.on_id how_outer in
  ∃ out res,
    stata_merge Examples.L Examples.R None "_m" kw = (out, Ok res)
    ∧ ("tmpa" ∉ columns res) ∧ ("tmpb" ∉ columns res).
Proof.
  intros kw.
  let out := output_of (stata_merge Examples.L Examples.R None "_m" kw) in
  let res := value_of (stata_merge Examples.L Examples.R None "_m" kw) in
  exists out, res;
  assert (stata_merge Examples.L Examples.R None "_m" kw = (out, Ok res)) as H5
    by (vm_compute; reflexivity).
  split; [exact H5|].
  destruct (stata_merge_markers_removed _ _ _ _ _ _ _ H5)
    as (lt & rt & Hlt & Hrt & Hl & Hr & _).
  vm_compute in Hlt, Hrt. injection Hlt as <-. injection Hrt as <-.
  split; [exact Hl | exact Hr].
Defined.

Lemma stata_merge_gen_is_marker_witness :
  left_marker (columns Examples.L) = Some "tmpa"
  ∧ stata_merge Examples.L Examples.R None "tmpa" (Examples.on_id how_outer)
    = ([], Raise KeyError).
Proof.
  assert (left_marker (columns Examples.L) = Some "tmpa") as H1 by reflexivity.
  split; [exact H1|].
  destruct (stata_merge_gen_is_marker Examples.L Examples.R None "tmpa"
              (Examples.on_id how_outer) (or_introl H1)) as (e & He & Hk).
  rewrite He. f_equal. f_equal.
  destruct (merge_flag Examples.L Examples.R "tmpa" (Examples.on_id how_outer))
    as [new|e'] eqn:E; [by apply (Hk new) | by vm_compute in E].
Defined.

Lemma stata_merge_distribution_witness :
  let kw := Examples.on_id how_outer in
  ∃ out new flags d,
    stata_merge Examples.L Examples.R None "_m" kw = (out, Ok new)
    ∧ get_col "_m" new = Ok flags
    ∧ rows new ≠ []
    ∧ out = [PDist d]
    ∧ Qc_sum (d.*2) = Q2Qc 1.
Proof.
  intros kw.
  assert (wf_frame Examples.L) as H1 by compute_done.
  assert (wf_frame Examples.R) as H2 by compute_done.
  assert (kw_on kw = Some ["id"]) as H3 by reflexivity.
  assert (Forall (λ k, k ∈ columns Examples.L ∧ k ∈ columns Examples.R) ["id"])
    as H4 by compute_done.
  let out := output_of (stata_merge Examples.L Examples.R None "_m" kw) in
  let new := value_of (stata_merge Examples.L Examples.R None "_m" kw) in
  let flags := value_of (get_col "_m" new) in
  exists out, new, flags;
  assert (stata_merge Examples.L Examples.R None "_m" kw = (out, Ok new)) as H5
    by (vm_compute; reflexivity);
  assert (get_col "_m" new = Ok flags) as H6 by (vm_compute; reflexivity);
  assert (rows new ≠ []) as H7 by done.
  destruct (stata_merge_distribution _ _ _ _ _ _ _ _ H1 H2 H3 H4 H5 H6 H7)
    as (d & Hd & _ & _ & _ & Hsum).
  exists d. split; [exact H5|]. split; [exact H6|]. split; [exact H7|].
  split; [exact Hd | exact Hsum].
Defined.

Lemma group_id_crosswalk_lookup_witness :
  let df := Examples.T in
  ∃ merged xwalk,
    group_id df (Some ["k"]) "group_id" true = ([], Ok merged)
    ∧ group_id df (Some ["k"]) "group_id" false = ([], Ok xwalk)
    ∧ ∀ r, r ∈ rows merged →
        ∃ n, cell (columns merged) r.2 "group_id" = num_of_nat n
          ∧ data xwalk !! n = Some (cell (columns merged) r.2 <$> columns xwalk).
Proof.
  intros df.
  assert (wf_frame df) as H1 by compute_done.
  let merged := value_of (group_id df (Some ["k"]) "group_id" true) in
  exists merged;
  assert (group_id df (Some ["k"]) "group_id" true = ([], Ok merged)) as H2
    by (vm_compute; reflexivity).
  destruct (group_id_crosswalk_lookup df (Some ["k"]) "group_id" _ _ H1 H2)
    as (xwalk & Hx & Hlook).
  exists xwalk. split; [exact H2|]. split; [exact Hx | exact Hlook].
Defined.

Lemma group_id_same_id_iff_same_key_witness :
  let df := Examples.T in
  ∃ merged,
    group_id df (Some ["k"]) "group_id" true = ([], Ok merged)
    ∧ ∀ r1 r2, r1 ∈ rows merged → r2 ∈ rows merged →
        cell (columns merged) r1.2 "group_id" = cell (columns merged) r2.2 "group_id"
        ↔ cell (columns merged) r1.2 <$> key_columns df (Some ["k"])
          = cell (columns merged) r2.2 <$> key_columns df (Some ["k"]).
Proof.
  intros df.
  assert (wf_frame df) as H1 by compute_done.
  let merged := value_of (group_id df (Some ["k"]) "group_id" true) in
  exists merged;
  assert (group_id df (Some ["k"]) "group_id" true = ([], Ok merged)) as H2
    by (vm_compute; reflexivity).
  split; [exact H2|].
  exact (group_id_same_id_iff_same_key df (Some ["k"]) "group_id" _ _ H1 H2).
Defined.

Lemma group_id_merge_sound_witness :
  let df := Examples.T in
  ∃ res,
    group_id df (Some ["k"]) "group_id" true = ([], Ok res)
    ∧ columns res = columns df ++ ["group_id"]
    ∧ index res = index df
    ∧ length (rows res) = length (rows df)
    ∧ ∀ i r, rows df !! i = Some r →
        rows res !! i
        = Some (r.1, r.2 ++ [id_of df (key_columns df (Some ["k"])) r.2]).
Proof.
  intros df.
  assert (wf_frame df) as H1 by compute_done.
  let res := value_of (group_id df (Some ["k"]) "group_id" true) in
  exists res;
  assert (group_id df (Some ["k"]) "group_id" true = ([], Ok res)) as H2
    by (vm_compute; reflexivity).
  split; [exact H2|].
  exact (proj2 (group_id_merge_sound df (Some ["k"]) "group_id" _ _ H1 H2)).
Defined.

Lemma group_id_crosswalk_idempotent_witness :
  let df := Examples.T in
  ∃ xwalk,
    NoDup (columns df)
    ∧ NoDup (key_columns df (Some ["k"]))
    ∧ group_id df (Some ["k"]) "group_id" false = ([], Ok xwalk)
    ∧ ("id2" ∉ columns xwalk)
    ∧ group_id xwalk (Some (key_columns df (Some ["k"]))) "id2" false
      = ([], Ok (mkFrame ("id2" :: key_columns df (Some ["k"])) (rows xwalk))).
Proof.
  intros df.
  assert (key_columns df (Some ["k"]) ≠ []) as H1 by done.
  let xwalk := value_of (group_id df (Some ["k"]) "group_id" false) in
  exists xwalk;
  assert (group_id df (Some ["k"]) "group_id" false = ([], Ok xwalk)) as H2
    by (vm_compute; reflexivity);
  assert ("id2" ∉ columns xwalk) as H3 by compute_done.
  assert (NoDup (columns df)) as H4 by compute_done.
  assert (NoDup (key_columns df (Some ["k"]))) as H5 by compute_done.
  split; [exact H4|]. split; [exact H5|]. split; [exact H2|]. split; [exact H3|].
  exact (group_id_crosswalk_idempotent df (Some ["k"]) "group_id" "id2" _
           H4 H1 H5 H2 H3).
Defined.

Lemma winsorize_rows_within_bounds_witness :
  let by_ := ByMany ["x"; "y"] in
  let p := PShared (Q2Qc (1 # 10), Q2Qc (9 # 10)) in
  ∃ out,
    winsorize Examples.W by_ p = Ok out
    ∧ rows out `sublist_of` rows Examples.W
    ∧ ∃ cuts : list (value * value),
        length cuts = length (force_iterable by_)
        ∧ ∀ r, r ∈ rows out ↔
            r ∈ rows Examples.W
            ∧ ∀ i col c, force_iterable by_ !! i = Some col → cuts !! i = Some c →
                ∃ x lo hi : Qc,
                  cell (columns Examples.W) r.2 col = VNum x
                  ∧ c = (VNum lo, VNum hi) ∧ (lo ≤ x ∧ x ≤ hi)%Qc.
Proof.
  intros by_ p.
  let out := value_of (winsorize Examples.W by_ p) in
  exists out;
  assert (winsorize Examples.W by_ p = Ok out) as H1 by (vm_compute; reflexivity).
  split; [exact H1|].
  exact (winsorize_rows_within_bounds Examples.W by_ p _ H1).
Defined.

Lemma winsorize_raises_witness :
  winsorize Examples.W (ByOne "z") Examples.full_range = Raise KeyError
  ∧ ∃ c, c ∈ force_iterable (ByOne "z") ∧ c ∉ columns Examples.W.
Proof.
  assert (winsorize Examples.W (ByOne "z") Examples.full_range = Raise KeyError)
    as H1 by (vm_compute; reflexivity).
  split; [exact H1|].
  exact (winsorize_raises Examples.W (ByOne "z") Examples.full_range KeyError H1).
Defined.

Lemma winsorize_by_columns_witness :
  let pq := (Q2Qc (1 # 10), Q2Qc (9 # 10)) in
  ∃ out,
    winsorize Examples.W (ByMany ["x"; "y"]) (PShared pq) = Ok out
    ∧ rows out `sublist_of` rows Examples.W
    ∧ ∀ r, r ∈ rows out ↔
        r ∈ rows Examples.W
        ∧ ∀ c, c ∈ ["x"; "y"] →
            ∃ out_c, winsorize Examples.W (ByOne c) (PShared pq) = Ok out_c
              ∧ r ∈ rows out_c.
Proof.
  intros pq.
  let out := value_of (winsorize Examples.W (ByMany ["x"; "y"]) (PShared pq)) in
  exists out;
  assert (winsorize Examples.W (ByMany ["x"; "y"]) (PShared pq) = Ok out) as H1
    by (vm_compute; reflexivity).
  split; [exact H1|].
  exact (winsorize_by_columns Examples.W ["x"; "y"] pq _ H1).
Defined.

Lemma group_id_refines_witness :
  let h := [Examples.T] in
  let res := Heap.group_id 0 (Some ["k"]) "group_id" true h in
  let pure := group_id Examples.T (Some ["k"]) "group_id" true in
  res.2.1 = pure.1 ∧
  match res.2.2, pure.2 with
  | Ok new, Ok out => res.1 !! new = Some out
  | Raise e, Raise e' => e = e'
  | _, _ => False
  end.
Proof.
  exact (HeapGroup.group_id_refines [Examples.T] 0 (Some ["k"]) "group_id" true
           Examples.T eq_refl).
Defined.

Lemma stata_merge_is_merge_with_status_witness :
  let kw := Examples.on_id how_outer in
  ∃ merged flags d,
    pd_merge Examples.L Examples.R kw = Ok merged
    ∧ length flags = length (rows merged)
    ∧ stata_merge Examples.L Examples.R None "_m" kw
      = ([PDist d], Ok (set_col "_m" flags merged)).
Proof.
  intros kw.
  assert (wf_frame Examples.L) as H1 by compute_done.
  assert (wf_frame Examples.R) as H2 by compute_done.
  assert (left_marker (columns Examples.L) = Some "tmpa") as H3 by reflexivity.
  assert (right_marker (columns Examples.R) = Some "tmpb") as H4 by reflexivity.
  assert ("tmpa" ∉ columns Examples.R) as H5 by compute_done.
  assert ("tmpb" ∉ columns Examples.L) as H6 by compute_done.
  assert ("_m" ≠ "tmpa") as H7 by done.
  assert ("_m" ≠ "tmpb") as H8 by done.
  pose proof (stata_merge_is_merge_with_status Examples.L Examples.R "_m" kw
                "tmpa" "tmpb" H1 H2 H3 H4 H5 H6 H7 H8) as H.
  destruct (pd_merge Examples.L Examples.R kw) as [merged|e] eqn:E;
    [|by vm_compute in E].
  destruct H as (flags & d & Hlen & _ & Hsm).
  by exists merged, flags, d.
Defined.

Lemma stata_merge_checked_is_merge_witness :
  let kw := Examples.on_id how_inner in
  ∃ merged,
    pd_merge Examples.L Examples.R kw = Ok merged
    ∧ ("_m" ∉ columns merged)
    ∧ stata_merge Examples.L Examples.R (Some 3%Z) "_m" kw = ([], Ok merged).
Proof.
  intros kw.
  assert (wf_frame Examples.L) as H1 by compute_done.
  assert (wf_frame Examples.R) as H2 by compute_done.
  assert (left_marker (columns Examples.L) = Some "tmpa") as H3 by reflexivity.
  assert (right_marker (columns Examples.R) = Some "tmpb") as H4 by reflexivity.
  assert ("tmpa" ∉ columns Examples.R) as H5 by compute_done.
  assert ("tmpb" ∉ columns Examples.L) as H6 by compute_done.
  assert ("_m" ≠ "tmpa") as H7 by done.
  assert ("_m" ≠ "tmpb") as H8 by done.
  assert (3 ≠ 0)%Z as H9 by done.
  let merged := value_of (pd_merge Examples.L Examples.R kw) in
  exists merged;
  assert (pd_merge Examples.L Examples.R kw = Ok merged) as H10
    by (vm_compute; reflexivity);
  assert ("_m" ∉ columns merged) as H11 by compute_done.
  split; [exact H10|]. split; [exact H11|].
  destruct (stata_merge Examples.L Examples.R (Some 3%Z) "_m" kw)
    as [out [res|e]] eqn:E; [|by vm_compute in E].
  destruct (stata_merge_checked_is_merge Examples.L Examples.R "_m" kw "tmpa" "tmpb"
              _ 3 out res H1 H2 H3 H4 H5 H6 H7 H8 H10 H11 H9 E) as [-> ->].
  reflexivity.
Defined.

Lemma returned_tables_wf_witness :
  ∃ out res,
    wf_frame Examples.T
    ∧ group_id Examples.T (Some ["k"]) "gid" true = (out, Ok res)
    ∧ wf_frame res.
Proof.
  let out := output_of (group_id Examples.T (Some ["k"]) "gid" true) in
  let res := value_of (group_id Examples.T (Some ["k"]) "gid" true) in
  exists out, res;
  assert (group_id Examples.T (Some ["k"]) "gid" true = (out, Ok res)) as H1
    by (vm_compute; reflexivity).
  assert (wf_frame Examples.T) as H0 by compute_done.
  split; [exact H0|]. split; [exact H1|].
  exact (proj1 returned_tables_wf _ _ _ _ _ _ H0 H1 (or_introl eq_refl)).
Defined.

Lemma df_to_list_idempotent_witness :
  ∃ y, df_to_list (PyFrame Examples.L) = Ok y ∧ df_to_list y = Ok y.
Proof.
  let y := value_of (df_to_list (PyFrame Examples.L)) in
  exists y;
  assert (df_to_list (PyFrame Examples.L) = Ok y) as H1 by reflexivity.
  split; [exact H1|].
  exact (proj2 (df_to_list_idempotent _ _ H1)).
Defined.
